(** * Class metrics: a shallow embedding of [class_metrics_v6.py]

    The script walks a repository, parses every Python file, computes
    per-class structural metrics (LOC, methods, LCOM, TCC, CBO), mines
    [git log -L] for change statistics, joins the fan-in/fan-out counts of
    a pyreverse graph, prints a table and writes a CSV file.

    Python values are embedded as follows.
    - [str] is a list of Unicode code points ([N]).
    - [int] is [nat] where the value is a count, [Z] where it may be
      negative (the raw LCOM difference, exit statuses).
    - [float] is the rational number the binary64 value denotes ([Q]); the
      arithmetic rounds to binary64 where Python does.
    - [set] is a [gset]; the [fan_data] dictionary, only ever read with
      [.get], is a [gmap]; the [attributes] dictionary, whose keys are
      enumerated in insertion order, is an association list.
    - exceptions and output are threaded through a small trace/error monad. *)

From Stdlib Require Import QArith Qround Qpower Lqa.
From stdpp Require Import gmap strings list fin_maps.

Set Warnings "-register-all,-clear-no-such-hyp".
Local Open Scope nat_scope.

(** ** Python strings *)

Module Str.

Definition str : Type := list N.

(** A literal of the source text (ASCII only). *)
Definition lit (s : string) : str :=
  Ascii.N_of_ascii <$> String.list_ascii_of_string s.

Fixpoint startswith (s p : str) : bool :=
  match p, s with
  | [], _ => true
  | _ :: _, [] => false
  | a :: p', b :: s' => if decide (a = b) then startswith s' p' else false
  end.

Definition endswith (s p : str) : bool := startswith (reverse s) (reverse p).

(** [s.count(sub)]: the number of non-overlapping occurrences, scanning from
    the left.  [skip] is the number of characters still covered by the
    occurrence found last. *)
Fixpoint count_from (sub : str) (skip : nat) (s : str) : nat :=
  match s with
  | [] => 0
  | _ :: s' =>
      match skip with
      | S k => count_from sub k s'
      | O => if startswith s sub
             then S (count_from sub (pred (length sub)) s')
             else count_from sub 0 s'
      end
  end.

Definition count (s sub : str) : nat :=
  match sub with
  | [] => S (length s)
  | _ => count_from sub 0 s
  end.

(** The line boundaries of [str.splitlines]. *)
Definition is_linebreak (c : N) : bool :=
  bool_decide (c ∈ [10; 11; 12; 13; 28; 29; 30; 133; 8232; 8233]%N).

(** [s.splitlines()]: [cur] holds the current line, reversed.  A carriage
    return followed by a line feed is one boundary; a last line without a
    boundary is kept only when it is not empty. *)
Fixpoint splitlines_from (cur : str) (s : str) : list str :=
  match s with
  | [] => match cur with [] => [] | _ => [reverse cur] end
  | c :: s' =>
      if is_linebreak c then
        match s' with
        | c' :: s'' =>
            if bool_decide (c = 13%N) && bool_decide (c' = 10%N)
            then reverse cur :: splitlines_from [] s''
            else reverse cur :: splitlines_from [] s'
        | [] => reverse cur :: splitlines_from [] s'
        end
      else splitlines_from (c :: cur) s'
  end.

Definition splitlines (s : str) : list str := splitlines_from [] s.

(** [s.split(sep)] for a one-character separator: [cur] is the current
    segment, reversed.  The result is never empty. *)
Fixpoint split_from (sep : N) (cur : str) (s : str) : list str :=
  match s with
  | [] => [reverse cur]
  | c :: s' =>
      if decide (c = sep) then reverse cur :: split_from sep [] s'
      else split_from sep (c :: cur) s'
  end.

Definition split (s : str) (sep : N) : list str := split_from sep [] s.

(** [s.split(sep, 1)]: at most one split, at the first separator. *)
Fixpoint split1_from (sep : N) (cur : str) (s : str) : list str :=
  match s with
  | [] => [reverse cur]
  | c :: s' =>
      if decide (c = sep) then [reverse cur; s']
      else split1_from sep (c :: cur) s'
  end.

Definition split1 (s : str) (sep : N) : list str := split1_from sep [] s.

Fixpoint lstrip_by (p : N → bool) (s : str) : str :=
  match s with
  | c :: s' => if p c then lstrip_by p s' else s
  | [] => []
  end.

Definition strip_by (p : N → bool) (s : str) : str :=
  reverse (lstrip_by p (reverse (lstrip_by p s))).

(** [str.isspace] on one character: the white space [s.strip()] removes. *)
Definition is_space (c : N) : bool :=
  bool_decide (c ∈ [9; 10; 11; 12; 13; 28; 29; 30; 31; 32; 133; 160; 5760;
                    8232; 8233; 8239; 8287; 12288]%N)
  || ((8192 <=? c)%N && (c <=? 8202)%N).

(** [s.strip()] *)
Definition strip (s : str) : str := strip_by is_space s.

(** [s.strip(chars)] *)
Definition strip_chars (s chars : str) : str :=
  strip_by (λ c, bool_decide (c ∈ chars)) s.

(** [s.replace(a, b)] for one-character [a] and [b]. *)
Definition replace_char (s : str) (a b : N) : str :=
  (λ c, if decide (c = a) then b else c) <$> s.

End Str.

Import Str.

(** ** Python floats

    A finite [float] is the rational it denotes.  [binary64] rounds a rational
    to the nearest binary64 value, ties to even, with gradual underflow; the
    quotients and roundings of the script stay far below the overflow
    threshold (a count of lines or of method pairs divided by a count), so
    overflow is not modelled. *)

Module Float.

Definition float : Type := Q.

(** Round to the nearest integer, ties to the even one. *)
Definition round_half_even (x : Q) : Z :=
  let fl := Qfloor x in
  match (x - inject_Z fl ?= 1 # 2)%Q with
  | Lt => fl
  | Gt => (fl + 1)%Z
  | Eq => if Z.even fl then fl else (fl + 1)%Z
  end.

(** [2 ^ k] for any integer [k]. *)
Definition pow2 (k : Z) : Q := Qpower 2 k.

(** The binary exponent of a positive rational: [2^e <= q < 2^(e+1)]. *)
Definition ilog2 (q : Q) : Z :=
  let e0 := (Z.log2 (Qnum q) - Z.log2 (Zpos (Qden q)))%Z in
  if Qle_bool (pow2 e0) q then e0 else (e0 - 1)%Z.

(** Nearest binary64 value of a non-negative rational: 53 significant bits,
    least exponent -1022. *)
Definition binary64_abs (a : Q) : Q :=
  let e := Z.max (ilog2 a) (-1022) in
  let ulp := pow2 (e - 52) in
  (inject_Z (round_half_even (a / ulp)) * ulp)%Q.

Definition binary64 (q : Q) : float :=
  let q := Qred q in
  match Qnum q with
  | Z0 => 0%Q
  | Zpos _ => Qred (binary64_abs q)
  | Zneg _ => Qred (- binary64_abs (- q))
  end.

(** [a / b] on two [int]s: the correctly rounded quotient.  The script
    divides only behind a test that the divisor is positive. *)
Definition truediv (a b : nat) : float :=
  binary64 (inject_Z (Z.of_nat a) / inject_Z (Z.of_nat b)).

(** [round(x, ndigits)] for [ndigits >= 0]: the exact value of [x] is rounded
    to [ndigits] decimals, ties to even, and the decimal is converted back to
    the nearest float. *)
Definition round (x : float) (ndigits : nat) : float :=
  let scale := inject_Z (10 ^ Z.of_nat ndigits) in
  binary64 (inject_Z (round_half_even (x * scale)) / scale).

End Float.

Import Float.

(** ** Syntax trees

    The nodes of Python's [ast] module that the script tells apart; every
    other node is an [Other] carrying its child nodes in field order. *)

Inductive node : Type :=
  | Module (body : list node)
  | ClassDef (name : str) (bases keywords body decorator_list : list node)
  | FunctionDef (name : str) (args : node) (body decorator_list : list node)
                (returns : option node)
  | AsyncFunctionDef (name : str) (args : node) (body decorator_list : list node)
                     (returns : option node)
  | Attribute (value : node) (attr : str) (ctx : node)
  | Name (id : str) (ctx : node)
  | Other (fields : list node).

(** The expression contexts [ast.Load()] and [ast.Store()]. *)
Definition ctx_Load : node := Other [].
Definition ctx_Store : node := Other [].

(** [ast.iter_child_nodes]: the child nodes in the order of [_fields]. *)
Definition iter_child_nodes (n : node) : list node :=
  match n with
  | Module body => body
  | ClassDef _ bases keywords body decorator_list =>
      bases ++ keywords ++ body ++ decorator_list
  | FunctionDef _ args body decorator_list returns
  | AsyncFunctionDef _ args body decorator_list returns =>
      args :: body ++ decorator_list ++ option_list returns
  | Attribute value _ ctx => [value; ctx]
  | Name _ ctx => [ctx]
  | Other fields => fields
  end.

(** Number of nodes of a tree. *)
Fixpoint node_size (n : node) : nat :=
  S match n with
    | Module body => sum_list_with node_size body
    | ClassDef _ bases keywords body decorator_list =>
        sum_list_with node_size bases + sum_list_with node_size keywords
        + sum_list_with node_size body + sum_list_with node_size decorator_list
    | FunctionDef _ args body decorator_list returns
    | AsyncFunctionDef _ args body decorator_list returns =>
        node_size args + sum_list_with node_size body
        + sum_list_with node_size decorator_list
        + match returns with Some r => node_size r | None => 0 end
    | Attribute value _ ctx => node_size value + node_size ctx
    | Name _ ctx => node_size ctx
    | Other fields => sum_list_with node_size fields
    end.

(** [ast.walk]: breadth first, with a queue.  Each step pops one node and
    pushes its children, so [node_size] steps empty the queue. *)
Fixpoint walk_queue (fuel : nat) (todo : list node) : list node :=
  match fuel, todo with
  | S fuel', n :: todo' => n :: walk_queue fuel' (todo' ++ iter_child_nodes n)
  | _, _ => []
  end.

Definition walk (n : node) : list node := walk_queue (node_size n) [n].

(** The nodes of the tree under [root]: [root] itself and, with a node, its
    child nodes. *)
Inductive descendant (root : node) : node → Prop :=
  | descendant_root : descendant root root
  | descendant_child (x c : node) :
      descendant root x → c ∈ iter_child_nodes x → descendant root c.

(** ** The structural metrics of one class *)

(** [isinstance(n, ast.FunctionDef)] *)
Definition is_FunctionDef (n : node) : bool :=
  match n with FunctionDef _ _ _ _ _ => true | _ => false end.

(** [isinstance(n, ast.ClassDef)] *)
Definition is_ClassDef (n : node) : bool :=
  match n with ClassDef _ _ _ _ _ => true | _ => false end.

(** [n.name] of a definition node. *)
Definition def_name (n : node) : str :=
  match n with
  | ClassDef name _ _ _ _ | FunctionDef name _ _ _ _
  | AsyncFunctionDef name _ _ _ _ => name
  | _ => []
  end.

(** [n.body] *)
Definition def_body (n : node) : list node :=
  match n with
  | Module body | ClassDef _ _ _ body _ | FunctionDef _ _ body _ _
  | AsyncFunctionDef _ _ body _ _ => body
  | _ => []
  end.

(** [attributes = defaultdict(set)]: the keys in insertion order. *)
Definition attr_dict : Type := list (str * gset str).

(** [attributes[k]] where the key exists (a missing key reads as the default
    empty set). *)
Fixpoint dict_get (d : attr_dict) (k : str) : gset str :=
  match d with
  | [] => ∅
  | (k', v) :: d' => if decide (k' = k) then v else dict_get d' k
  end.

(** [attributes[k].add(a)]: the set of an existing key grows in place, a new
    key is appended with the set [{a}]. *)
Fixpoint dict_add (d : attr_dict) (k a : str) : attr_dict :=
  match d with
  | [] => [(k, {[a]})]
  | (k', v) :: d' =>
      if decide (k' = k) then (k', {[a]} ∪ v) :: d'
      else (k', v) :: dict_add d' k a
  end.

(** The test of lines 75-76: [subnode] is [self.attr]. *)
Definition self_attr (subnode : node) : option str :=
  match subnode with
  | Attribute (Name id _) attr _ =>
      if decide (id = lit "self") then Some attr else None
  | _ => None
  end.

(** Lines 72-77 for one method. *)
Definition collect_method (attributes : attr_dict) (method : node) : attr_dict :=
  foldl (λ d subnode,
           match self_attr subnode with
           | Some attr => dict_add d (def_name method) attr
           | None => d
           end)
        attributes (walk method).

Definition collect_attributes (methods : list node) : attr_dict :=
  foldl collect_method [] methods.

(** [range(a, b)] *)
Definition range (a b : nat) : list nat := seq a (b - a).

(** Truth value of a set: it is not empty. *)
Definition truthy (s : gset str) : bool := bool_decide (s ≠ ∅).

(** Lines 85-86 and 100-101: the attribute sets of the methods at the
    positions [i] and [j] of [method_names]. *)
Definition pair_sets (attributes : attr_dict) (i j : nat) : gset str * gset str :=
  let method_names := attributes.*1 in
  (dict_get attributes (method_names !!! i),
   dict_get attributes (method_names !!! j)).

(** The pairs [(i, j)] the nested loops of lines 83-84 and 98-99 visit, in
    order, for [n = len(method_names)]. *)
Definition index_pairs (n : nat) : list (nat * nat) :=
  i ← range 0 n; pair i <$> range (i + 1) n.

(** The test of lines 87 and 103 at the pair of positions [p]. *)
Definition sharing (attributes : attr_dict) (p : nat * nat) : bool :=
  let '(set_i, set_j) := pair_sets attributes p.1 p.2 in
  truthy (set_i ∩ set_j).

(** Lines 85-90, one iteration of the inner loop. *)
Definition lcom_step (attributes : attr_dict) (i : nat)
    (acc : nat * nat) (j : nat) : nat * nat :=
  let '(no_shared, shared) := acc in
  let '(set_i, set_j) := pair_sets attributes i j in
  if truthy (set_i ∩ set_j) then (no_shared, S shared)
  else (S no_shared, shared).

(** Lines 81-90: the counters [(no_shared, shared)]. *)
Definition lcom_counts (attributes : attr_dict) : nat * nat :=
  let method_names := attributes.*1 in
  foldl (λ acc i,
           foldl (lcom_step attributes i) acc
                 (range (i + 1) (length method_names)))
        (0, 0) (range 0 (length method_names)).

(** Lines 91-93. *)
Definition lcom_of (attributes : attr_dict) : Z :=
  let '(no_shared, shared) := lcom_counts attributes in
  let lcom := (Z.of_nat no_shared - Z.of_nat shared)%Z in
  if (lcom <? 0)%Z then 0%Z else lcom.

(** Lines 100-104, one iteration of the inner loop. *)
Definition tcc_step (attributes : attr_dict) (i : nat)
    (acc : nat * nat) (j : nat) : nat * nat :=
  let '(connected, total) := acc in
  let '(set_i, set_j) := pair_sets attributes i j in
  let total := S total in
  if truthy (set_i ∩ set_j) then (S connected, total)
  else (connected, total).

(** Lines 96-104: the counters [(connected, total)]. *)
Definition tcc_counts (attributes : attr_dict) : nat * nat :=
  let method_names := attributes.*1 in
  foldl (λ acc i,
           foldl (tcc_step attributes i) acc
                 (range (i + 1) (length method_names)))
        (0, 0) (range 0 (length method_names)).

(** Line 105. *)
Definition tcc_of (attributes : attr_dict) : float :=
  let '(connected, total) := tcc_counts attributes in
  if 0 <? total then Float.round (truediv connected total) 3 else 1%Q.

(** Lines 108-111. *)
Definition imported_classes (cls : node) : gset str :=
  foldl (λ s subnode,
           match subnode with
           | Name id _ => if decide (id ≠ def_name cls) then {[id]} ∪ s else s
           | _ => s
           end)
        ∅ (walk cls).

(** Line 69. *)
Definition methods_of (cls : node) : list node :=
  filter (λ n, is_FunctionDef n = true) (def_body cls).

(** One entry of [class_metrics], before the history fields are merged. *)
Record class_metrics : Type := {
  filename : str;
  class : str;
  loc : nat;
  methods : nat;
  lcom : Z;
  tcc : float;
  cbo : nat
}.

(** The loop body of lines 69-121 for the class node [cls]. *)
Definition class_entry (rel_file : str) (cls : node) : class_metrics :=
  let methods := methods_of cls in
  let attributes := collect_attributes methods in
  {| filename := rel_file;
     class := def_name cls;
     loc := length (def_body cls);
     methods := length methods;
     lcom := lcom_of attributes;
     tcc := tcc_of attributes;
     cbo := size (imported_classes cls) |}.

(** ** Exceptions, output and the outside world *)

(** The exceptions that occur; [SyntaxError] stands for the class and its
    subclasses, [OSError] likewise (a missing executable or file). *)
Inductive exn : Type :=
  | SyntaxError
  | CalledProcessError (returncode : Z)
  | OSError
  | UnicodeDecodeError
  | ValueError
  | IndexError
  | UnboundLocalError (name : str)
  | SystemExit (code : option Z).

Inductive result (A : Type) : Type :=
  | Ok (a : A)
  | Raise (e : exn).
Arguments Ok {A} a.
Arguments Raise {A} e.

(** What [subprocess] observes of a child process. *)
Inductive process_result : Type :=
  | Exited (returncode : Z) (stdout : str)
  | Not_run (e : exn).

(** The graph [read_dot] returns, as far as the script looks at it. *)
Record DiGraph : Type := {
  nodes : list str;
  predecessors : str → list str;
  successors : str → list str
}.

(** The history fields of a class (lines 157-163). *)
Record git_stats : Type := {
  changes : nat;
  lines_added : nat;
  lines_deleted : nat;
  authors : gset str;
  nlc : float
}.

(** An entry of [results]: a class dictionary after [cls.update(stats)]. *)
Definition entry : Type := class_metrics * git_stats.

(** A row handed to [csv.DictWriter.writerow] (lines 187-202). *)
Record csv_row : Type := {
  row_metrics : class_metrics;
  row_changes : nat;
  row_lines_added : nat;
  row_lines_deleted : nat;
  row_nlc : float;
  row_authors : nat;
  row_fan_in : nat;
  row_fan_out : nat
}.

(** What the program does to the outside, in order. *)
Inductive event : Type :=
  | Ev_walk (repo_path : str)
  | Ev_read (file_path : str)
  | Ev_run (args : list str) (cwd : option str)
  | Ev_read_dot (dot_file : str)
  | Ev_print (text : str)
  | Ev_print_header
  | Ev_print_row (r : entry) (fan_in fan_out : nat)
  | Ev_csv (output_file : str) (rows : list csv_row).

(** The events that write the report file. *)
Definition writes_csv (ev : event) : bool :=
  match ev with Ev_csv _ _ => true | _ => false end.

(** The lines of the table and the report file. *)
Definition reporting (ev : event) : bool :=
  match ev with
  | Ev_print_header | Ev_print_row _ _ _ | Ev_csv _ _ => true
  | _ => false
  end.

(** The reads of source files and the child processes. *)
Definition querying (ev : event) : bool :=
  match ev with Ev_read _ | Ev_run _ _ => true | _ => false end.

(** The content of a table row. *)
Definition printed_row (ev : event) : option (entry * nat * nat) :=
  match ev with
  | Ev_print_row r fan_in fan_out => Some (r, fan_in, fan_out)
  | _ => None
  end.

(** The environment of a run: the file system, the parser, the child
    processes and the graph reader. *)
Record World : Type := {
  os_walk : str → list (str * list str * list str);
  open_read : str → result str;
  ast_parse : str → result node;
  relpath : str → str → str;
  run_process : list str → option str → process_result;
  read_dot : str → result DiGraph;
  open_write : str → result unit
}.

(** A computation: the events so far and how it ended. *)
Record M (A : Type) : Type := Run {
  trace : list event;
  outcome : result A
}.
Arguments Run {A} trace outcome.
Arguments trace {A} m.
Arguments outcome {A} m.

#[global] Instance M_ret : MRet M := λ A a, Run [] (Ok a).

#[global] Instance M_bind : MBind M := λ A B f m,
  match outcome m with
  | Ok a => Run (trace m ++ trace (f a)) (outcome (f a))
  | Raise e => Run (trace m) (Raise e)
  end.

#[global] Instance M_fmap : FMap M := λ A B f m,
  Run (trace m) match outcome m with Ok a => Ok (f a) | Raise e => Raise e end.

Definition raise {A} (e : exn) : M A := Run [] (Raise e).
Definition emit (ev : event) : M unit := Run [ev] (Ok ()).
Definition lift {A} (r : result A) : M A := Run [] r.

(** [try: m except E: handler] where [catches] tells the exceptions [E]. *)
Definition try_except {A} (m : M A) (catches : exn → bool) (handler : M A) : M A :=
  match outcome m with
  | Raise e =>
      if catches e then Run (trace m ++ trace handler) (outcome handler) else m
  | Ok _ => m
  end.

(** A [for] loop that threads an accumulator. *)
Fixpoint for_each {A St} (xs : list A) (body : St → A → M St) (s : St) : M St :=
  match xs with
  | [] => mret s
  | x :: xs' => s' ← body s x; for_each xs' body s'
  end.

(** [l[i]] *)
Definition index {A} (l : list A) (i : nat) : M A :=
  match l !! i with Some a => mret a | None => raise IndexError end.

(** The exit status the interpreter reports for the outcome of the script. *)
Definition exit_status {A} (r : result A) : Z :=
  match r with
  | Ok _ => 0
  | Raise (SystemExit None) => 0
  | Raise (SystemExit (Some c)) => c
  | Raise _ => 1
  end.

(** ** The program *)

Section Program.

Variable W : World.

(** [os.path.join(root, file)] on POSIX. *)
Definition path_join (root file : str) : str :=
  if startswith file (lit "/") then file
  else if bool_decide (root = []) || endswith root (lit "/") then root ++ file
  else root ++ lit "/" ++ file.

(** Lines 49-55. *)
Definition get_py_files (repo_path : str) : M (list str) :=
  emit (Ev_walk repo_path);;
  mret (foldl (λ py_files '(root, _, files),
                 foldl (λ py_files file,
                          if endswith file (lit ".py")
                          then py_files ++ [path_join root file]
                          else py_files)
                       py_files files)
              [] (os_walk W repo_path)).

(** Lines 57-122.  The [try] covers [ast.parse] only; [parsed] is [None]
    where the [except] branch returns the empty list. *)
Definition extract_class_metrics (file_path repo_path : str)
  : M (list class_metrics) :=
  emit (Ev_read file_path);;
  code ← lift (open_read W file_path);
  parsed ← try_except
             (Some <$> lift (ast_parse W code))
             (λ e, match e with SyntaxError => true | _ => false end)
             (mret None);
  match parsed with
  | None => mret []
  | Some tree =>
      mret (foldl (λ class_metrics node,
                     if is_ClassDef node
                     then class_metrics
                            ++ [class_entry (relpath W file_path repo_path) node]
                     else class_metrics)
                  [] (walk tree))
  end.

(** [subprocess.check_output(args, cwd=cwd, text=True)] *)
Definition check_output (args : list str) (cwd : str) : M str :=
  emit (Ev_run args (Some cwd));;
  match run_process W args (Some cwd) with
  | Exited 0 stdout => mret stdout
  | Exited returncode _ => raise (CalledProcessError returncode)
  | Not_run e => raise e
  end.

(** Lines 134-140. *)
Definition no_history : git_stats :=
  {| changes := 0; lines_added := 0; lines_deleted := 0;
     authors := ∅; nlc := 0%Q |}.

(** Lines 147-153, one iteration: the state is
    [(lines_added, lines_deleted, authors)]. *)
Definition scan_line (st : nat * nat * gset str) (line : str)
  : M (nat * nat * gset str) :=
  let '(lines_added, lines_deleted, authors) := st in
  if startswith line (lit "Author:") then
    author ← index (split1 line 58%N) 1;
    mret (lines_added, lines_deleted, {[strip author]} ∪ authors)
  else if startswith line (lit "+") && negb (startswith line (lit "+++")) then
    mret (S lines_added, lines_deleted, authors)
  else if startswith line (lit "-") && negb (startswith line (lit "---")) then
    mret (lines_added, S lines_deleted, authors)
  else mret st.

(** Lines 142-163: the reduction of the log text. *)
Definition reduce_log (log_output : str) : M git_stats :=
  let changes := count log_output (lit "commit") in
  '(lines_added, lines_deleted, authors) ←
    for_each (splitlines log_output) scan_line (0, 0, ∅);
  let total_lines_changed := lines_added + lines_deleted in
  let nlc := if 0 <? changes
             then Float.round (truediv total_lines_changed changes) 2
             else 0%Q in
  mret {| changes := changes; lines_added := lines_added;
          lines_deleted := lines_deleted; authors := authors; nlc := nlc |}.

(** The command of lines 127-128. *)
Definition git_log_args (class_name rel_path : str) : list str :=
  [lit "git"; lit "log"; lit "-L";
   lit ":class " ++ class_name ++ lit ":" ++ rel_path].

(** Lines 124-163.  The [try] covers the call of [git] only; [r] is [None]
    where the [except] branch returns the zero record. *)
Definition get_class_git_stats (file_path class_name repo_path : str)
  : M git_stats :=
  let rel_path := relpath W file_path repo_path in
  r ← try_except
        (Some <$> check_output (git_log_args class_name rel_path) repo_path)
        (λ e, match e with CalledProcessError _ => true | _ => false end)
        (mret None);
  match r with
  | None => mret no_history
  | Some log_output => reduce_log log_output
  end.

(** Line 171. *)
Definition clean_name (node : str) : str :=
  default [] (last (split (strip_chars node [34%N]) 46%N)).

(** Lines 166-175. *)
Definition compute_fan_in_out (dot_file : str) : M (gmap str (gmap str nat)) :=
  emit (Ev_print (lit "computing fan-in and fan-out using dot file: "
                    ++ dot_file));;
  emit (Ev_read_dot dot_file);;
  G ← lift (read_dot W dot_file);
  mret (foldl (λ (fan_data : gmap str (gmap str nat)) node,
                 let fan_in := length (predecessors G node) in
                 let fan_out := length (successors G node) in
                 <[clean_name node :=
                     <[lit "fan_out" := fan_out]> {[lit "fan_in" := fan_in]}]>
                   fan_data)
              ∅ (nodes G)).

(** [fan_data.get(cls, {}).get(key, 0)] (lines 185-186 and 239-240). *)
Definition fan_get (fan_data : gmap str (gmap str nat)) (cls key : str) : nat :=
  default 0 (default ∅ (fan_data !! cls) !! key).

(** Lines 187-202. *)
Definition csv_row_of (fan_data : gmap str (gmap str nat)) (r : entry) : csv_row :=
  {| row_metrics := r.1;
     row_changes := changes r.2;
     row_lines_added := lines_added r.2;
     row_lines_deleted := lines_deleted r.2;
     row_nlc := nlc r.2;
     row_authors := size (authors r.2);
     row_fan_in := fan_get fan_data (class r.1) (lit "fan_in");
     row_fan_out := fan_get fan_data (class r.1) (lit "fan_out") |}.

(** Lines 177-203. *)
Definition export_to_csv (results : list entry)
    (fan_data : gmap str (gmap str nat)) (output_file : str) : M unit :=
  lift (open_write W output_file);;
  emit (Ev_csv output_file (csv_row_of fan_data <$> results));;
  emit (Ev_print ([10; 128193]%N ++ lit " CSV export complete: " ++ output_file)).

(** [subprocess.run(args, check=True)] *)
Definition subprocess_run_check (args : list str) : M unit :=
  emit (Ev_run args None);;
  match run_process W args None with
  | Exited 0 _ => mret ()
  | Exited returncode _ => raise (CalledProcessError returncode)
  | Not_run e => raise e
  end.

(** Lines 205-207. *)
Definition run_pyreverse (target_path project_name : str) : M unit :=
  emit (Ev_print ([10; 9851; 65039]%N ++ lit " Running pyreverse on: "
                    ++ target_path));;
  subprocess_run_check
    [lit "pyreverse"; lit "-o"; lit "dot"; lit "-p"; project_name; target_path].

Definition usage : str :=
  lit "Usage: python class_metrics_v5.py repo_path output_filename(with no extension)".

(** Reading a local variable: it is [None] while nothing was assigned. *)
Definition load_local (name : str) (v : option str) : M str :=
  match v with Some x => mret x | None => raise (UnboundLocalError name) end.

(** Lines 218-244: all of [main] after the arguments are read. *)
Definition main_body (repo_path : str) (OUTPUT_FILE : option str) : M unit :=
  files ← get_py_files repo_path;
  emit (Ev_print (lit "Computing the first set of class metrics..."));;
  results ←
    for_each files
      (λ results file_path,
         classes ← extract_class_metrics file_path repo_path;
         for_each classes
           (λ results cls,
              stats ← get_class_git_stats file_path (class cls) repo_path;
              mret (results ++ [(cls, stats)]))
           results)
      [];
  run_pyreverse repo_path repo_path;;
  let project_name := replace_char repo_path 47%N 95%N in
  let dot_file_path := lit "classes_" ++ project_name ++ lit ".dot" in
  fan_data ← compute_fan_in_out dot_file_path;
  emit Ev_print_header;;
  emit (Ev_print (replicate 150 45%N));;
  for_each results
    (λ _ r,
       let fan_in := fan_get fan_data (class r.1) (lit "fan_in") in
       let fan_out := fan_get fan_data (class r.1) (lit "fan_out") in
       emit (Ev_print_row r fan_in fan_out))
    ();;
  output_file ← load_local (lit "OUTPUT_FILE") OUTPUT_FILE;
  export_to_csv results fan_data (output_file ++ lit ".csv").

(** Lines 209-244; [argv] is [sys.argv]. *)
Definition main (argv : list str) : M unit :=
  if 1 <? length argv then
    repo_path ← index argv 1;
    OUTPUT_FILE ← (if 2 <? length argv then Some <$> index argv 2
                   else mret None);
    main_body repo_path OUTPUT_FILE
  else
    emit (Ev_print usage);;
    raise (SystemExit None).

End Program.

(** ** The metrics as the specification words them

    These definitions follow the prose of the specification (and the comment
    block at the head of the script), not the code: every method of the class
    takes part with its set of instance attributes, empty or not. *)

Module Spec.

(** The instance attributes a method reads or writes through [self]. *)
Definition method_attrs (method : node) : gset str :=
  list_to_set (omap self_attr (walk method)).

(** All unordered pairs of distinct positions of a list. *)
Fixpoint unordered_pairs {A} (l : list A) : list (A * A) :=
  match l with
  | [] => []
  | x :: l' => (pair x <$> l') ++ unordered_pairs l'
  end.

(** A pair is connected when the two sets share an attribute. *)
Definition connected_pair (p : gset str * gset str) : bool :=
  bool_decide (p.1 ∩ p.2 ≠ ∅).

Definition method_pairs (cls : node) : list (gset str * gset str) :=
  unordered_pairs (method_attrs <$> methods_of cls).

Definition total (cls : node) : nat := length (method_pairs cls).

Definition connected (cls : node) : nat :=
  length (filter (λ p, connected_pair p = true) (method_pairs cls)).

Definition disjoint (cls : node) : nat :=
  length (filter (λ p, connected_pair p = false) (method_pairs cls)).

(** [LCOM = disjoint - shared], floored at 0. *)
Definition lcom (cls : node) : Z :=
  Z.max 0 (Z.of_nat (disjoint cls) - Z.of_nat (connected cls)).

(** [TCC = connected / total], 1.0 when there is no pair, rounded to three
    decimals. *)
Definition tcc (cls : node) : float :=
  if decide (total cls = 0) then 1%Q
  else Float.round (truediv (connected cls) (total cls)) 3.

(** The invariant of a class record: NLC is the churn per change, rounded to
    two decimals, and 0 where there is no change. *)
Definition nlc_invariant (changes lines_added lines_deleted : nat)
    (nlc : float) : Prop :=
  (0 < changes →
     nlc = Float.round (truediv (lines_added + lines_deleted) changes) 2)
  ∧ (changes = 0 → nlc = 0%Q).

End Spec.

(** ** Concrete inputs *)

Module Example.

(** [self.a] *)
Definition self_dot (a : string) : node :=
  Attribute (Name (lit "self") ctx_Load) (lit a) ctx_Load.

(** [def name(self): body], with the [arguments] node and its one [arg]. *)
Definition method (name : string) (body : list node) : node :=
  FunctionDef (lit name) (Other [Other []]) body [] None.

(** [return e] *)
Definition ret_stmt (e : node) : node := Other [e].

(** The constant [1]. *)
Definition one : node := Other [].

(** [class Foo:] with [def a(self): return self.x] and
    [def b(self): return 1]: two methods, the second reads no attribute. *)
Definition foo_one_silent : node :=
  ClassDef (lit "Foo") [] []
    [method "a" [ret_stmt (self_dot "x")];
     method "b" [ret_stmt one]] [].

(** [class Foo:] whose methods read [self.x], and [self.x] with [self.y]. *)
Definition foo_sharing : node :=
  ClassDef (lit "Foo") [] []
    [method "a" [ret_stmt (self_dot "x")];
     method "b" [ret_stmt (Other [self_dot "x"; self_dot "y"])]] [].

(** [class Foo:] whose methods read [self.a] and [self.b]. *)
Definition foo_disjoint : node :=
  ClassDef (lit "Foo") [] []
    [method "a" [ret_stmt (self_dot "a")];
     method "b" [ret_stmt (self_dot "b")]] [].

(** [class Bar(Base):] with an assignment, a method that defines a nested
    function, and an [async def]. *)
Definition bar_nested : node :=
  ClassDef (lit "Bar") [Name (lit "Base") ctx_Load] []
    [Other [Name (lit "limit") ctx_Store; one];
     method "run" [method "helper" [ret_stmt (self_dot "x")];
                   ret_stmt (Name (lit "helper") ctx_Load)];
     AsyncFunctionDef (lit "fetch") (Other [Other []])
       [ret_stmt (self_dot "x")] [] None] [].

Definition nl : str := [10%N].

(** The text of [a.py], which parses to [foo_one_silent], and of [bad.py],
    which does not parse. *)
Definition source_a : str :=
  lit "class Foo:" ++ nl ++ lit "    def a(self):" ++ nl
  ++ lit "        return self.x" ++ nl ++ lit "    def b(self):" ++ nl
  ++ lit "        return 1" ++ nl.

Definition source_bad : str := lit "class Foo(:" ++ nl.

(** A [git log -L] output: one commit whose message repeats the word. *)
Definition log_text : str :=
  lit "commit 1f3a" ++ nl ++ lit "Author: Ann <ann@example.org>" ++ nl
  ++ lit "    fix commit" ++ nl ++ lit "--- a/a.py" ++ nl
  ++ lit "+++ b/a.py" ++ nl ++ lit "+x = 1" ++ nl ++ lit "-x = 2" ++ nl
  ++ lit "+y = 3" ++ nl.

(** The record mined from [log_text]: the word [commit] occurs twice, two
    lines are added and one is deleted, so [nlc] is 1.5. *)
Definition log_stats : git_stats :=
  {| changes := 2; lines_added := 2; lines_deleted := 1;
     authors := {[lit "Ann <ann@example.org>"]}; nlc := 3 # 2 |}.

Definition quoted (s : string) : str := 34%N :: lit s ++ [34%N].

(** The graph [pkg.a.Foo -> Bar], the first name quoted by the reader. *)
Definition graph : DiGraph :=
  {| nodes := [quoted "pkg.a.Foo"; lit "Bar"];
     predecessors := λ n, if decide (n = lit "Bar")
                          then [quoted "pkg.a.Foo"] else [];
     successors := λ n, if decide (n = lit "Bar") then [] else [lit "Bar"] |}.

(** A repository with [a.py] (the class [foo_one_silent]), a file that does
    not parse and a file that is no Python source; [git] and [pyreverse]
    succeed. *)
Definition world : World :=
  {| os_walk := λ r, [(r, [], [lit "a.py"; lit "README.md"; lit "bad.py"])];
     open_read := λ f, if decide (f = lit "repo/a.py") then Ok source_a
                       else if decide (f = lit "repo/bad.py") then Ok source_bad
                       else Raise OSError;
     ast_parse := λ code, if decide (code = source_a)
                          then Ok (Module [foo_one_silent])
                          else Raise SyntaxError;
     relpath := λ f r, drop (S (length r)) f;
     run_process := λ args cwd,
       match cwd with Some _ => Exited 0 log_text | None => Exited 0 [] end;
     read_dot := λ _, Ok graph;
     open_write := λ _, Ok () |}.

(** The row of the report that a run in [world] writes for the class. *)
Definition report_row : csv_row :=
  {| row_metrics := class_entry (lit "a.py") foo_one_silent;
     row_changes := 2; row_lines_added := 2; row_lines_deleted := 1;
     row_nlc := 3 # 2; row_authors := 1; row_fan_in := 0; row_fan_out := 1 |}.

(** The same repository on a machine where [git] is not installed. *)
Definition world_without_git : World :=
  {| os_walk := os_walk world;
     open_read := open_read world;
     ast_parse := ast_parse world;
     relpath := relpath world;
     run_process := λ args cwd,
       match cwd with Some _ => Not_run OSError | None => Exited 0 [] end;
     read_dot := read_dot world;
     open_write := open_write world |}.

(** The same repository where the file is not tracked: [git] exits with 128. *)
Definition world_untracked : World :=
  {| os_walk := os_walk world;
     open_read := open_read world;
     ast_parse := ast_parse world;
     relpath := relpath world;
     run_process := λ args cwd,
       match cwd with Some _ => Exited 128 [] | None => Exited 0 [] end;
     read_dot := read_dot world;
     open_write := open_write world |}.

(** [class Outer:] that holds a nested [class Inner:] and a method. *)
Definition outer_inner : node :=
  ClassDef (lit "Outer") [] []
    [ClassDef (lit "Inner") [] [] [method "m" [ret_stmt (self_dot "x")]] [];
     method "run" [ret_stmt (Name (lit "Inner") ctx_Load)]] [].

(** A module with [Outer] (and [Inner] in it) followed by [Foo]. *)
Definition nested_module : node := Module [outer_inner; foo_sharing].

(** A world whose one source file [a.py] parses to [nested_module]. *)
Definition world_nested : World :=
  {| os_walk := λ r, [(r, [lit "pkg"], [lit "a.py"]);
                      (r ++ lit "/pkg", [], [lit "b.txt"])];
     open_read := λ _, Ok source_a;
     ast_parse := λ _, Ok nested_module;
     relpath := relpath world;
     run_process := run_process world;
     read_dot := read_dot world;
     open_write := open_write world |}.

(** A world where a source file holds a null byte: [ast.parse] raises
    [ValueError]. *)
Definition world_null_byte : World :=
  {| os_walk := os_walk world;
     open_read := λ _, Ok [0%N];
     ast_parse := λ _, Raise ValueError;
     relpath := relpath world;
     run_process := run_process world;
     read_dot := read_dot world;
     open_write := open_write world |}.

(** Two methods named [x], as a property with its setter. *)
Definition property_pair : node :=
  ClassDef (lit "P") [] []
    [method "x" [ret_stmt (self_dot "a")];
     method "x" [Other [self_dot "b"; one]]] [].

(** Two graph nodes with the bare name [Foo]: [a.Foo] with one successor and
    [b.Foo] with two predecessors. *)
Definition graph_collision : DiGraph :=
  {| nodes := [lit "a.Foo"; lit "Bar"; lit "b.Foo"];
     predecessors := λ n, if decide (n = lit "b.Foo")
                          then [lit "a.Foo"; lit "Bar"] else [];
     successors := λ n, if decide (n = lit "a.Foo") then [lit "b.Foo"]
                        else if decide (n = lit "Bar") then [lit "b.Foo"]
                        else [] |}.

(** The repository of [world] with the graph [graph_collision]. *)
Definition world_collision : World :=
  {| os_walk := os_walk world;
     open_read := open_read world;
     ast_parse := ast_parse world;
     relpath := relpath world;
     run_process := run_process world;
     read_dot := λ _, Ok graph_collision;
     open_write := open_write world |}.

(** The repository of [world] where [pyreverse] exits with status 2. *)
Definition world_pyreverse_fails : World :=
  {| os_walk := os_walk world;
     open_read := open_read world;
     ast_parse := ast_parse world;
     relpath := relpath world;
     run_process := λ args cwd,
       match cwd with Some _ => Exited 0 log_text | None => Exited 2 [] end;
     read_dot := read_dot world;
     open_write := open_write world |}.

(** The repository of [world] where the graph file cannot be read. *)
Definition world_no_graph : World :=
  {| os_walk := os_walk world;
     open_read := open_read world;
     ast_parse := ast_parse world;
     relpath := relpath world;
     run_process := run_process world;
     read_dot := λ _, Raise OSError;
     open_write := open_write world |}.

(** The repository of [world] where no source file can be opened. *)
Definition world_unreadable : World :=
  {| os_walk := os_walk world;
     open_read := λ _, Raise OSError;
     ast_parse := ast_parse world;
     relpath := relpath world;
     run_process := run_process world;
     read_dot := read_dot world;
     open_write := open_write world |}.

(** The repository of [world] in a directory that cannot be written. *)
Definition world_read_only : World :=
  {| os_walk := os_walk world;
     open_read := open_read world;
     ast_parse := ast_parse world;
     relpath := relpath world;
     run_process := run_process world;
     read_dot := read_dot world;
     open_write := λ _, Raise OSError |}.

End Example.

(** * Verification *)

(** ** The trace/error monad *)

Section Monad_facts.

Context {A B : Type}.

Lemma bind_unfold (m : M A) (f : A → M B) :
  m ≫= f = match outcome m with
           | Ok a => Run (trace m ++ trace (f a)) (outcome (f a))
           | Raise e => Run (trace m) (Raise e)
           end.
Proof. reflexivity. Qed.

Lemma bind_Ok (m : M A) (f : A → M B) a :
  outcome m = Ok a → m ≫= f = Run (trace m ++ trace (f a)) (outcome (f a)).
Proof. intros H. rewrite bind_unfold, H. reflexivity. Qed.

Lemma bind_Raise (m : M A) (f : A → M B) e :
  outcome m = Raise e → m ≫= f = Run (trace m) (Raise e).
Proof. intros H. rewrite bind_unfold, H. reflexivity. Qed.

Lemma bind_ret_l (a : A) (f : A → M B) : mret a ≫= f = f a.
Proof. rewrite bind_unfold. simpl. destruct (f a); reflexivity. Qed.

Lemma bind_ext (m : M A) (f g : A → M B) :
  (∀ a, f a = g a) → m ≫= f = m ≫= g.
Proof.
  intros H. rewrite !bind_unfold. destruct (outcome m); [|reflexivity].
  rewrite H. reflexivity.
Qed.

Lemma bind_outcome_Ok (m : M A) (f : A → M B) b :
  outcome (m ≫= f) = Ok b →
  ∃ a, outcome m = Ok a ∧ outcome (f a) = Ok b.
Proof.
  rewrite bind_unfold. destruct (outcome m) as [a|e]; simpl; [eauto|discriminate].
Qed.

End Monad_facts.

Lemma bind_assoc {A B C} (m : M A) (f : A → M B) (g : B → M C) :
  (m ≫= f) ≫= g = m ≫= (λ a, f a ≫= g).
Proof.
  rewrite !bind_unfold. destruct (outcome m) as [a|e]; simpl; [|reflexivity].
  rewrite bind_unfold.
  destruct (outcome (f a)); simpl; rewrite ?app_assoc; reflexivity.
Qed.

(** ** Tree walk *)

Lemma node_size_children (n : node) :
  node_size n = S (sum_list_with node_size (iter_child_nodes n)).
Proof.
  destruct n as [body|name bases keywords body decos|name args body decos ret
                 |name args body decos ret|value attr ctx|id ctx|fields];
    simpl; rewrite ?sum_list_with_app; try destruct ret; simpl; lia.
Qed.

(** The fuel [walk] starts with empties the queue: more fuel yields the same
    list, so no node is cut off. *)
Lemma walk_queue_enough (fuel extra : nat) (todo : list node) :
  sum_list_with node_size todo ≤ fuel →
  walk_queue (fuel + extra) todo = walk_queue fuel todo.
Proof.
  revert todo. induction fuel as [|fuel IH]; intros todo Hsize.
  - destruct todo as [|n todo]; [by destruct extra|].
    simpl in Hsize. rewrite node_size_children in Hsize. lia.
  - destruct todo as [|n todo]; [done|]. simpl. f_equal. apply IH.
    simpl in Hsize. rewrite node_size_children in Hsize.
    rewrite sum_list_with_app. lia.
Qed.

Lemma walk_fuel_enough (n : node) (extra : nat) :
  walk_queue (node_size n + extra) [n] = walk n.
Proof. apply walk_queue_enough. simpl. lia. Qed.

(** The walk starts at the root and is closed under children. *)
Lemma walk_root (n : node) : ∃ rest, walk n = n :: rest.
Proof.
  unfold walk. rewrite node_size_children. simpl. eauto.
Qed.

Lemma walk_queue_children (fuel : nat) (todo : list node) (x c : node) :
  sum_list_with node_size todo ≤ fuel →
  x ∈ walk_queue fuel todo → c ∈ iter_child_nodes x →
  c ∈ walk_queue fuel todo.
Proof.
  intros Hfuel Hx Hc.
  enough (H : ∀ fuel todo, sum_list_with node_size todo ≤ fuel →
            (∀ y, y ∈ todo → y ∈ walk_queue fuel todo)
            ∧ (∀ y c, y ∈ walk_queue fuel todo → c ∈ iter_child_nodes y →
                 c ∈ walk_queue fuel todo))
    by (eapply H; eauto).
  clear. induction fuel as [|fuel IH]; intros todo Hsize.
  - destruct todo as [|n todo].
    + split; [done|]. intros y c Hy. by apply elem_of_nil in Hy.
    + simpl in Hsize. rewrite node_size_children in Hsize. lia.
  - destruct todo as [|n todo].
    + split; [done|]. intros y c Hy. by apply elem_of_nil in Hy.
    + simpl. destruct (IH (todo ++ iter_child_nodes n)) as [Hin Hcl].
      { simpl in Hsize. rewrite node_size_children in Hsize.
        rewrite sum_list_with_app. lia. }
      split.
      * intros y [->|Hy]%elem_of_cons; [left|right].
        apply Hin, elem_of_app. by left.
      * intros y c [->|Hy]%elem_of_cons Hc; right.
        -- apply Hin, elem_of_app. by right.
        -- by eapply Hcl.
Qed.

Lemma walk_children (n x c : node) :
  x ∈ walk n → c ∈ iter_child_nodes x → c ∈ walk n.
Proof. apply walk_queue_children. simpl. lia. Qed.

(** ** Command line *)

Section Command_line.

Variable W : World.

(** C2, as the code has it: when the repository path is missing
    ([sys.argv] holds the script name at most), [main] prints the usage
    message and leaves through [sys.exit()] at once, with nothing else done;
    [sys.exit()] without an argument makes the exit status 0. *)
Theorem main_without_arguments (argv : list str) :
  length argv ≤ 1 →
  main W argv = Run [Ev_print usage] (Raise (SystemExit None))
  ∧ exit_status (outcome (main W argv)) = 0%Z.
Proof.
  intros Hlen. unfold main.
  destruct (1 <? length argv) eqn:Hlt.
  - apply Nat.ltb_lt in Hlt. lia.
  - split; reflexivity.
Qed.

End Command_line.

Lemma main_without_arguments_witness :
  length [lit "class_metrics_v6.py"] ≤ 1
  ∧ (main Example.world [lit "class_metrics_v6.py"]
       = Run [Ev_print usage] (Raise (SystemExit None))
     ∧ exit_status (outcome (main Example.world [lit "class_metrics_v6.py"]))
       = 0%Z).
Proof.
  split; [simpl; lia|].
  apply (main_without_arguments Example.world [lit "class_metrics_v6.py"]).
  simpl; lia.
Defined.

(** C2 as stated fails: without the path argument the exit status is not
    different from zero. *)
Lemma usage_exit_status_is_zero :
  ¬ (exit_status (outcome (main Example.world [lit "class_metrics_v6.py"]))
       ≠ 0%Z).
Proof. intros H. apply H. reflexivity. Qed.

(** ** Structural metric extractor: parsing and method enumeration *)

Section Extractor.

Variable W : World.

(** C9: of the failures of [ast.parse] only [SyntaxError] is recovered.  A
    file whose text raises [SyntaxError] yields the empty list of class
    records, and no exception reaches the caller; any other exception of the
    parser ends the extractor with that exception.  Either way nothing but
    the read of the file happens. *)
Theorem only_syntax_errors_are_skipped
    (file_path repo_path code : str) (e : exn) :
  open_read W file_path = Ok code →
  ast_parse W code = Raise e →
  extract_class_metrics W file_path repo_path
  = Run [Ev_read file_path]
        match e with SyntaxError => Ok [] | _ => Raise e end.
Proof.
  intros Hread Hparse. unfold extract_class_metrics.
  rewrite Hread. unfold lift, try_except.
  rewrite !bind_unfold. simpl. rewrite Hparse. destruct e; reflexivity.
Qed.

(** C8: the methods of a class are exactly the [FunctionDef] nodes that are
    elements of the class body, in body order, and [methods] is their number:
    each body statement adds itself when it is a [FunctionDef] and nothing
    otherwise.  A node that is not an element of the body (a function nested
    in a method) or that is another kind of statement is no method. *)
Theorem methods_are_direct_function_definitions (rel_file : str) (cls : node) :
  methods (class_entry rel_file cls) = length (methods_of cls)
  ∧ methods_of cls `sublist_of` def_body cls
  ∧ (∀ n, n ∈ methods_of cls ↔ n ∈ def_body cls ∧ is_FunctionDef n = true)
  ∧ (∀ pre n post, def_body cls = pre ++ n :: post →
       methods_of cls
       = filter (λ n, is_FunctionDef n = true) pre
           ++ (if is_FunctionDef n then [n] else [])
           ++ filter (λ n, is_FunctionDef n = true) post).
Proof.
  split; [reflexivity|]. split; [apply sublist_filter|]. split.
  - intros n. unfold methods_of. rewrite list_elem_of_filter. tauto.
  - intros pre n post Hbody. unfold methods_of. rewrite Hbody. simpl.
    rewrite filter_app. f_equal.
    destruct (is_FunctionDef n) eqn:Hn.
    + rewrite filter_cons_True by done. reflexivity.
    + rewrite filter_cons_False by (rewrite Hn; done). reflexivity.
Qed.

End Extractor.

Lemma only_syntax_errors_are_skipped_witness :
  open_read Example.world (lit "repo/bad.py") = Ok Example.source_bad
  ∧ ast_parse Example.world Example.source_bad = Raise SyntaxError
  ∧ extract_class_metrics Example.world (lit "repo/bad.py") (lit "repo")
    = Run [Ev_read (lit "repo/bad.py")] (Ok []).
Proof.
  split; [reflexivity|]. split; [reflexivity|].
  apply (only_syntax_errors_are_skipped Example.world
           (lit "repo/bad.py") (lit "repo") Example.source_bad SyntaxError);
    reflexivity.
Defined.

(** C9 as stated fails: a file whose text does not parse because it holds a
    null byte ([ast.parse] raises [ValueError], no [SyntaxError]) does not
    yield the empty list; the exception reaches the caller. *)
Lemma null_byte_file_is_not_skipped :
  open_read Example.world_null_byte (lit "repo/a.py") = Ok [0%N]
  ∧ ast_parse Example.world_null_byte [0%N] = Raise ValueError
  ∧ outcome (extract_class_metrics Example.world_null_byte
               (lit "repo/a.py") (lit "repo")) = Raise ValueError
  ∧ outcome (extract_class_metrics Example.world_null_byte
               (lit "repo/a.py") (lit "repo")) ≠ Ok [].
Proof. repeat split; try reflexivity. discriminate. Qed.

(** A file that parses yields the records of its [ClassDef] nodes, in the
    order of the walk. *)
Lemma parsed_file_yields_its_classes (W : World)
    (file_path repo_path code : str) (tree : node) :
  open_read W file_path = Ok code →
  ast_parse W code = Ok tree →
  extract_class_metrics W file_path repo_path
  = Run [Ev_read file_path]
        (Ok (class_entry (relpath W file_path repo_path)
               <$> filter (λ n, is_ClassDef n = true) (walk tree))).
Proof.
  intros Hread Hparse. unfold extract_class_metrics.
  rewrite Hread. unfold lift, try_except.
  rewrite !bind_unfold. simpl. rewrite Hparse. simpl. do 2 f_equal.
  generalize (walk tree) as l. intros l.
  induction l as [|n l IH] using rev_ind; [done|].
  rewrite foldl_snoc, filter_app, fmap_app, IH.
  destruct (is_ClassDef n) eqn:Hn.
  - by rewrite filter_cons_True by done.
  - rewrite filter_cons_False by (rewrite Hn; done). simpl.
    by rewrite app_nil_r.
Qed.

(** A nested function, an assignment and an [async def] are not counted:
    [Example.bar_nested] has three body statements and one method. *)
Lemma bar_nested_has_one_method :
  loc (class_entry [] Example.bar_nested) = 3
  ∧ methods (class_entry [] Example.bar_nested) = 1.
Proof. split; reflexivity. Qed.

(** ** Strings *)

Lemma startswith_spec (s p : str) :
  startswith s p = true ↔ ∃ r, s = p ++ r.
Proof.
  revert s. induction p as [|a p IH]; intros s; simpl.
  - split; [by exists s|by destruct s].
  - destruct s as [|b s].
    + split; [done|]. intros [r Hr]. discriminate.
    + simpl. destruct (decide (a = b)) as [<-|Hab].
      * rewrite IH. split; intros [r Hr]; exists r; simpl in *; congruence.
      * split; [done|]. intros [r Hr]. simpl in Hr. congruence.
Qed.

Lemma split1_from_sep (sep : N) (cur s : str) :
  sep ∈ s → ∃ a b, split1_from sep cur s = [a; b].
Proof.
  revert cur. induction s as [|c s IH]; intros cur Hin.
  - by apply elem_of_nil in Hin.
  - simpl. destruct (decide (c = sep)) as [Hc|Hc]; [eauto|].
    apply elem_of_cons in Hin as [->|Hin]; [done|]. by apply IH.
Qed.

(** ** History miner *)

Section History_miner.

Variable W : World.

(** A line that starts with [Author:] has a part after its first colon, so
    the subscript of line 149 is in range. *)
Lemma author_line_has_identity (line : str) :
  startswith line (lit "Author:") = true →
  ∃ author, index (split1 line 58%N) 1 = mret author.
Proof.
  intros [r ->]%startswith_spec.
  destruct (split1_from_sep 58%N [] (lit "Author:" ++ r)) as (a & b & Hab).
  { apply elem_of_app. left. vm_compute. repeat constructor. }
  exists b. unfold split1, index. rewrite Hab. reflexivity.
Qed.

Lemma scan_line_returns st (line : str) :
  ∃ st', scan_line st line = mret st'.
Proof.
  destruct st as [[a d] au]. unfold scan_line.
  destruct (startswith line (lit "Author:")) eqn:Hauth.
  - destruct (author_line_has_identity line Hauth) as [author ->].
    rewrite bind_ret_l. eauto.
  - repeat match goal with |- context [if ?b then _ else _] => destruct b end;
      eauto.
Qed.

Lemma scan_returns (lines : list str) st :
  ∃ st', for_each lines scan_line st = mret st'.
Proof.
  revert st. induction lines as [|line lines IH]; intros st; simpl; [eauto|].
  destruct (scan_line_returns st line) as [st' ->]. rewrite bind_ret_l. apply IH.
Qed.

(** The reduction of the log text is total: it raises nothing and does
    nothing to the outside. *)
Lemma reduce_log_returns (log_output : str) :
  ∃ st, reduce_log log_output = mret st
        ∧ changes st = count log_output (lit "commit")
        ∧ nlc st = (if 0 <? changes st
                    then Float.round
                           (truediv (lines_added st + lines_deleted st) (changes st)) 2
                    else 0%Q).
Proof.
  unfold reduce_log.
  destruct (scan_returns (splitlines log_output) (0, 0, ∅)) as [[[a d] au] ->].
  rewrite bind_ret_l. eexists. split; [reflexivity|]. split; reflexivity.
Qed.

Lemma check_output_unfold (args : list str) (cwd : str) :
  check_output W args cwd
  = Run [Ev_run args (Some cwd)]
      match run_process W args (Some cwd) with
      | Exited 0 stdout => Ok stdout
      | Exited returncode _ => Raise (CalledProcessError returncode)
      | Not_run e => Raise e
      end.
Proof.
  unfold check_output. rewrite bind_unfold. simpl.
  destruct (run_process W args (Some cwd)) as [[| |] ?|]; reflexivity.
Qed.

(** What [get_class_git_stats] returns, by the fate of the [git] process. *)
Lemma get_class_git_stats_unfold (file_path class_name repo_path : str) :
  let args := git_log_args class_name (relpath W file_path repo_path) in
  get_class_git_stats W file_path class_name repo_path
  = match run_process W args (Some repo_path) with
    | Exited 0 stdout =>
        Run (Ev_run args (Some repo_path) :: trace (reduce_log stdout))
            (outcome (reduce_log stdout))
    | Exited _ _ | Not_run (CalledProcessError _) =>
        Run [Ev_run args (Some repo_path)] (Ok no_history)
    | Not_run e => Run [Ev_run args (Some repo_path)] (Raise e)
    end.
Proof.
  intros args. unfold get_class_git_stats. fold args.
  rewrite check_output_unfold.
  destruct (run_process W args (Some repo_path)) as [[| |] ?|[]]; reflexivity.
Qed.

(** C5, as the code has it: when the [git] process exits with a status other
    than zero (the file is not tracked, the class is not found), the result
    is exactly the zero record and nothing is raised. *)
Theorem failed_query_gives_zero_stats
    (file_path class_name repo_path : str) (returncode : Z) (stdout : str) :
  run_process W (git_log_args class_name (relpath W file_path repo_path))
    (Some repo_path) = Exited returncode stdout →
  returncode ≠ 0%Z →
  outcome (get_class_git_stats W file_path class_name repo_path) = Ok no_history
  ∧ changes no_history = 0 ∧ lines_added no_history = 0
  ∧ lines_deleted no_history = 0 ∧ authors no_history = ∅
  ∧ nlc no_history = 0%Q.
Proof.
  intros Hrun Hrc. split; [|by repeat split].
  rewrite get_class_git_stats_unfold. cbv zeta. rewrite Hrun.
  destruct returncode; [done|reflexivity|reflexivity].
Qed.

(** Every record the history miner returns keeps the invariant. *)
Lemma miner_keeps_nlc_invariant
    (file_path class_name repo_path : str) (st : git_stats) :
  outcome (get_class_git_stats W file_path class_name repo_path) = Ok st →
  Spec.nlc_invariant (changes st) (lines_added st) (lines_deleted st) (nlc st).
Proof.
  rewrite get_class_git_stats_unfold. cbv zeta.
  assert (Hzero : ∀ st', Ok no_history = Ok st' →
            Spec.nlc_invariant (changes st') (lines_added st')
              (lines_deleted st') (nlc st')).
  { intros st' [= <-]. split; simpl; [lia|done]. }
  destruct (run_process W _ _) as [[| |] stdout|e]; simpl; try by apply Hzero.
  - destruct (reduce_log_returns stdout) as (st' & -> & _ & Hnlc).
    simpl. intros [= <-]. rewrite Hnlc. split.
    + intros Hpos. apply Nat.ltb_lt in Hpos. by rewrite Hpos.
    + intros ->. reflexivity.
  - destruct e; simpl; try discriminate. apply Hzero.
Qed.

(** Whenever [git] exits with status zero the miner returns a record. *)
Lemma successful_query_returns
    (file_path class_name repo_path stdout : str) :
  run_process W (git_log_args class_name (relpath W file_path repo_path))
    (Some repo_path) = Exited 0 stdout →
  ∃ st, outcome (get_class_git_stats W file_path class_name repo_path) = Ok st
        ∧ changes st = count stdout (lit "commit").
Proof.
  intros Hrun. rewrite get_class_git_stats_unfold. cbv zeta. rewrite Hrun.
  destruct (reduce_log_returns stdout) as (st & -> & Hch & _). simpl. eauto.
Qed.

End History_miner.

Lemma failed_query_gives_zero_stats_witness :
  run_process Example.world_untracked
    (git_log_args (lit "Foo")
       (relpath Example.world_untracked (lit "repo/a.py") (lit "repo")))
    (Some (lit "repo")) = Exited 128 []
  ∧ 128%Z ≠ 0%Z
  ∧ (outcome (get_class_git_stats Example.world_untracked
                (lit "repo/a.py") (lit "Foo") (lit "repo")) = Ok no_history
     ∧ changes no_history = 0 ∧ lines_added no_history = 0
     ∧ lines_deleted no_history = 0 ∧ authors no_history = ∅
     ∧ nlc no_history = 0%Q).
Proof.
  split; [reflexivity|]. split; [lia|].
  apply (failed_query_gives_zero_stats Example.world_untracked
           (lit "repo/a.py") (lit "Foo") (lit "repo") 128 []);
    [reflexivity|lia].
Defined.

(** C5 as stated fails: where the command cannot be executed ([git] is not
    installed, so [check_output] raises [OSError]), the history query has
    failed and the exception reaches the caller. *)
Lemma unexecutable_query_raises :
  run_process Example.world_without_git
    (git_log_args (lit "Foo")
       (relpath Example.world_without_git (lit "repo/a.py") (lit "repo")))
    (Some (lit "repo")) = Not_run OSError
  ∧ outcome (get_class_git_stats Example.world_without_git
               (lit "repo/a.py") (lit "Foo") (lit "repo")) = Raise OSError.
Proof. split; reflexivity. Qed.

(** The record mined from [Example.log_text]. *)
Lemma log_text_stats :
  outcome (get_class_git_stats Example.world
             (lit "repo/a.py") (lit "Foo") (lit "repo")) = Ok Example.log_stats.
Proof. vm_compute. reflexivity. Qed.

(** ** Dependency graph joiner *)

Section Joiner.

Variable W : World.

(** The last segment of a split holds no separator, and everything before it
    ends with one. *)
Lemma split_from_last (sep : N) (s cur : str) :
  sep ∉ cur →
  ∃ seg pre, last (split_from sep cur s) = Some seg
             ∧ (sep ∉ seg)
             ∧ reverse cur ++ s = pre ++ seg
             ∧ (pre = [] ∨ last pre = Some sep).
Proof.
  revert cur. induction s as [|c s IH]; intros cur Hcur; simpl.
  - exists (reverse cur), []. rewrite app_nil_r.
    split_and!; [done|by rewrite elem_of_reverse|done|by left].
  - destruct (decide (c = sep)) as [->|Hc].
    + destruct (IH [] ltac:(apply not_elem_of_nil)) as (seg & pre & Hl & Hseg & Hs & Hpre).
      exists seg, (reverse cur ++ sep :: pre). split_and!.
      * rewrite last_cons, Hl. done.
      * done.
      * simpl in Hs. rewrite Hs, <- app_assoc. done.
      * right. rewrite last_app, last_cons.
        destruct Hpre as [-> | ->]; done.
    + destruct (IH (c :: cur)) as (seg & pre & Hl & Hseg & Hs & Hpre).
      { intros [?|?]%elem_of_cons; done. }
      exists seg, pre. split_and!; try done.
      rewrite <- Hs, reverse_cons, <- app_assoc. done.
Qed.

(** [clean_name] is the part of the unquoted name after its last dot. *)
Lemma clean_name_is_last_segment (node : str) :
  (46%N ∉ clean_name node)
  ∧ ∃ pre, strip_chars node [34%N] = pre ++ clean_name node
           ∧ (pre = [] ∨ last pre = Some 46%N).
Proof.
  unfold clean_name, split.
  destruct (split_from_last 46%N (strip_chars node [34%N]) [])
    as (seg & pre & -> & Hseg & Hs & Hpre); [apply not_elem_of_nil|].
  simpl. split; [done|]. exists pre. done.
Qed.

Lemma lstrip_by_spec (p : N → bool) (s : str) :
  ∃ k, s = take k s ++ lstrip_by p s
       ∧ Forall (λ c, p c = true) (take k s)
       ∧ (∀ c, head (lstrip_by p s) = Some c → p c = false).
Proof.
  induction s as [|c s (k & Hs & Hall & Hhd)]; simpl.
  - exists 0. by split_and!.
  - destruct (p c) eqn:Hc.
    + exists (S k). simpl. split_and!; [by f_equal|by constructor|done].
    + exists 0. simpl. split_and!; [done|done|]. by intros ? [= <-].
Qed.

Lemma strip_by_spec (p : N → bool) (s : str) :
  ∃ a b, s = a ++ strip_by p s ++ b
         ∧ Forall (λ c, p c = true) a ∧ Forall (λ c, p c = true) b
         ∧ (∀ c, head (strip_by p s) = Some c → p c = false)
         ∧ (∀ c, last (strip_by p s) = Some c → p c = false).
Proof.
  unfold strip_by.
  destruct (lstrip_by_spec p s) as (i & Hi & Halli & Hhdi).
  set (s1 := lstrip_by p s) in *.
  destruct (lstrip_by_spec p (reverse s1)) as (j & Hj & Hallj & Hhdj).
  set (s2 := lstrip_by p (reverse s1)) in *.
  assert (Hs1 : s1 = reverse s2 ++ reverse (take j (reverse s1))).
  { rewrite <- reverse_app, <- Hj, reverse_involutive. done. }
  exists (take i s), (reverse (take j (reverse s1))). split_and!.
  - rewrite <- Hs1. done.
  - done.
  - by apply Forall_reverse.
  - intros c Hhd. apply Hhdi. rewrite Hs1.
    destruct (reverse s2); [done|]. done.
  - intros c Hl. rewrite last_reverse in Hl. by apply Hhdj.
Qed.

(** Stripping removes quote characters at both ends, and only those. *)
Lemma strip_quotes_spec (node : str) :
  ∃ i j, node = replicate i 34%N ++ strip_chars node [34%N] ++ replicate j 34%N
         ∧ head (strip_chars node [34%N]) ≠ Some 34%N
         ∧ last (strip_chars node [34%N]) ≠ Some 34%N.
Proof.
  unfold strip_chars.
  set (p := λ c : N, bool_decide (c ∈ [34%N])).
  assert (Hp : ∀ l, Forall (λ c, p c = true) l → l = replicate (length l) 34%N).
  { induction 1 as [|c l Hc _ IH]; [done|]. simpl.
    apply bool_decide_eq_true, list_elem_of_singleton in Hc. by f_equal. }
  destruct (strip_by_spec p node) as (a & b & Hs & Ha & Hb & Hhd & Hl).
  exists (length a), (length b). split_and!.
  - rewrite <- (Hp a Ha), <- (Hp b Hb). done.
  - intros H. by specialize (Hhd _ H).
  - intros H. by specialize (Hl _ H).
Qed.

(** The table built by the loop of lines 170-174, from any start. *)
Lemma fan_table_lookup (G : DiGraph) (l : list str)
    (m : gmap str (gmap str nat)) (k : str) :
  let step := λ (fan_data : gmap str (gmap str nat)) node,
    <[clean_name node :=
        <[lit "fan_out" := length (successors G node)]>
          {[lit "fan_in" := length (predecessors G node)]}]> fan_data in
  (foldl step m l !! k = m !! k ∧ ∀ node, node ∈ l → clean_name node ≠ k)
  ∨ ∃ node, node ∈ l ∧ clean_name node = k
            ∧ foldl step m l !! k
              = Some (<[lit "fan_out" := length (successors G node)]>
                        {[lit "fan_in" := length (predecessors G node)]}).
Proof.
  intros step. revert m. induction l as [|n l IH] using rev_ind; intros m.
  - left. split; [done|]. intros ? []%elem_of_nil.
  - rewrite foldl_snoc. destruct (decide (clean_name n = k)) as [Hk|Hk].
    + right. exists n. split_and!; [set_solver|done|].
      unfold step at 1. rewrite <- Hk. apply lookup_insert_eq.
    + assert (Hstep : step (foldl step m l) n !! k = foldl step m l !! k)
        by (unfold step at 1; by rewrite lookup_insert_ne).
      rewrite !Hstep.
      destruct (IH m) as [[Hm Hno]|(node & Hin & Hc & Hl)].
      * left. split; [done|]. intros node [?| ->%list_elem_of_singleton]%elem_of_app; auto.
      * right. exists node. split_and!; [set_solver|done|done].
Qed.

Lemma fan_get_entry (fan_data : gmap str (gmap str nat)) (cls : str) (i o : nat) :
  fan_data !! cls = Some (<[lit "fan_out" := o]> {[lit "fan_in" := i]}) →
  fan_get fan_data cls (lit "fan_in") = i
  ∧ fan_get fan_data cls (lit "fan_out") = o.
Proof.
  intros H. unfold fan_get. rewrite H. simpl. split.
  - rewrite lookup_insert_ne by done. by rewrite lookup_singleton_eq.
  - by rewrite lookup_insert_eq.
Qed.

Lemma fan_get_absent (fan_data : gmap str (gmap str nat)) (cls key : str) :
  fan_data !! cls = None → fan_get fan_data cls key = 0.
Proof. intros H. unfold fan_get. rewrite H. simpl. by rewrite lookup_empty. Qed.

(** C7: a node of the graph is entered in the table under its name with the
    quote characters stripped from both ends and cut down to the part after
    the last dot (a node name is quotes, a prefix that is empty or ends with
    a dot, the clean name without a dot, quotes); a class record is joined
    through its bare name; a record whose name no node of the graph
    normalizes to gets [fan_in = 0] and [fan_out = 0], and a record whose
    name some node normalizes to gets the counts of such a node. *)
Theorem fan_join_by_bare_name (dot_file : str) (G : DiGraph) :
  read_dot W dot_file = Ok G →
  ∃ fan_data,
    outcome (compute_fan_in_out W dot_file) = Ok fan_data
    ∧ (∀ node, ∃ i j pre,
         node = replicate i 34%N ++ (pre ++ clean_name node) ++ replicate j 34%N
         ∧ head (pre ++ clean_name node) ≠ Some 34%N
         ∧ last (pre ++ clean_name node) ≠ Some 34%N
         ∧ (pre = [] ∨ last pre = Some 46%N)
         ∧ 46%N ∉ clean_name node)
    ∧ (∀ k, is_Some (fan_data !! k)
            ↔ ∃ node, node ∈ nodes G ∧ clean_name node = k)
    ∧ (∀ r : entry,
         (∀ node, node ∈ nodes G → clean_name node ≠ class r.1) →
         row_fan_in (csv_row_of fan_data r) = 0
         ∧ row_fan_out (csv_row_of fan_data r) = 0)
    ∧ (∀ r : entry,
         (∃ node, node ∈ nodes G ∧ clean_name node = class r.1) →
         ∃ node, node ∈ nodes G ∧ clean_name node = class r.1
           ∧ row_fan_in (csv_row_of fan_data r) = length (predecessors G node)
           ∧ row_fan_out (csv_row_of fan_data r) = length (successors G node)).
Proof.
  intros Hread. unfold compute_fan_in_out. rewrite Hread.
  eexists. split; [reflexivity|]. split.
  { intros node. destruct (strip_quotes_spec node) as (i & j & Hn & Hhd & Hl).
    destruct (clean_name_is_last_segment node) as (Hdot & pre & Hs & Hpre).
    rewrite Hs in Hn, Hhd, Hl. by exists i, j, pre. }
  split_and!.
  - intros k. destruct (fan_table_lookup G (nodes G) ∅ k)
      as [[Hm Hno]|(node & Hin & Hc & Hl)]; cbv zeta in *.
    + rewrite Hm, lookup_empty. split; [by intros []|].
      intros (node & Hin & Hc). by destruct (Hno node Hin).
    + rewrite Hl. split; eauto.
  - intros r Habs. destruct (fan_table_lookup G (nodes G) ∅ (class r.1))
      as [[Hm Hno]|(node & Hin & Hc & Hl)]; cbv zeta in *.
    + rewrite lookup_empty in Hm. simpl. split; by apply fan_get_absent.
    + by destruct (Habs node Hin).
  - intros r (node0 & Hin0 & Hc0).
    destruct (fan_table_lookup G (nodes G) ∅ (class r.1))
      as [[Hm Hno]|(node & Hin & Hc & Hl)]; cbv zeta in *.
    + by destruct (Hno node0 Hin0).
    + exists node. split_and!; [done|done|simpl..];
        by apply fan_get_entry in Hl as [].
Qed.

End Joiner.

Lemma fan_join_by_bare_name_witness :
  read_dot Example.world (lit "classes_repo.dot") = Ok Example.graph
  ∧ ∃ fan_data,
    outcome (compute_fan_in_out Example.world (lit "classes_repo.dot")) = Ok fan_data
    ∧ (∀ node, ∃ i j pre,
         node = replicate i 34%N ++ (pre ++ clean_name node) ++ replicate j 34%N
         ∧ head (pre ++ clean_name node) ≠ Some 34%N
         ∧ last (pre ++ clean_name node) ≠ Some 34%N
         ∧ (pre = [] ∨ last pre = Some 46%N)
         ∧ 46%N ∉ clean_name node)
    ∧ (∀ k, is_Some (fan_data !! k)
            ↔ ∃ node, node ∈ nodes Example.graph ∧ clean_name node = k)
    ∧ (∀ r : entry,
         (∀ node, node ∈ nodes Example.graph → clean_name node ≠ class r.1) →
         row_fan_in (csv_row_of fan_data r) = 0
         ∧ row_fan_out (csv_row_of fan_data r) = 0)
    ∧ (∀ r : entry,
         (∃ node, node ∈ nodes Example.graph ∧ clean_name node = class r.1) →
         ∃ node, node ∈ nodes Example.graph ∧ clean_name node = class r.1
           ∧ row_fan_in (csv_row_of fan_data r)
             = length (predecessors Example.graph node)
           ∧ row_fan_out (csv_row_of fan_data r)
             = length (successors Example.graph node)).
Proof.
  split; [reflexivity|].
  apply (fan_join_by_bare_name Example.world (lit "classes_repo.dot") Example.graph).
  reflexivity.
Defined.

(** The quoted node [pkg.a.Foo] is found under [Foo]. *)
Lemma clean_name_example :
  clean_name (Example.quoted "pkg.a.Foo") = lit "Foo".
Proof. reflexivity. Qed.

(** ** The run of [main] *)

Section Main_flow.

Variable W : World.

(** The events of the first part of a bind are events of the whole, and so
    are the events of the second part when the first part returns. *)
Lemma elem_of_trace_bind_l {A B} (m : M A) (f : A → M B) ev :
  ev ∈ trace m → ev ∈ trace (m ≫= f).
Proof.
  intros H. rewrite bind_unfold. destruct (outcome m); simpl; [|done].
  apply elem_of_app. by left.
Qed.

Lemma elem_of_trace_bind_r {A B} (m : M A) (f : A → M B) a ev :
  outcome m = Ok a → ev ∈ trace (f a) → ev ∈ trace (m ≫= f).
Proof.
  intros Ha H. rewrite (bind_Ok _ _ _ Ha). simpl. apply elem_of_app. by right.
Qed.

Lemma quiet_bind {A B} (m : M A) (f : A → M B) :
  Forall (λ ev, writes_csv ev = false) (trace m) →
  (∀ a, Forall (λ ev, writes_csv ev = false) (trace (f a))) →
  Forall (λ ev, writes_csv ev = false) (trace (m ≫= f)).
Proof.
  intros Hm Hf. rewrite bind_unfold. destruct (outcome m); simpl; [|done].
  apply Forall_app. split; [done|apply Hf].
Qed.

Lemma quiet_for_each {A St} (xs : list A) (body : St → A → M St) (s : St) :
  (∀ s x, Forall (λ ev, writes_csv ev = false) (trace (body s x))) →
  Forall (λ ev, writes_csv ev = false) (trace (for_each xs body s)).
Proof.
  intros Hbody. revert s. induction xs as [|x xs IH]; intros s; simpl.
  - constructor.
  - apply quiet_bind; [apply Hbody|apply IH].
Qed.

Lemma quiet_try_except {A} (m handler : M A) (catches : exn → bool) :
  Forall (λ ev, writes_csv ev = false) (trace m) →
  Forall (λ ev, writes_csv ev = false) (trace handler) →
  Forall (λ ev, writes_csv ev = false) (trace (try_except m catches handler)).
Proof.
  intros Hm Hh. unfold try_except. destruct (outcome m); [done|].
  destruct (catches e); [|done]. simpl. by apply Forall_app.
Qed.

(** Extraction and history mining leave the report file alone. *)
Lemma quiet_extract_class_metrics (file_path repo_path : str) :
  Forall (λ ev, writes_csv ev = false)
         (trace (extract_class_metrics W file_path repo_path)).
Proof.
  unfold extract_class_metrics.
  apply quiet_bind; [by repeat constructor|intros _].
  apply quiet_bind; [by constructor|intros code].
  apply quiet_bind; [|intros [tree|]; constructor].
  apply quiet_try_except; by constructor.
Qed.

Lemma quiet_get_class_git_stats (file_path class_name repo_path : str) :
  Forall (λ ev, writes_csv ev = false)
         (trace (get_class_git_stats W file_path class_name repo_path)).
Proof.
  rewrite get_class_git_stats_unfold. cbv zeta.
  destruct (run_process W _ _) as [[| |] stdout|e]; simpl.
  - destruct (reduce_log_returns stdout) as (st & -> & _). by repeat constructor.
  - by repeat constructor.
  - by repeat constructor.
  - destruct e; by repeat constructor.
Qed.

(** A property that every iteration keeps holds after the loop. *)
Lemma for_each_invariant {A St} (P : St → Prop) (xs : list A)
    (body : St → A → M St) (s s' : St) :
  P s →
  (∀ s x s', P s → outcome (body s x) = Ok s' → P s') →
  outcome (for_each xs body s) = Ok s' → P s'.
Proof.
  intros Hs Hbody. revert s Hs. induction xs as [|x xs IH]; intros s Hs Hout.
  - simpl in Hout. by injection Hout as <-.
  - simpl in Hout. apply bind_outcome_Ok in Hout as (s1 & H1 & H2).
    eapply IH; [eapply Hbody; eassumption|done].
Qed.

(** Everything [main] does before it reads [OUTPUT_FILE]: lines 218-241. *)
Lemma main_body_export_last (repo_path : str) :
  ∃ before : M (list entry * gmap str (gmap str nat)),
    (∀ OUTPUT_FILE,
       main_body W repo_path OUTPUT_FILE
       = before ≫= λ '(results, fan_data),
           output_file ← load_local (lit "OUTPUT_FILE") OUTPUT_FILE;
           export_to_csv W results fan_data (output_file ++ lit ".csv"))
    ∧ (∀ x, outcome before = Ok x →
         Ev_walk repo_path ∈ trace before
         ∧ Ev_run [lit "pyreverse"; lit "-o"; lit "dot"; lit "-p";
                   repo_path; repo_path] None ∈ trace before
         ∧ Ev_read_dot (lit "classes_" ++ replace_char repo_path 47%N 95%N
                          ++ lit ".dot") ∈ trace before)
    ∧ Forall (λ ev, writes_csv ev = false) (trace before)
    ∧ (∀ results fan_data, outcome before = Ok (results, fan_data) →
         Forall (λ r : entry,
                   Spec.nlc_invariant (changes r.2) (lines_added r.2)
                     (lines_deleted r.2) (nlc r.2))
                results).
Proof.
  eexists (files ← get_py_files W repo_path;
  emit (Ev_print (lit "Computing the first set of class metrics..."));;
  results ←
    for_each files
      (λ results file_path,
         classes ← extract_class_metrics W file_path repo_path;
         for_each classes
           (λ results cls,
              stats ← get_class_git_stats W file_path (class cls) repo_path;
              mret (results ++ [(cls, stats)]))
           results)
      [];
  run_pyreverse W repo_path repo_path;;
  let project_name := replace_char repo_path 47%N 95%N in
  let dot_file_path := lit "classes_" ++ project_name ++ lit ".dot" in
  fan_data ← compute_fan_in_out W dot_file_path;
  emit Ev_print_header;;
  emit (Ev_print (replicate 150 45%N));;
  for_each results
    (λ _ r,
       let fan_in := fan_get fan_data (class r.1) (lit "fan_in") in
       let fan_out := fan_get fan_data (class r.1) (lit "fan_out") in
       emit (Ev_print_row r fan_in fan_out))
    ();;
  mret (results, fan_data)).
  split_and!.
  - intros O. unfold main_body. symmetry.
    repeat (rewrite bind_assoc; apply bind_ext; intros ?).
    cbv zeta.
    repeat (rewrite bind_assoc; apply bind_ext; intros ?).
    rewrite bind_ret_l. reflexivity.
  - intros x Hx.
    apply bind_outcome_Ok in Hx as (files & Hfiles & Hx).
    apply bind_outcome_Ok in Hx as ([] & Hemit & Hx).
    apply bind_outcome_Ok in Hx as (results & Hres & Hx).
    apply bind_outcome_Ok in Hx as ([] & Hpy & Hx).
    split_and!.
    + apply elem_of_trace_bind_l. unfold get_py_files.
      apply elem_of_trace_bind_l. simpl. set_solver.
    + do 3 (eapply elem_of_trace_bind_r; [eassumption|]).
      apply elem_of_trace_bind_l. unfold run_pyreverse, subprocess_run_check.
      apply elem_of_trace_bind_r with (a := ()); [done|].
      apply elem_of_trace_bind_l. simpl. set_solver.
    + do 4 (eapply elem_of_trace_bind_r; [eassumption|]).
      apply elem_of_trace_bind_l. unfold compute_fan_in_out.
      apply elem_of_trace_bind_r with (a := ()); [done|].
      apply elem_of_trace_bind_l. simpl. set_solver.
  - apply quiet_bind; [by repeat constructor|intros files].
    apply quiet_bind; [by repeat constructor|intros _].
    apply quiet_bind.
    { apply quiet_for_each. intros results file_path.
      apply quiet_bind; [apply quiet_extract_class_metrics|intros classes].
      apply quiet_for_each. intros results' cls.
      apply quiet_bind; [apply quiet_get_class_git_stats|intros stats].
      constructor. }
    intros results.
    apply quiet_bind.
    { unfold run_pyreverse, subprocess_run_check.
      apply quiet_bind; [by repeat constructor|intros _].
      apply quiet_bind; [by repeat constructor|intros _].
      destruct (run_process W _ None) as [[| |] ?|]; constructor. }
    intros _. cbv zeta.
    apply quiet_bind.
    { unfold compute_fan_in_out.
      apply quiet_bind; [by repeat constructor|intros _].
      apply quiet_bind; [by repeat constructor|intros _].
      apply quiet_bind; [by constructor|intros G]. constructor. }
    intros fan_data.
    apply quiet_bind; [by repeat constructor|intros _].
    apply quiet_bind; [by repeat constructor|intros _].
    apply quiet_bind; [|intros _; constructor].
    apply quiet_for_each. intros _ r. by repeat constructor.
  - intros results fan_data Hx.
    apply bind_outcome_Ok in Hx as (files & _ & Hx).
    apply bind_outcome_Ok in Hx as ([] & _ & Hx).
    apply bind_outcome_Ok in Hx as (results' & Hres & Hx).
    apply bind_outcome_Ok in Hx as ([] & _ & Hx). cbv zeta in Hx.
    apply bind_outcome_Ok in Hx as (fan_data' & _ & Hx).
    apply bind_outcome_Ok in Hx as ([] & _ & Hx).
    apply bind_outcome_Ok in Hx as ([] & _ & Hx).
    apply bind_outcome_Ok in Hx as ([] & _ & Hx).
    simpl in Hx. injection Hx as <- <-.
    revert Hres. apply for_each_invariant; [constructor|].
    intros rs file_path rs' Hrs Hbody.
    apply bind_outcome_Ok in Hbody as (classes & _ & Hbody).
    revert Hbody. apply for_each_invariant; [done|].
    intros rs1 cls rs2 Hrs1 Hstep.
    apply bind_outcome_Ok in Hstep as (stats & Hstats & Hstep).
    simpl in Hstep. injection Hstep as <-.
    apply Forall_app. split; [done|]. constructor; [|constructor]. simpl.
    by eapply miner_keeps_nlc_invariant.
Qed.

Lemma main_one_argument (prog repo_path : str) :
  main W [prog; repo_path] = main_body W repo_path None.
Proof.
  unfold main.
  change (index [prog; repo_path] 1) with (mret repo_path : M str).
  change (1 <? length [prog; repo_path]) with true.
  change (2 <? length [prog; repo_path]) with false.
  cbv iota. rewrite !bind_ret_l. reflexivity.
Qed.

Lemma main_more_arguments (prog repo_path out : str) (rest : list str) :
  main W (prog :: repo_path :: out :: rest) = main_body W repo_path (Some out).
Proof.
  unfold main.
  change (index (prog :: repo_path :: out :: rest) 1)
    with (mret repo_path : M str).
  change (Some <$> index (prog :: repo_path :: out :: rest) 2)
    with (mret (Some out) : M (option str)).
  change (1 <? length (prog :: repo_path :: out :: rest)) with true.
  change (2 <? length (prog :: repo_path :: out :: rest)) with true.
  cbv iota. rewrite !bind_ret_l. reflexivity.
Qed.

Lemma main_two_arguments (prog repo_path out : str) :
  main W [prog; repo_path; out] = main_body W repo_path (Some out).
Proof. apply main_more_arguments. Qed.

(** [main] by the number of arguments. *)
Lemma main_unfold (argv : list str) :
  main W argv
  = match argv with
    | _ :: repo_path :: rest => main_body W repo_path (head rest)
    | _ => Run [Ev_print usage] (Raise (SystemExit None))
    end.
Proof.
  destruct argv as [|prog [|repo_path [|out rest]]]; [done|done| |].
  - apply main_one_argument.
  - apply main_more_arguments.
Qed.

(** The only report file of a run is the one [export_to_csv] writes, with a
    row for each entry of [results], and the entries keep the invariant. *)
Lemma report_rows (argv : list str) (output_file : str) (rows : list csv_row) :
  Ev_csv output_file rows ∈ trace (main W argv) →
  ∃ (results : list entry) (fan_data : gmap str (gmap str nat)),
    rows = csv_row_of fan_data <$> results
    ∧ Forall (λ r : entry,
                Spec.nlc_invariant (changes r.2) (lines_added r.2)
                  (lines_deleted r.2) (nlc r.2))
             results.
Proof.
  rewrite main_unfold.
  destruct argv as [|prog [|repo_path rest]];
    [by intros [=]%list_elem_of_singleton..|].
  destruct (main_body_export_last repo_path)
    as (before & Hsplit & _ & Hquiet & Hinv).
  rewrite Hsplit, bind_unfold.
  assert (Hnot : Ev_csv output_file rows ∉ trace before).
  { intros Hin. by apply (proj1 (Forall_forall _ _) Hquiet) in Hin. }
  destruct (outcome before) as [[results fan_data]|e] eqn:Hbefore; [|done].
  cbn [trace]. intros [Hin|Hin]%elem_of_app; [done|].
  exists results, fan_data. split; [|exact (Hinv _ _ eq_refl)].
  destruct (head rest) as [out|]; [|by apply elem_of_nil in Hin].
  change (load_local (lit "OUTPUT_FILE") (Some out)) with (mret out : M str) in Hin.
  rewrite bind_ret_l in Hin. unfold export_to_csv in Hin.
  rewrite bind_unfold in Hin.
  destruct (outcome (lift (open_write W (out ++ lit ".csv")))) as [[]|e];
    simpl in Hin; [|by apply elem_of_nil in Hin].
  apply elem_of_cons in Hin as [[= _ ->]|Hin]; [done|].
  by apply list_elem_of_singleton in Hin.
Qed.

(** C6: every class record of the report has
    [nlc = round((lines_added + lines_deleted) / changes, 2)] when its change
    count is positive, and [nlc = 0] when its change count is 0. *)
Theorem every_record_has_rounded_average_nlc
    (argv : list str) (output_file : str) (rows : list csv_row) (row : csv_row) :
  Ev_csv output_file rows ∈ trace (main W argv) →
  row ∈ rows →
  (0 < row_changes row →
     row_nlc row
     = Float.round
         (truediv (row_lines_added row + row_lines_deleted row)
                  (row_changes row)) 2)
  ∧ (row_changes row = 0 → row_nlc row = 0%Q).
Proof.
  intros (results & fan_data & -> & Hinv)%report_rows Hrow.
  apply list_elem_of_fmap in Hrow as (r & -> & Hr).
  exact (proj1 (Forall_forall _ _) Hinv r Hr).
Qed.

(** C10: with the repository path as the only argument [main] does not stop
    at the usage test.  Whenever the run with an output name [out] completes,
    the run without it does the very same things in the same order (the walk
    of the repository, the extraction and the history queries, [pyreverse],
    the read of the graph, the table), writes no report file, and then raises
    [UnboundLocalError] for [OUTPUT_FILE], where the other run goes on to
    write the CSV file. *)
Theorem missing_output_name_fails_at_export (prog repo_path out : str) :
  outcome (main W [prog; repo_path; out]) = Ok () →
  ∃ tr rows,
    main W [prog; repo_path; out]
    = Run (tr ++ [Ev_csv (out ++ lit ".csv") rows;
                  Ev_print ([10; 128193]%N ++ lit " CSV export complete: "
                              ++ (out ++ lit ".csv"))])
          (Ok ())
    ∧ main W [prog; repo_path]
      = Run tr (Raise (UnboundLocalError (lit "OUTPUT_FILE")))
    ∧ Ev_walk repo_path ∈ tr
    ∧ Ev_run [lit "pyreverse"; lit "-o"; lit "dot"; lit "-p";
              repo_path; repo_path] None ∈ tr
    ∧ Ev_read_dot (lit "classes_" ++ replace_char repo_path 47%N 95%N
                     ++ lit ".dot") ∈ tr
    ∧ Forall (λ ev, writes_csv ev = false) tr.
Proof.
  rewrite main_one_argument, main_two_arguments.
  destruct (main_body_export_last repo_path)
    as (before & Hsplit & Hsteps & Hquiet & _).
  rewrite !Hsplit. intros Hok.
  apply bind_outcome_Ok in Hok as ([results fan_data] & Hbefore & Hok).
  apply bind_outcome_Ok in Hok as (f & [= <-] & Hok).
  apply bind_outcome_Ok in Hok as ([] & Hopen & _).
  destruct (Hsteps _ Hbefore) as (Hwalk & Hpy & Hdot).
  exists (trace before), (csv_row_of fan_data <$> results). split_and!; try done.
  - rewrite (bind_Ok _ _ _ Hbefore).
    change (load_local (lit "OUTPUT_FILE") (Some out)) with (mret out : M str).
    rewrite bind_ret_l. unfold export_to_csv.
    rewrite (bind_Ok _ _ _ Hopen). reflexivity.
  - rewrite (bind_Ok _ _ _ Hbefore). simpl. rewrite app_nil_r. reflexivity.
Qed.

(** With one argument the run never completes. *)
Lemma one_argument_never_completes (prog repo_path : str) :
  outcome (main W [prog; repo_path]) ≠ Ok ().
Proof.
  rewrite main_one_argument.
  destruct (main_body_export_last repo_path) as (before & Hsplit & _).
  rewrite Hsplit. intros Hok.
  apply bind_outcome_Ok in Hok as ([results fan_data] & _ & Hok).
  by apply bind_outcome_Ok in Hok as (f & ? & _).
Qed.

End Main_flow.

Lemma every_record_has_rounded_average_nlc_witness :
  Ev_csv (lit "out.csv") [Example.report_row]
    ∈ trace (main Example.world
               [lit "class_metrics_v6.py"; lit "repo"; lit "out"])
  ∧ Example.report_row ∈ [Example.report_row]
  ∧ ((0 < row_changes Example.report_row →
        row_nlc Example.report_row
        = Float.round
            (truediv (row_lines_added Example.report_row
                        + row_lines_deleted Example.report_row)
                     (row_changes Example.report_row)) 2)
     ∧ (row_changes Example.report_row = 0 → row_nlc Example.report_row = 0%Q)).
Proof.
  assert (Hcsv : Ev_csv (lit "out.csv") [Example.report_row]
            ∈ trace (main Example.world
                       [lit "class_metrics_v6.py"; lit "repo"; lit "out"])).
  { apply (list_elem_of_lookup_2 _ 12). vm_compute. reflexivity. }
  assert (Hrow : Example.report_row ∈ [Example.report_row]) by left.
  split; [exact Hcsv|]. split; [exact Hrow|].
  exact (every_record_has_rounded_average_nlc Example.world _ _ _ _ Hcsv Hrow).
Defined.

Lemma missing_output_name_fails_at_export_witness :
  outcome (main Example.world [lit "class_metrics_v6.py"; lit "repo"; lit "out"])
    = Ok ()
  ∧ ∃ tr rows,
    main Example.world [lit "class_metrics_v6.py"; lit "repo"; lit "out"]
    = Run (tr ++ [Ev_csv (lit "out" ++ lit ".csv") rows;
                  Ev_print ([10; 128193]%N ++ lit " CSV export complete: "
                              ++ (lit "out" ++ lit ".csv"))])
          (Ok ())
    ∧ main Example.world [lit "class_metrics_v6.py"; lit "repo"]
      = Run tr (Raise (UnboundLocalError (lit "OUTPUT_FILE")))
    ∧ Ev_walk (lit "repo") ∈ tr
    ∧ Ev_run [lit "pyreverse"; lit "-o"; lit "dot"; lit "-p";
              lit "repo"; lit "repo"] None ∈ tr
    ∧ Ev_read_dot (lit "classes_" ++ replace_char (lit "repo") 47%N 95%N
                     ++ lit ".dot") ∈ tr
    ∧ Forall (λ ev, writes_csv ev = false) tr.
Proof.
  split; [vm_compute; reflexivity|].
  apply (missing_output_name_fails_at_export Example.world
           (lit "class_metrics_v6.py") (lit "repo") (lit "out")).
  vm_compute; reflexivity.
Defined.


(** ** Cohesion metrics at concrete classes *)

(** C1 at [Example.foo_one_silent] (two methods, [b] reads no attribute): the
    dictionary of attribute sets has the one key [a], the method [b] is
    absent from it and not entered with an empty set, so the loops run over
    no pair at all and the denominator of TCC is 0, where the two methods
    make [2 * (2 - 1) / 2 = 1] pair. *)
Theorem silent_method_is_left_out_of_the_pairs :
  let cls := Example.foo_one_silent in
  let attributes := collect_attributes (methods_of cls) in
  methods (class_entry [] cls) = 2
  ∧ attributes = [(lit "a", {[lit "x"]})]
  ∧ (tcc_counts attributes).2 = 0
  ∧ (lcom_counts attributes).1 + (lcom_counts attributes).2 = 0
  ∧ Spec.method_attrs <$> methods_of cls = [{[lit "x"]}; ∅]
  ∧ Spec.total cls = 1
  ∧ 2 * (2 - 1) / 2 = 1.
Proof. vm_compute. repeat split; reflexivity. Qed.

(** C3 at [Example.foo_one_silent]: the class has exactly two methods and
    they share no instance attribute, yet its TCC is 1.0 and not 0.0; as the
    specification words the metric it is 0.0. *)
Theorem two_methods_sharing_nothing_get_tcc_one :
  let cls := Example.foo_one_silent in
  methods (class_entry [] cls) = 2
  ∧ Spec.connected cls = 0
  ∧ tcc (class_entry [] cls) = 1%Q
  ∧ Spec.tcc cls = 0%Q.
Proof. vm_compute. repeat split; reflexivity. Qed.

(** C4 at [Example.foo_one_silent]: the one pair of methods has disjoint
    attribute sets and no pair shares an attribute, so LCOM is to be
    [1 - 0 = 1]; the code yields 0. *)
Theorem disjoint_pair_with_silent_method_is_not_counted :
  let cls := Example.foo_one_silent in
  Spec.disjoint cls = 1
  ∧ Spec.connected cls = 0
  ∧ Spec.lcom cls = 1%Z
  ∧ lcom (class_entry [] cls) = 0%Z.
Proof. vm_compute. repeat split; reflexivity. Qed.

(** The two scenarios of the specification, where every method reads an
    attribute: code and specification agree. *)
Lemma scenario_sharing :
  lcom (class_entry [] Example.foo_sharing) = 0%Z
  ∧ tcc (class_entry [] Example.foo_sharing) = 1%Q
  ∧ Spec.lcom Example.foo_sharing = 0%Z
  ∧ Spec.tcc Example.foo_sharing = 1%Q.
Proof. vm_compute. repeat split; reflexivity. Qed.

Lemma scenario_disjoint :
  lcom (class_entry [] Example.foo_disjoint) = 1%Z
  ∧ tcc (class_entry [] Example.foo_disjoint) = 0%Q
  ∧ Spec.lcom Example.foo_disjoint = 1%Z
  ∧ Spec.tcc Example.foo_disjoint = 0%Q.
Proof. vm_compute. repeat split; reflexivity. Qed.

(** ** The pair loops *)

Section Pair_loops.

Variable attributes : attr_dict.

Lemma tcc_step_sharing (i j connected total : nat) :
  tcc_step attributes i (connected, total) j
  = if sharing attributes (i, j) then (S connected, S total)
    else (connected, S total).
Proof.
  unfold tcc_step, sharing. simpl. by destruct (pair_sets attributes i j).
Qed.

Lemma lcom_step_sharing (i j no_shared shared : nat) :
  lcom_step attributes i (no_shared, shared) j
  = if sharing attributes (i, j) then (no_shared, S shared)
    else (S no_shared, shared).
Proof.
  unfold lcom_step, sharing. simpl. by destruct (pair_sets attributes i j).
Qed.

Lemma tcc_inner_loop (i : nat) (js : list nat) (connected total : nat) :
  foldl (tcc_step attributes i) (connected, total) js
  = (connected
     + length (filter (λ p, sharing attributes p = true) (pair i <$> js)),
     total + length (pair i <$> js)).
Proof.
  revert connected total. induction js as [|j js IH]; intros connected total.
  - simpl. f_equal; lia.
  - change (foldl (tcc_step attributes i) (connected, total) (j :: js))
      with (foldl (tcc_step attributes i)
              (tcc_step attributes i (connected, total) j) js).
    rewrite tcc_step_sharing, fmap_cons.
    destruct (sharing attributes (i, j)) eqn:Hshare; rewrite IH.
    + rewrite filter_cons_True by done. simpl. f_equal; lia.
    + rewrite filter_cons_False by (rewrite Hshare; done). simpl. f_equal; lia.
Qed.

Lemma lcom_inner_loop (i : nat) (js : list nat) (no_shared shared : nat) :
  foldl (lcom_step attributes i) (no_shared, shared) js
  = (no_shared
     + length (filter (λ p, sharing attributes p = false) (pair i <$> js)),
     shared
     + length (filter (λ p, sharing attributes p = true) (pair i <$> js))).
Proof.
  revert no_shared shared. induction js as [|j js IH]; intros no_shared shared.
  - simpl. f_equal; lia.
  - change (foldl (lcom_step attributes i) (no_shared, shared) (j :: js))
      with (foldl (lcom_step attributes i)
              (lcom_step attributes i (no_shared, shared) j) js).
    rewrite lcom_step_sharing, fmap_cons.
    destruct (sharing attributes (i, j)) eqn:Hshare; rewrite IH.
    + rewrite filter_cons_False by (rewrite Hshare; done).
      rewrite filter_cons_True by done. simpl. f_equal; lia.
    + rewrite filter_cons_True by done.
      rewrite filter_cons_False by (rewrite Hshare; done). simpl. f_equal; lia.
Qed.

(** The loops of lines 96-104 count the visited pairs and, among them, those
    whose sets meet. *)
Lemma tcc_counts_pairs :
  let pairs := index_pairs (length attributes) in
  tcc_counts attributes
  = (length (filter (λ p, sharing attributes p = true) pairs), length pairs).
Proof.
  unfold tcc_counts, index_pairs. rewrite length_fmap.
  generalize (length attributes) as n. intros n.
  enough (H : ∀ ixs connected total,
    foldl (λ acc i, foldl (tcc_step attributes i) acc (range (i + 1) n))
          (connected, total) ixs
    = (connected + length (filter (λ p, sharing attributes p = true)
                             (ixs ≫= λ i, pair i <$> range (i + 1) n)),
       total + length (ixs ≫= λ i, pair i <$> range (i + 1) n)))
    by apply (H _ 0 0).
  induction ixs as [|i ixs IH]; intros connected total.
  - simpl. f_equal; lia.
  - simpl foldl. rewrite tcc_inner_loop, IH, bind_cons, filter_app, !length_app.
    f_equal; lia.
Qed.

(** The loops of lines 81-90 visit the same pairs. *)
Lemma lcom_counts_pairs :
  let pairs := index_pairs (length attributes) in
  lcom_counts attributes
  = (length (filter (λ p, sharing attributes p = false) pairs),
     length (filter (λ p, sharing attributes p = true) pairs)).
Proof.
  unfold lcom_counts, index_pairs. rewrite length_fmap.
  generalize (length attributes) as n. intros n.
  enough (H : ∀ ixs no_shared shared,
    foldl (λ acc i, foldl (lcom_step attributes i) acc (range (i + 1) n))
          (no_shared, shared) ixs
    = (no_shared + length (filter (λ p, sharing attributes p = false)
                             (ixs ≫= λ i, pair i <$> range (i + 1) n)),
       shared + length (filter (λ p, sharing attributes p = true)
                          (ixs ≫= λ i, pair i <$> range (i + 1) n))))
    by apply (H _ 0 0).
  induction ixs as [|i ixs IH]; intros no_shared shared.
  - simpl. f_equal; lia.
  - simpl foldl. rewrite lcom_inner_loop, IH, bind_cons, !filter_app, !length_app.
    f_equal; lia.
Qed.

End Pair_loops.

(** There are [n (n - 1) / 2] index pairs. *)
Lemma index_pairs_length (n : nat) :
  2 * length (index_pairs n) = n * (n - 1).
Proof.
  unfold index_pairs, range. rewrite Nat.sub_0_r.
  enough (H : ∀ k a,
    2 * length (seq a k ≫= λ i, pair i <$> seq (i + 1) (a + k - (i + 1)))
    = k * (k - 1)) by apply (H n 0).
  induction k as [|k IH]; intros a; [done|].
  simpl seq. rewrite bind_cons, length_app, length_fmap, length_seq.
  replace (a + S k) with (S a + k) by lia. rewrite Nat.mul_add_distr_l, IH.
  destruct k; simpl; lia.
Qed.

Lemma index_pairs_total (n : nat) : length (index_pairs n) = n * (n - 1) / 2.
Proof.
  rewrite <- index_pairs_length, Nat.mul_comm, Nat.div_mul; done.
Qed.

Lemma index_pairs_bound (n i j : nat) : (i, j) ∈ index_pairs n → i < j < n.
Proof.
  unfold index_pairs, range. intros (i' & Hj & Hi)%list_elem_of_bind.
  apply list_elem_of_fmap in Hj as (j' & [= -> ->] & Hj).
  apply elem_of_seq in Hj. apply elem_of_seq in Hi. lia.
Qed.

(** ** The dictionary of attribute sets *)

Lemma dict_add_fresh (d : attr_dict) (k a : str) :
  k ∉ d.*1 → dict_add d k a = d ++ [(k, {[a]})].
Proof.
  induction d as [|[k' v] d IH]; intros Hk; [done|]. simpl in *.
  apply not_elem_of_cons in Hk as [Hne Hk].
  destruct (decide (k' = k)) as [->|_]; [done|]. by rewrite IH.
Qed.

Lemma dict_add_last (d : attr_dict) (k a : str) (v : gset str) :
  k ∉ d.*1 → dict_add (d ++ [(k, v)]) k a = d ++ [(k, {[a]} ∪ v)].
Proof.
  induction d as [|[k' v'] d IH]; intros Hk; simpl in *.
  - by destruct (decide (k = k)).
  - apply not_elem_of_cons in Hk as [Hne Hk].
    destruct (decide (k' = k)) as [->|_]; [done|]. by rewrite IH.
Qed.

(** A key is added at most once, so the keys stay distinct; and adding never
    removes a key. *)
Lemma dict_add_keys (d : attr_dict) (k a : str) :
  (dict_add d k a).*1 = if decide (k ∈ d.*1) then d.*1 else d.*1 ++ [k].
Proof.
  induction d as [|[k' v] d IH]; [done|]. cbn [dict_add].
  destruct (decide (k' = k)) as [->|Hne]; rewrite !fmap_cons; cbn [fst].
  - rewrite decide_True by left. done.
  - rewrite IH. destruct (decide (k ∈ d.*1)) as [Hin|Hin].
    + rewrite decide_True by (by right). done.
    + rewrite decide_False; [done|].
      intros [?|?]%elem_of_cons; [congruence|done].
Qed.

Lemma dict_add_NoDup (d : attr_dict) (k a : str) :
  NoDup d.*1 → NoDup (dict_add d k a).*1.
Proof.
  intros Hd. rewrite dict_add_keys. case_decide; [done|].
  apply NoDup_app. split_and!; [done| |apply NoDup_singleton].
  intros x Hx ->%list_elem_of_singleton. done.
Qed.

(** Lines 74-77 add the attributes that [walk] meets, one after the other. *)
Lemma collect_method_fold (d : attr_dict) (method : node) :
  collect_method d method
  = foldl (λ d attr, dict_add d (def_name method) attr) d
          (omap self_attr (walk method)).
Proof.
  unfold collect_method. generalize (walk method) as l. intros l. revert d.
  induction l as [|n l IH]; intros d; [done|]. simpl.
  destruct (self_attr n); simpl; apply IH.
Qed.

Lemma add_all_last (d : attr_dict) (k : str) (attrs : list str) (v : gset str) :
  k ∉ d.*1 →
  foldl (λ d attr, dict_add d k attr) (d ++ [(k, v)]) attrs
  = d ++ [(k, list_to_set attrs ∪ v)].
Proof.
  intros Hk. revert v. induction attrs as [|a attrs IH]; intros v; simpl.
  - by rewrite (left_id_L ∅ (∪)).
  - rewrite dict_add_last, IH by done. do 2 f_equal. f_equal. set_solver.
Qed.

(** A method whose name is new and that reads an attribute is appended with
    the set of its attributes; a method that reads none changes nothing. *)
Lemma collect_method_fresh (d : attr_dict) (method : node) :
  def_name method ∉ d.*1 →
  Spec.method_attrs method ≠ ∅ →
  collect_method d method
  = d ++ [(def_name method, Spec.method_attrs method)].
Proof.
  intros Hk Hne. rewrite collect_method_fold. unfold Spec.method_attrs in *.
  destruct (omap self_attr (walk method)) as [|a attrs]; [done|].
  simpl foldl. rewrite dict_add_fresh, add_all_last by done.
  do 2 f_equal. f_equal. set_solver.
Qed.

Lemma collect_method_silent (d : attr_dict) (method : node) :
  Spec.method_attrs method = ∅ → collect_method d method = d.
Proof.
  intros He. rewrite collect_method_fold. unfold Spec.method_attrs in *.
  destruct (omap self_attr (walk method)) as [|a attrs]; [done|].
  simpl in He. set_solver.
Qed.

Lemma collect_method_keys (d : attr_dict) (method : node) :
  NoDup d.*1 →
  NoDup (collect_method d method).*1
  ∧ ∀ k, k ∈ (collect_method d method).*1 →
         k ∈ d.*1 ∨ (k = def_name method ∧ Spec.method_attrs method ≠ ∅).
Proof.
  rewrite collect_method_fold. unfold Spec.method_attrs.
  generalize (omap self_attr (walk method)) as attrs. intros attrs.
  induction attrs as [|a attrs IH] using rev_ind; intros Hd.
  - split; [done|]. by left.
  - rewrite foldl_snoc. destruct (IH Hd) as [Hnd Hin]. split.
    + by apply dict_add_NoDup.
    + intros k. rewrite dict_add_keys. case_decide.
      * intros Hk. destruct (Hin k Hk) as [?|[-> _]]; [by left|].
        right. split; [done|]. rewrite list_to_set_app_L. set_solver.
      * intros [Hk| ->%list_elem_of_singleton]%elem_of_app.
        -- destruct (Hin k Hk) as [?|[-> _]]; [by left|].
           right. split; [done|]. rewrite list_to_set_app_L. set_solver.
        -- right. split; [done|]. rewrite list_to_set_app_L. set_solver.
Qed.

(** The keys of [attributes] are distinct names of methods that read an
    instance attribute. *)
Lemma collect_attributes_keys (methods : list node) :
  NoDup (collect_attributes methods).*1
  ∧ ∀ k, k ∈ (collect_attributes methods).*1 →
         ∃ method, method ∈ methods ∧ def_name method = k
                   ∧ Spec.method_attrs method ≠ ∅.
Proof.
  unfold collect_attributes.
  induction methods as [|m methods [IHnd IHin]] using rev_ind.
  - split; [constructor|]. intros k []%elem_of_nil.
  - rewrite foldl_snoc. destruct (collect_method_keys _ m IHnd) as [Hnd Hin].
    split; [done|]. intros k Hk. destruct (Hin k Hk) as [Hk'|[-> Hne]].
    + destruct (IHin k Hk') as (m' & ? & ? & ?). exists m'. set_solver.
    + exists m. set_solver.
Qed.

(** There are at most as many keys as methods. *)
Lemma collect_attributes_length (methods : list node) :
  length (collect_attributes methods) ≤ length methods.
Proof.
  destruct (collect_attributes_keys methods) as [Hnd Hin].
  rewrite <- (length_fmap fst (collect_attributes methods)).
  rewrite <- (length_fmap def_name methods).
  apply submseteq_length, NoDup_submseteq; [done|].
  intros k (m & Hm & <- & _)%Hin. apply list_elem_of_fmap. eauto.
Qed.

(** Where the methods have distinct names and each reads an attribute, the
    dictionary lists the methods with their attribute sets, in order. *)
Lemma collect_attributes_all (methods : list node) :
  NoDup (def_name <$> methods) →
  (∀ method, method ∈ methods → Spec.method_attrs method ≠ ∅) →
  collect_attributes methods
  = (λ method, (def_name method, Spec.method_attrs method)) <$> methods.
Proof.
  unfold collect_attributes.
  induction methods as [|m methods IH] using rev_ind; intros Hnd Hall; [done|].
  rewrite foldl_snoc, fmap_app. rewrite fmap_app in Hnd.
  apply NoDup_app in Hnd as (Hnd & Hm & _).
  rewrite IH by (done || set_solver).
  rewrite collect_method_fresh; [done| |set_solver].
  rewrite <- list_fmap_compose. intros Hin. apply (Hm _ Hin). simpl. left.
Qed.

(** ** From index pairs to pairs of methods *)

Lemma lookup_total_seq {A} `{!Inhabited A} (l : list A) :
  (λ j, l !!! j) <$> seq 0 (length l) = l.
Proof.
  induction l as [|x l IH]; [done|]. simpl length. simpl seq.
  rewrite fmap_cons, <- fmap_S_seq, <- list_fmap_compose. simpl.
  f_equal. exact IH.
Qed.

Lemma index_pairs_shift (n k a : nat) :
  seq (S a) k ≫= (λ i, pair i <$> range (i + 1) (S n))
  = prod_map S S <$> (seq a k ≫= λ i, pair i <$> range (i + 1) n).
Proof.
  revert a. induction k as [|k IH]; intros a; [done|].
  simpl seq. rewrite !bind_cons, fmap_app, IH. f_equal.
  unfold range. rewrite <- !list_fmap_compose.
  replace (S a + 1) with (S (a + 1)) by lia.
  replace (S n - S (a + 1)) with (n - (a + 1)) by lia.
  rewrite <- fmap_S_seq, <- list_fmap_compose. done.
Qed.

Lemma index_pairs_S (n : nat) :
  index_pairs (S n)
  = (pair 0 <$> seq 1 n) ++ (prod_map S S <$> index_pairs n).
Proof.
  unfold index_pairs.
  change (range 0 (S n)) with (0 :: seq 1 n).
  replace (range 0 n) with (seq 0 n) by (unfold range; f_equal; lia).
  rewrite bind_cons, index_pairs_shift. f_equal.
  unfold range. replace (S n - (0 + 1)) with n by lia. done.
Qed.

(** Read through a list, the index pairs are its unordered pairs. *)
Lemma index_pairs_unordered {A} `{!Inhabited A} (l : list A) :
  (λ p : nat * nat, (l !!! p.1, l !!! p.2)) <$> index_pairs (length l)
  = Spec.unordered_pairs l.
Proof.
  induction l as [|x l IH]; [done|]. simpl Spec.unordered_pairs.
  simpl length. rewrite index_pairs_S, fmap_app. f_equal.
  - rewrite <- fmap_S_seq, <- !list_fmap_compose.
    rewrite <- (lookup_total_seq l) at 2. rewrite <- list_fmap_compose. done.
  - rewrite <- list_fmap_compose. exact IH.
Qed.

Lemma filter_length_fmap {A B} (f : A → B) (h : A → bool) (g : B → bool)
    (b : bool) (l : list A) :
  (∀ x, x ∈ l → h x = g (f x)) →
  length (filter (λ x, h x = b) l) = length (filter (λ y, g y = b) (f <$> l)).
Proof.
  induction l as [|x l IH]; intros Hl; [done|]. rewrite fmap_cons.
  assert (Hx : h x = g (f x)) by (apply Hl; left).
  assert (IH' := IH (λ y Hy, Hl y (list_elem_of_further _ _ _ Hy))).
  destruct (decide (h x = b)) as [Hb|Hb].
  - rewrite !filter_cons_True by congruence. simpl. by rewrite IH'.
  - rewrite !filter_cons_False by congruence. done.
Qed.

Lemma dict_get_lookup (d : attr_dict) (i : nat) :
  NoDup d.*1 → i < length d → dict_get d (d.*1 !!! i) = d.*2 !!! i.
Proof.
  revert i. induction d as [|[k v] d IH]; intros i Hnd Hi; simpl in *; [lia|].
  apply NoDup_cons in Hnd as [Hk Hnd]. destruct i as [|i]; simpl.
  - by rewrite decide_True.
  - rewrite decide_False; [apply IH; [done|lia]|].
    intros ->. apply Hk. apply list_elem_of_lookup_total_2.
    rewrite length_fmap. lia.
Qed.

Section Counts.

Variable attributes : attr_dict.
Hypothesis keys_distinct : NoDup attributes.*1.

Lemma sharing_lookup (p : nat * nat) :
  p ∈ index_pairs (length attributes) →
  sharing attributes p
  = Spec.connected_pair (attributes.*2 !!! p.1, attributes.*2 !!! p.2).
Proof.
  destruct p as [i j]. intros Hp%index_pairs_bound.
  unfold sharing, pair_sets, Spec.connected_pair, truthy. simpl.
  rewrite !dict_get_lookup by (done || lia). done.
Qed.

(** The loops count the unordered pairs of dictionary entries. *)
Lemma counts_over_dictionary :
  let pairs := Spec.unordered_pairs attributes.*2 in
  tcc_counts attributes
  = (length (filter (λ p, Spec.connected_pair p = true) pairs), length pairs)
  ∧ lcom_counts attributes
    = (length (filter (λ p, Spec.connected_pair p = false) pairs),
       length (filter (λ p, Spec.connected_pair p = true) pairs)).
Proof.
  intros pairs. rewrite tcc_counts_pairs, lcom_counts_pairs. cbv zeta.
  assert (Hp : pairs
    = (λ p : nat * nat, (attributes.*2 !!! p.1, attributes.*2 !!! p.2))
        <$> index_pairs (length attributes)).
  { unfold pairs. rewrite <- index_pairs_unordered, length_fmap. done. }
  rewrite Hp, length_fmap.
  rewrite <- !(filter_length_fmap _ (sharing attributes) Spec.connected_pair)
    by apply sharing_lookup.
  done.
Qed.

End Counts.

(** ** Floats *)

Section Float_facts.

Local Open Scope Q_scope.

Lemma round_half_even_floor (x : Q) :
  round_half_even x = Qfloor x
  ∨ (round_half_even x = (Qfloor x + 1)%Z ∧ 1 # 2 <= x - inject_Z (Qfloor x)).
Proof.
  unfold round_half_even.
  destruct (x - inject_Z (Qfloor x) ?= 1 # 2) eqn:Hc.
  - apply Qeq_alt in Hc. destruct (Z.even (Qfloor x)); [by left|].
    right. split; [done|]. rewrite Hc. apply Qle_refl.
  - by left.
  - apply Qgt_alt in Hc. right. split; [done|]. by apply Qlt_le_weak.
Qed.

Lemma round_half_even_lower (x : Q) (k : Z) :
  inject_Z k <= x → (k <= round_half_even x)%Z.
Proof.
  intros Hk. apply Qfloor_resp_le in Hk. rewrite Qfloor_Z in Hk.
  destruct (round_half_even_floor x) as [->|[-> _]]; lia.
Qed.

Lemma round_half_even_upper (x : Q) (k : Z) :
  x <= inject_Z k → (round_half_even x <= k)%Z.
Proof.
  intros Hk. assert (Hfl := Qfloor_resp_le _ _ Hk). rewrite Qfloor_Z in Hfl.
  destruct (round_half_even_floor x) as [->|[-> Hhalf]]; [done|].
  destruct (decide (Qfloor x = k)) as [Heq|Hne]; [|lia].
  exfalso. rewrite Heq in Hhalf. lra.
Qed.

Lemma pow2_pos (k : Z) : 0 < pow2 k.
Proof. apply Qpower_0_lt. reflexivity. Qed.

Lemma pow2_inject (k : Z) : (0 <= k)%Z → inject_Z (2 ^ k) == pow2 k.
Proof. intros Hk. unfold pow2. by rewrite Zpower_Qpower. Qed.

Lemma round_half_even_near (x : Q) :
  - (1 # 2) <= x - inject_Z (round_half_even x)
  ∧ x - inject_Z (round_half_even x) <= 1 # 2.
Proof.
  pose proof (Qfloor_le x) as Hfl. pose proof (Qlt_floor x) as Hlt.
  rewrite inject_Z_plus in Hlt. change (inject_Z 1) with 1 in Hlt.
  unfold round_half_even.
  destruct (x - inject_Z (Qfloor x) ?= 1 # 2) eqn:Hc.
  - apply Qeq_alt in Hc. destruct (Z.even (Qfloor x)).
    + lra.
    + rewrite inject_Z_plus. change (inject_Z 1) with 1. lra.
  - apply Qlt_alt in Hc. lra.
  - apply Qgt_alt in Hc. rewrite inject_Z_plus. change (inject_Z 1) with 1. lra.
Qed.

Lemma Qlt_fraction (n : Z) (d : positive) (X Y : Z) :
  (0 < Y)%Z → (n * Y < X * Z.pos d)%Z → n # d < inject_Z X / inject_Z Y.
Proof.
  intros HY H. apply Qlt_shift_div_l; [by rewrite <- (Zlt_Qlt 0)|].
  unfold Qlt, Qmult, inject_Z. simpl. lia.
Qed.

Lemma Qle_fraction (n : Z) (d : positive) (X Y : Z) :
  (0 < Y)%Z → (X * Z.pos d <= n * Y)%Z → inject_Z X / inject_Z Y <= n # d.
Proof.
  intros HY H. apply Qle_shift_div_r; [by rewrite <- (Zlt_Qlt 0)|].
  unfold Qle, Qmult, inject_Z. simpl. lia.
Qed.

Lemma pow2_sub (a b : Z) :
  (0 <= a)%Z → (0 <= b)%Z →
  pow2 (a - b) == inject_Z (2 ^ a) / inject_Z (2 ^ b).
Proof.
  intros Ha Hb. unfold pow2. rewrite Qpower_minus by done.
  rewrite !Zpower_Qpower by done. reflexivity.
Qed.

(** [ilog2] is the binary exponent: [2^e <= a < 2^(e+1)]. *)
Lemma ilog2_spec (a : Q) :
  0 < a → pow2 (ilog2 a) <= a ∧ a < pow2 (ilog2 a + 1).
Proof.
  destruct a as [n d]. intros Hpos.
  assert (Hn : (0 < n)%Z) by (unfold Qlt in Hpos; simpl in Hpos; lia).
  destruct (Z.log2_spec n Hn) as [Hn1 Hn2].
  destruct (Z.log2_spec (Z.pos d) ltac:(lia)) as [Hd1 Hd2].
  pose proof (Z.log2_nonneg n) as Hln.
  pose proof (Z.log2_nonneg (Z.pos d)) as Hld.
  assert (Hp1 : (0 < 2 ^ Z.log2 (Z.pos d))%Z) by (apply Z.pow_pos_nonneg; lia).
  assert (Hp2 : (0 < 2 ^ Z.log2 n)%Z) by (apply Z.pow_pos_nonneg; lia).
  unfold ilog2. cbn [Qnum Qden].
  set (ln := Z.log2 n) in *. set (ld := Z.log2 (Z.pos d)) in *.
  destruct (Qle_bool (pow2 (ln - ld)) (n # d)) eqn:Htest.
  - apply Qle_bool_iff in Htest. split; [done|].
    replace (ln - ld + 1)%Z with (Z.succ ln - ld)%Z by lia.
    rewrite pow2_sub by lia. apply Qlt_fraction; [done|]. nia.
  - assert (Hlt : n # d < pow2 (ln - ld)).
    { apply Qnot_le_lt. intros Hle. apply Qle_bool_iff in Hle. congruence. }
    split.
    + replace (ln - ld - 1)%Z with (ln - Z.succ ld)%Z by lia.
      rewrite pow2_sub by lia. apply Qle_fraction.
      * apply Z.pow_pos_nonneg; lia.
      * nia.
    + by replace (ln - ld - 1 + 1)%Z with (ln - ld)%Z by lia.
Qed.

(** [binary64_abs] yields an integer multiple [m * ulp] of the unit in the
    last place, at most half a unit away from its argument, and for a number
    that is not subnormal the significand [m] has 53 bits. *)
Lemma binary64_abs_nearest (a : Q) :
  0 < a →
  let e := Z.max (ilog2 a) (-1022) in
  let ulp := pow2 (e - 52) in
  ∃ m : Z,
    binary64_abs a = inject_Z m * ulp
    ∧ - (ulp / 2) <= a - binary64_abs a ∧ a - binary64_abs a <= ulp / 2
    ∧ (0 <= m <= 2 ^ 53)%Z
    ∧ ((-1022 <= ilog2 a)%Z → (2 ^ 52 <= m)%Z).
Proof.
  intros Hpos e ulp. exists (round_half_even (a / ulp)).
  assert (Hulp : 0 < ulp) by apply pow2_pos.
  destruct (ilog2_spec a Hpos) as [Hlo Hhi].
  destruct (round_half_even_near (a / ulp)) as [Hn1 Hn2].
  assert (Ha : a == a / ulp * ulp) by (field; lra).
  assert (Hup : a < pow2 (e + 1)).
  { eapply Qlt_le_trans; [exact Hhi|]. apply Qpower_le_compat_l; [lia|done]. }
  assert (H53 : pow2 (e + 1) == inject_Z (2 ^ 53) * ulp).
  { unfold ulp. rewrite pow2_inject by lia. unfold pow2.
    rewrite <- Qpower_plus by done. by replace (53 + (e - 52))%Z with (e + 1)%Z by lia. }
  split; [reflexivity|]. unfold binary64_abs. fold e. fold ulp.
  set (m := round_half_even (a / ulp)) in *.
  split_and!.
  - assert (E1 : a - inject_Z m * ulp == (a / ulp - inject_Z m) * ulp)
      by (field; lra).
    assert (E2 : - (ulp / 2) == - (1 # 2) * ulp) by field.
    rewrite E1, E2. apply Qmult_le_compat_r; [done|by apply Qlt_le_weak].
  - assert (E1 : a - inject_Z m * ulp == (a / ulp - inject_Z m) * ulp)
      by (field; lra).
    assert (E2 : ulp / 2 == (1 # 2) * ulp) by field.
    rewrite E1, E2. apply Qmult_le_compat_r; [done|by apply Qlt_le_weak].
  - apply round_half_even_lower. apply Qle_shift_div_l; [done|].
    rewrite Qmult_0_l. by apply Qlt_le_weak.
  - apply round_half_even_upper. apply Qle_shift_div_r; [done|].
    rewrite <- H53. by apply Qlt_le_weak.
  - intros Hnormal. apply round_half_even_lower.
    apply Qle_shift_div_l; [done|].
    assert (H52 : pow2 e == inject_Z (2 ^ 52) * ulp).
    { unfold ulp. rewrite pow2_inject by lia. unfold pow2.
      rewrite <- Qpower_plus by done.
      by replace (52 + (e - 52))%Z with e by lia. }
    rewrite <- H52. replace e with (ilog2 a) by lia. exact Hlo.
Qed.

(** The exponent of a rational in (0, 1] is not positive. *)
Lemma ilog2_unit (a : Q) : 0 < a → a <= 1 → (ilog2 a <= 0)%Z.
Proof.
  destruct a as [n d]. unfold Qlt, Qle, ilog2. cbn [Qnum Qden].
  intros Hpos Hle.
  assert (Z.log2 n <= Z.log2 (Z.pos d))%Z by (apply Z.log2_le_mono; lia).
  destruct (Qle_bool _ _); lia.
Qed.

Lemma binary64_abs_unit (a : Q) :
  0 < a → a <= 1 → 0 <= binary64_abs a ∧ binary64_abs a <= 1.
Proof.
  intros Hpos Hle. unfold binary64_abs.
  set (e := Z.max (ilog2 a) (-1022)).
  assert (He : (e <= 0)%Z) by (pose proof (ilog2_unit a Hpos Hle); lia).
  assert (Hulp := pow2_pos (e - 52)).
  set (ulp := pow2 (e - 52)) in *.
  assert (Hone : pow2 (52 - e) * ulp == 1).
  { unfold ulp, pow2. rewrite <- Qpower_plus by done.
    replace (52 - e + (e - 52))%Z with 0%Z by lia. reflexivity. }
  split.
  - apply Qmult_le_0_compat; [|by apply Qlt_le_weak].
    rewrite <- (Zle_Qle 0). apply round_half_even_lower.
    apply Qle_shift_div_l; [done|]. rewrite Qmult_0_l. by apply Qlt_le_weak.
  - rewrite <- Hone. apply Qmult_le_compat_r; [|by apply Qlt_le_weak].
    rewrite <- pow2_inject by lia. rewrite <- Zle_Qle.
    apply round_half_even_upper. apply Qle_shift_div_r; [done|].
    rewrite pow2_inject by lia. rewrite Hone. exact Hle.
Qed.

(** Rounding to binary64 keeps a number of the unit interval inside it. *)
Lemma binary64_unit (q : Q) :
  0 <= q → q <= 1 → 0 <= binary64 q ∧ binary64 q <= 1.
Proof.
  intros H0 H1. unfold binary64.
  assert (Hq := Qred_correct q). revert Hq.
  generalize (Qred q) as q'. intros q' Hq.
  rewrite <- Hq in H0, H1. clear q Hq.
  destruct q' as [[|n|n] d]; simpl.
  - done.
  - rewrite !Qred_correct. by apply binary64_abs_unit.
  - exfalso. by apply H0.
Qed.

(** The float nearest to a rational depends on its value only. *)
Lemma binary64_proper (q q' : Q) : q == q' → binary64 q = binary64 q'.
Proof. intros H. unfold binary64. by rewrite (Qred_complete q q' H). Qed.

Lemma truediv_unit (a b : nat) :
  (a ≤ b)%nat → (0 < b)%nat → 0 <= truediv a b ∧ truediv a b <= 1.
Proof.
  intros Hab Hb. unfold truediv.
  assert (Hb' : 0 < inject_Z (Z.of_nat b)).
  { rewrite <- (Zlt_Qlt 0). lia. }
  apply binary64_unit.
  - apply Qle_shift_div_l; [done|]. rewrite Qmult_0_l.
    rewrite <- (Zle_Qle 0). lia.
  - apply Qle_shift_div_r; [done|]. rewrite Qmult_1_l.
    rewrite <- Zle_Qle. lia.
Qed.

Lemma truediv_same (b : nat) : (0 < b)%nat → truediv b b = 1.
Proof.
  intros Hb. unfold truediv. rewrite (binary64_proper _ 1); [reflexivity|].
  apply Qmult_inv_r. unfold Qeq. simpl. lia.
Qed.

Lemma truediv_zero (b : nat) : truediv 0 b = 0.
Proof.
  unfold truediv. rewrite (binary64_proper _ 0); [reflexivity|].
  apply Qmult_0_l.
Qed.

Lemma round_unit (x : float) (ndigits : nat) :
  0 <= x → x <= 1 → 0 <= Float.round x ndigits ∧ Float.round x ndigits <= 1.
Proof.
  intros H0 H1. unfold Float.round.
  set (s := (10 ^ Z.of_nat ndigits)%Z).
  assert (Hs : (0 < s)%Z) by (apply Z.pow_pos_nonneg; lia).
  assert (Hs' : 0 < inject_Z s) by (rewrite <- (Zlt_Qlt 0); lia).
  apply binary64_unit.
  - apply Qle_shift_div_l; [done|]. rewrite Qmult_0_l.
    rewrite <- (Zle_Qle 0). apply round_half_even_lower.
    apply Qmult_le_0_compat; [done|by apply Qlt_le_weak].
  - apply Qle_shift_div_r; [done|]. rewrite Qmult_1_l.
    rewrite <- Zle_Qle. apply round_half_even_upper.
    rewrite <- (Qmult_1_l (inject_Z s)) at 2.
    apply Qmult_le_compat_r; [done|by apply Qlt_le_weak].
Qed.

End Float_facts.

(** ** Cohesion metrics in general *)

Section Cohesion.

Local Open Scope Q_scope.

Lemma tcc_counts_le (attributes : attr_dict) :
  ((tcc_counts attributes).1 ≤ (tcc_counts attributes).2)%nat.
Proof. rewrite tcc_counts_pairs. simpl. apply length_filter. Qed.

(** The denominator of TCC is [k (k - 1) / 2] for [k] dictionary keys. *)
Lemma tcc_total_keys (attributes : attr_dict) :
  (tcc_counts attributes).2
  = (length attributes * (length attributes - 1) / 2)%nat.
Proof. rewrite tcc_counts_pairs. simpl. apply index_pairs_total. Qed.

Lemma few_keys (attributes : attr_dict) :
  (length attributes ≤ 1)%nat →
  lcom_of attributes = 0%Z ∧ tcc_of attributes = 1.
Proof.
  intros Hlen. unfold lcom_of, tcc_of.
  rewrite lcom_counts_pairs, tcc_counts_pairs. cbv zeta.
  assert (Hnil : index_pairs (length attributes) = []).
  { destruct (length attributes) as [|[|n]]; [done|done|lia]. }
  rewrite Hnil. done.
Qed.

(** LCOM is never negative and TCC lies in the unit interval. *)
Lemma cohesion_bounds (rel_file : str) (cls : node) :
  (0 ≤ lcom (class_entry rel_file cls))%Z
  ∧ 0 <= tcc (class_entry rel_file cls)
  ∧ tcc (class_entry rel_file cls) <= 1.
Proof.
  simpl. set (attributes := collect_attributes (methods_of cls)). split.
  - unfold lcom_of. destruct (lcom_counts attributes) as [no_shared shared].
    destruct (Z.ltb_spec (Z.of_nat no_shared - Z.of_nat shared) 0); lia.
  - unfold tcc_of. pose proof (tcc_counts_le attributes) as Hle.
    destruct (tcc_counts attributes) as [connected total]. simpl in Hle.
    destruct (Nat.ltb_spec 0 total) as [Hpos|_]; [|split; discriminate].
    apply round_unit; by apply truediv_unit.
Qed.

(** X9: a class with no method or one method has LCOM 0 and TCC 1.0. *)
Theorem cohesion_few_methods (rel_file : str) (cls : node) :
  (methods (class_entry rel_file cls) ≤ 1)%nat →
  lcom (class_entry rel_file cls) = 0%Z ∧ tcc (class_entry rel_file cls) = 1.
Proof.
  simpl. intros Hm. apply few_keys.
  pose proof (collect_attributes_length (methods_of cls)). lia.
Qed.

(** What the code computes: the pairs are those of the dictionary entries,
    that is of the distinct names of the methods that read an attribute. *)
Lemma cohesion_over_dictionary (rel_file : str) (cls : node) :
  let attributes := collect_attributes (methods_of cls) in
  let pairs := Spec.unordered_pairs attributes.*2 in
  let shared := length (filter (λ p, Spec.connected_pair p = true) pairs) in
  let no_shared := length (filter (λ p, Spec.connected_pair p = false) pairs) in
  NoDup attributes.*1
  ∧ (length attributes ≤ length (methods_of cls))%nat
  ∧ (∀ k, k ∈ attributes.*1 →
       ∃ method, method ∈ methods_of cls ∧ def_name method = k
                 ∧ Spec.method_attrs method ≠ ∅)
  ∧ length pairs = (length attributes * (length attributes - 1) / 2)%nat
  ∧ lcom (class_entry rel_file cls)
    = Z.max 0 (Z.of_nat no_shared - Z.of_nat shared)
  ∧ tcc (class_entry rel_file cls)
    = if decide (length pairs = 0%nat) then 1
      else Float.round (truediv shared (length pairs)) 3.
Proof.
  intros attributes pairs shared no_shared.
  destruct (collect_attributes_keys (methods_of cls)) as [Hnd Hin].
  destruct (counts_over_dictionary attributes Hnd) as [Htcc Hlcom].
  fold pairs shared no_shared in Htcc, Hlcom.
  split_and!; [done|apply collect_attributes_length|done| | |].
  - rewrite <- tcc_total_keys. fold attributes. by rewrite Htcc.
  - simpl. fold attributes. unfold lcom_of. rewrite Hlcom.
    destruct (Z.ltb_spec (Z.of_nat no_shared - Z.of_nat shared) 0); lia.
  - simpl. fold attributes. unfold tcc_of. rewrite Htcc.
    destruct (length pairs); done.
Qed.

(** Where the methods of a class have distinct names and each of them reads
    an instance attribute, the code computes LCOM and TCC as the
    specification words them. *)
Lemma cohesion_agrees_without_silent_methods (rel_file : str) (cls : node) :
  NoDup (def_name <$> methods_of cls) →
  (∀ method, method ∈ methods_of cls → Spec.method_attrs method ≠ ∅) →
  lcom (class_entry rel_file cls) = Spec.lcom cls
  ∧ tcc (class_entry rel_file cls) = Spec.tcc cls
  ∧ (tcc_counts (collect_attributes (methods_of cls))).2
    = (methods (class_entry rel_file cls)
       * (methods (class_entry rel_file cls) - 1) / 2)%nat.
Proof.
  intros Hnd Hall.
  destruct (cohesion_over_dictionary rel_file cls)
    as (_ & _ & _ & _ & Hlcom & Htcc). cbv zeta in *.
  pose proof (collect_attributes_all _ Hnd Hall) as Hd.
  assert (H2 : (collect_attributes (methods_of cls)).*2
               = Spec.method_attrs <$> methods_of cls).
  { rewrite Hd, <- list_fmap_compose. done. }
  rewrite H2 in Hlcom, Htcc. split_and!; [done|done|].
  rewrite tcc_total_keys, Hd, length_fmap. done.
Qed.

(** X12: a method that accesses no instance attribute is left out of the
    pair loops: in a class with such a method and at least two methods, the
    denominator of TCC is smaller than [n (n - 1) / 2] for [n] methods. *)
Theorem silent_method_shrinks_total (cls method : node) :
  method ∈ methods_of cls →
  Spec.method_attrs method = ∅ →
  (2 ≤ length (methods_of cls))%nat →
  ((tcc_counts (collect_attributes (methods_of cls))).2
   < length (methods_of cls) * (length (methods_of cls) - 1) / 2)%nat.
Proof.
  intros Hm Hsilent Hn.
  set (ms := methods_of cls) in *. set (d := collect_attributes ms).
  assert (Hk : (length d < length ms)%nat).
  { destruct (collect_attributes_keys ms) as [Hnd Hin]. fold d in Hnd, Hin.
    apply Nat.le_lt_trans
      with (length (filter (λ m, Spec.method_attrs m ≠ ∅) ms)).
    - rewrite <- (length_fmap fst d).
      rewrite <- (length_fmap def_name (filter _ ms)).
      apply submseteq_length, NoDup_submseteq; [done|].
      intros k (m & Hmin & <- & Hne)%Hin. apply list_elem_of_fmap.
      exists m. split; [done|]. by apply list_elem_of_filter.
    - apply (length_filter_lt _ _ method); [done|]. by intros H. }
  rewrite tcc_total_keys. fold d.
  pose proof (index_pairs_length (length d)) as H1.
  pose proof (index_pairs_length (length ms)) as H2.
  rewrite <- (index_pairs_total (length d)), <- (index_pairs_total (length ms)).
  nia.
Qed.

(** X13: a class with exactly two methods that share an instance attribute
    has TCC 1.0, whether or not the two methods have the same name. *)
Theorem tcc_two_sharing_methods (rel_file : str) (cls m1 m2 : node) :
  methods_of cls = [m1; m2] →
  Spec.method_attrs m1 ∩ Spec.method_attrs m2 ≠ ∅ →
  tcc (class_entry rel_file cls) = 1.
Proof.
  intros Hms Hshare. destruct (decide (def_name m1 = def_name m2)) as [Heq|Hne].
  - simpl. apply few_keys.
    destruct (collect_attributes_keys (methods_of cls)) as [Hnd Hin].
    rewrite <- (length_fmap fst).
    change 1%nat with (length [def_name m1]).
    apply submseteq_length, NoDup_submseteq; [done|].
    intros k (m & Hm & <- & _)%Hin. rewrite Hms in Hm. set_solver.
  - destruct (cohesion_agrees_without_silent_methods rel_file cls)
      as (_ & -> & _).
    + rewrite Hms. simpl. apply NoDup_cons. split; [set_solver|].
      apply NoDup_singleton.
    + rewrite Hms. intros m Hm. set_solver.
    + unfold Spec.tcc, Spec.total, Spec.connected, Spec.method_pairs.
      rewrite Hms. simpl.
      rewrite filter_cons_True
        by (unfold Spec.connected_pair; simpl; by rewrite bool_decide_eq_true).
      reflexivity.
Qed.

(** X14: a class with exactly two methods of different names that both
    access instance attributes and share none has TCC 0.0 and LCOM 1. *)
Theorem cohesion_two_disjoint_methods (rel_file : str) (cls m1 m2 : node) :
  methods_of cls = [m1; m2] →
  def_name m1 ≠ def_name m2 →
  Spec.method_attrs m1 ≠ ∅ → Spec.method_attrs m2 ≠ ∅ →
  Spec.method_attrs m1 ∩ Spec.method_attrs m2 = ∅ →
  tcc (class_entry rel_file cls) = 0 ∧ lcom (class_entry rel_file cls) = 1%Z.
Proof.
  intros Hms Hne H1 H2 Hdisj.
  destruct (cohesion_agrees_without_silent_methods rel_file cls)
    as (-> & -> & _).
  - rewrite Hms. simpl. apply NoDup_cons. split; [set_solver|].
    apply NoDup_singleton.
  - rewrite Hms. intros m Hm. set_solver.
  - assert (Hc : Spec.connected_pair
                   (Spec.method_attrs m1, Spec.method_attrs m2) = false).
    { unfold Spec.connected_pair. simpl. apply bool_decide_eq_false_2.
      intros H. by apply H. }
    unfold Spec.tcc, Spec.lcom, Spec.total, Spec.connected, Spec.disjoint,
      Spec.method_pairs. rewrite Hms. simpl.
    rewrite (filter_cons_False (λ p, Spec.connected_pair p = true))
      by (rewrite Hc; done).
    rewrite (filter_cons_True (λ p, Spec.connected_pair p = false)) by done.
    split; reflexivity.
Qed.

End Cohesion.

(** * Further properties *)

(** ** Source discovery *)

Lemma endswith_spec (s p : str) :
  endswith s p = true ↔ ∃ r, s = r ++ p.
Proof.
  unfold endswith. rewrite startswith_spec. split.
  - intros [r Hr]. exists (reverse r).
    apply (inj reverse). by rewrite Hr, reverse_app, reverse_involutive.
  - intros [r ->]. exists (reverse r). by rewrite reverse_app.
Qed.

Lemma path_join_endswith (root file suffix : str) :
  endswith file suffix = true → endswith (path_join root file) suffix = true.
Proof.
  rewrite !endswith_spec. intros [r ->]. unfold path_join.
  repeat match goal with |- context [if ?b then _ else _] => destruct b end.
  - by exists r.
  - exists (root ++ r). by rewrite <- app_assoc.
  - exists (root ++ lit "/" ++ r). by rewrite <- !app_assoc.
Qed.

Lemma collect_py_files (root : str) (files py_files : list str) :
  foldl (λ py_files file,
           if endswith file (lit ".py")
           then py_files ++ [path_join root file] else py_files)
        py_files files
  = py_files
      ++ (path_join root
            <$> filter (λ file, endswith file (lit ".py") = true) files).
Proof.
  revert py_files. induction files as [|file files IH]; intros py_files.
  - by rewrite app_nil_r.
  - simpl. rewrite IH. destruct (endswith file (lit ".py")) eqn:Hpy.
    + rewrite filter_cons_True by done. by rewrite <- app_assoc.
    + by rewrite filter_cons_False by (rewrite Hpy; done).
Qed.

(** X1: [get_py_files] walks the repository once and returns, in the order
    of the walk, the join of directory and name for exactly the file names
    that end in [.py]; directory names are not looked at, and every path
    returned ends in [.py]. *)
Theorem get_py_files_lists_python_files (W : World) (repo_path : str) :
  let py_files :=
    '(root, _, files) ← os_walk W repo_path;
    path_join root <$> filter (λ file, endswith file (lit ".py") = true) files in
  get_py_files W repo_path = Run [Ev_walk repo_path] (Ok py_files)
  ∧ Forall (λ path, endswith path (lit ".py") = true) py_files.
Proof.
  intros py_files. split.
  - unfold get_py_files. rewrite bind_unfold. simpl. do 2 f_equal.
    unfold py_files. generalize (os_walk W repo_path) as triples.
    intros triples.
    enough (H : ∀ acc,
      foldl (λ py_files '(root, _, files),
               foldl (λ py_files file,
                        if endswith file (lit ".py")
                        then py_files ++ [path_join root file] else py_files)
                     py_files files) acc triples
      = acc ++ ('(root, _, files) ← triples;
                path_join root
                  <$> filter (λ file, endswith file (lit ".py") = true) files))
      by apply (H []).
    induction triples as [|[[root dirs] files] triples IH]; intros acc.
    + by rewrite app_nil_r.
    + simpl foldl. rewrite collect_py_files, IH, bind_cons, app_assoc. done.
  - unfold py_files. apply Forall_forall. intros path Hpath.
    apply list_elem_of_bind in Hpath as ([[root dirs] files] & Hpath & _).
    apply list_elem_of_fmap in Hpath as (file & -> & Hfile).
    apply list_elem_of_filter in Hfile as [Hpy _].
    by apply path_join_endswith.
Qed.

(** ** Tree walk and class discovery *)

Lemma descendant_trans (a b c : node) :
  descendant a b → descendant b c → descendant a c.
Proof.
  intros Hab Hbc. induction Hbc as [|x c _ IH Hc]; [done|].
  by eapply descendant_child.
Qed.

Lemma walk_queue_descendant (fuel : nat) (todo : list node) (x : node) :
  x ∈ walk_queue fuel todo → ∃ t, t ∈ todo ∧ descendant t x.
Proof.
  revert todo. induction fuel as [|fuel IH]; intros todo Hx.
  - destruct todo; by apply elem_of_nil in Hx.
  - destruct todo as [|n todo]; [by apply elem_of_nil in Hx|].
    simpl in Hx. apply elem_of_cons in Hx as [->|Hx].
    + exists n. split; [left|constructor].
    + apply IH in Hx as (t & [Ht|Ht]%elem_of_app & Hd).
      * exists t. split; [by right|done].
      * exists n. split; [left|].
        eapply descendant_trans; [|exact Hd].
        eapply descendant_child; [constructor|done].
Qed.

(** [ast.walk] yields exactly the nodes of the tree. *)
Lemma walk_descendant (n x : node) : x ∈ walk n ↔ descendant n x.
Proof.
  split.
  - intros (t & ->%list_elem_of_singleton & Hd)%walk_queue_descendant. done.
  - induction 1 as [|x c _ IH Hc].
    + destruct (walk_root n) as [rest ->]. left.
    + by eapply walk_children.
Qed.

Lemma walk_queue_todo (fuel : nat) (todo : list node) (y : node) :
  sum_list_with node_size todo ≤ fuel → y ∈ todo → y ∈ walk_queue fuel todo.
Proof.
  revert todo. induction fuel as [|fuel IH]; intros todo Hsize Hy.
  - destruct todo as [|n todo]; [done|].
    simpl in Hsize. rewrite node_size_children in Hsize. lia.
  - destruct todo as [|n todo]; [done|]. simpl.
    apply elem_of_cons in Hy as [->|Hy]; [left|right].
    apply IH; [|apply elem_of_app; by left].
    simpl in Hsize. rewrite node_size_children in Hsize.
    rewrite sum_list_with_app. lia.
Qed.

(** A node comes before its children. *)
Lemma walk_queue_parent_first (fuel : nat) (todo l1 l2 : list node)
    (x c : node) :
  sum_list_with node_size todo ≤ fuel →
  walk_queue fuel todo = l1 ++ x :: l2 →
  c ∈ iter_child_nodes x → c ∈ l2.
Proof.
  revert todo l1. induction fuel as [|fuel IH]; intros todo l1 Hsize Hw Hc.
  - destruct todo, l1; discriminate.
  - destruct todo as [|n todo]; [by destruct l1|].
    assert (Hsize' : sum_list_with node_size (todo ++ iter_child_nodes n)
                     ≤ fuel).
    { simpl in Hsize. rewrite node_size_children in Hsize.
      rewrite sum_list_with_app. lia. }
    simpl in Hw. destruct l1 as [|y l1]; simplify_eq/=.
    + apply walk_queue_todo; [done|]. apply elem_of_app. by right.
    + by eapply IH.
Qed.

Lemma walk_parent_first (n x c : node) (l1 l2 : list node) :
  walk n = l1 ++ x :: l2 → c ∈ iter_child_nodes x → c ∈ l2.
Proof. apply walk_queue_parent_first. simpl. lia. Qed.

(** The walk yields every node once: as many nodes as the tree has. *)
Lemma walk_length (n : node) : length (walk n) = node_size n.
Proof.
  unfold walk.
  enough (H : ∀ fuel todo, sum_list_with node_size todo ≤ fuel →
            length (walk_queue fuel todo) = sum_list_with node_size todo).
  { rewrite H; simpl; lia. }
  induction fuel as [|fuel IH]; intros todo Hsize.
  - destruct todo as [|m todo]; [done|].
    simpl in Hsize. rewrite node_size_children in Hsize. lia.
  - destruct todo as [|m todo]; [done|]. simpl.
    simpl in Hsize. rewrite node_size_children in Hsize.
    rewrite IH by (rewrite sum_list_with_app; lia).
    rewrite sum_list_with_app, (node_size_children m). lia.
Qed.

Section Extractor_facts.

Variable W : World.

(** X2: for a file that parses, [extract_class_metrics] returns one record
    for every [ClassDef] node of the tree, at any depth (a class nested in a
    class or in a function included), and for nothing else; the records come
    in the order of the breadth-first walk. *)
Theorem every_class_of_the_tree_gets_a_record
    (file_path repo_path code : str) (tree : node) :
  open_read W file_path = Ok code →
  ast_parse W code = Ok tree →
  ∃ classes,
    extract_class_metrics W file_path repo_path
    = Run [Ev_read file_path] (Ok classes)
    ∧ classes = class_entry (relpath W file_path repo_path)
                  <$> filter (λ n, is_ClassDef n = true) (walk tree)
    ∧ ∀ record, record ∈ classes ↔
        ∃ cls, descendant tree cls ∧ is_ClassDef cls = true
               ∧ record = class_entry (relpath W file_path repo_path) cls.
Proof.
  intros Hread Hparse. eexists. split; [|split; [reflexivity|]].
  - by apply parsed_file_yields_its_classes with (code := code).
  - intros record. rewrite list_elem_of_fmap. split.
    + intros (cls & -> & [Hcls Hin]%list_elem_of_filter).
      exists cls. by rewrite <- walk_descendant.
    + intros (cls & Hd & Hcls & ->). exists cls. split; [done|].
      apply list_elem_of_filter. by rewrite walk_descendant.
Qed.

(** X3: the record of a class comes before the records of the classes
    defined directly in its body: where the walk reaches the class [cls]
    after the nodes [l1] and before the nodes [l2], the result is the records
    of [l1], the record of [cls], the records of [l2], and every class of the
    body of [cls] has its record among those of [l2]. *)
Theorem outer_class_comes_before_nested
    (file_path repo_path code : str) (tree cls : node) (l1 l2 : list node) :
  open_read W file_path = Ok code →
  ast_parse W code = Ok tree →
  walk tree = l1 ++ cls :: l2 →
  is_ClassDef cls = true →
  let records l := class_entry (relpath W file_path repo_path)
                     <$> filter (λ n, is_ClassDef n = true) l in
  outcome (extract_class_metrics W file_path repo_path)
  = Ok (records l1
          ++ class_entry (relpath W file_path repo_path) cls :: records l2)
  ∧ ∀ inner, inner ∈ def_body cls → is_ClassDef inner = true →
      class_entry (relpath W file_path repo_path) inner ∈ records l2.
Proof.
  intros Hread Hparse Hwalk Hcls records. split.
  - rewrite (parsed_file_yields_its_classes W _ _ code tree) by done.
    simpl. f_equal. rewrite Hwalk, filter_app, filter_cons_True by done.
    by rewrite fmap_app, fmap_cons.
  - intros inner Hinner Hclass. apply list_elem_of_fmap. exists inner.
    split; [done|]. apply list_elem_of_filter. split; [done|].
    apply (walk_parent_first tree cls inner l1 l2 Hwalk).
    destruct cls; try discriminate. simpl in *. set_solver.
Qed.

(** X4: only [SyntaxError] is recovered.  A file that cannot be read, and any
    other exception of the parser, ends [extract_class_metrics] with that
    exception right after the read. *)
Theorem other_extraction_errors_propagate
    (file_path repo_path : str) (e : exn) :
  open_read W file_path = Raise e
  ∨ (∃ code, open_read W file_path = Ok code ∧ ast_parse W code = Raise e
             ∧ e ≠ SyntaxError) →
  extract_class_metrics W file_path repo_path
  = Run [Ev_read file_path] (Raise e).
Proof.
  unfold extract_class_metrics, lift, try_except.
  intros [Hread|(code & Hread & Hparse & He)]; rewrite Hread.
  - reflexivity.
  - rewrite !bind_unfold. simpl. rewrite Hparse. simpl.
    by destruct e.
Qed.

End Extractor_facts.

Lemma every_class_of_the_tree_gets_a_record_witness :
  open_read Example.world_nested (lit "repo/a.py") = Ok Example.source_a
  ∧ ast_parse Example.world_nested Example.source_a = Ok Example.nested_module
  ∧ ∃ classes,
    extract_class_metrics Example.world_nested (lit "repo/a.py") (lit "repo")
    = Run [Ev_read (lit "repo/a.py")] (Ok classes)
    ∧ classes
      = class_entry (relpath Example.world_nested (lit "repo/a.py") (lit "repo"))
          <$> filter (λ n, is_ClassDef n = true) (walk Example.nested_module)
    ∧ ∀ record, record ∈ classes ↔
        ∃ cls, descendant Example.nested_module cls ∧ is_ClassDef cls = true
               ∧ record
                 = class_entry
                     (relpath Example.world_nested (lit "repo/a.py") (lit "repo"))
                     cls.
Proof.
  split; [reflexivity|]. split; [reflexivity|].
  apply (every_class_of_the_tree_gets_a_record Example.world_nested
           (lit "repo/a.py") (lit "repo") Example.source_a Example.nested_module);
    reflexivity.
Defined.

Lemma outer_class_comes_before_nested_witness :
  open_read Example.world_nested (lit "repo/a.py") = Ok Example.source_a
  ∧ ast_parse Example.world_nested Example.source_a = Ok Example.nested_module
  ∧ walk Example.nested_module
    = [Example.nested_module] ++ Example.outer_inner
        :: drop 2 (walk Example.nested_module)
  ∧ is_ClassDef Example.outer_inner = true
  ∧ (let records l :=
       class_entry (relpath Example.world_nested (lit "repo/a.py") (lit "repo"))
         <$> filter (λ n, is_ClassDef n = true) l in
     outcome (extract_class_metrics Example.world_nested
                (lit "repo/a.py") (lit "repo"))
     = Ok (records [Example.nested_module]
             ++ class_entry
                  (relpath Example.world_nested (lit "repo/a.py") (lit "repo"))
                  Example.outer_inner
                :: records (drop 2 (walk Example.nested_module)))
     ∧ ∀ inner, inner ∈ def_body Example.outer_inner →
         is_ClassDef inner = true →
         class_entry
           (relpath Example.world_nested (lit "repo/a.py") (lit "repo")) inner
         ∈ records (drop 2 (walk Example.nested_module))).
Proof.
  split; [reflexivity|]. split; [reflexivity|].
  split; [vm_compute; reflexivity|]. split; [reflexivity|].
  apply (outer_class_comes_before_nested Example.world_nested
           (lit "repo/a.py") (lit "repo") Example.source_a
           Example.nested_module Example.outer_inner
           [Example.nested_module] (drop 2 (walk Example.nested_module)));
    [reflexivity|reflexivity|vm_compute; reflexivity|reflexivity].
Defined.

Lemma other_extraction_errors_propagate_witness :
  (open_read Example.world_null_byte (lit "repo/a.py") = Raise ValueError
   ∨ (∃ code, open_read Example.world_null_byte (lit "repo/a.py") = Ok code
              ∧ ast_parse Example.world_null_byte code = Raise ValueError
              ∧ ValueError ≠ SyntaxError))
  ∧ extract_class_metrics Example.world_null_byte (lit "repo/a.py") (lit "repo")
    = Run [Ev_read (lit "repo/a.py")] (Raise ValueError).
Proof.
  assert (H : open_read Example.world_null_byte (lit "repo/a.py")
              = Raise ValueError
            ∨ (∃ code, open_read Example.world_null_byte (lit "repo/a.py")
                       = Ok code
                 ∧ ast_parse Example.world_null_byte code = Raise ValueError
                 ∧ ValueError ≠ SyntaxError)).
  { right. exists [0%N]. split; [reflexivity|]. split; [reflexivity|].
    discriminate. }
  split; [exact H|].
  exact (other_extraction_errors_propagate Example.world_null_byte
           (lit "repo/a.py") (lit "repo") ValueError H).
Defined.

(** ** Attribute sets *)

Lemma dict_get_add (d : attr_dict) (k a k' : str) :
  dict_get (dict_add d k a) k'
  = if decide (k = k') then {[a]} ∪ dict_get d k' else dict_get d k'.
Proof.
  induction d as [|[k0 v] d IH]; simpl.
  - destruct (decide (k = k')); [|done]. by rewrite (right_id_L ∅ (∪)).
  - destruct (decide (k0 = k)) as [->|Hk0]; simpl.
    + destruct (decide (k = k')); done.
    + rewrite IH. destruct (decide (k0 = k')) as [->|]; [|done].
      by destruct (decide (k = k')) as [->|].
Qed.

Lemma dict_get_add_all (d : attr_dict) (k k' : str) (attrs : list str) :
  dict_get (foldl (λ d attr, dict_add d k attr) d attrs) k'
  = if decide (k = k') then list_to_set attrs ∪ dict_get d k'
    else dict_get d k'.
Proof.
  revert d. induction attrs as [|a attrs IH]; intros d; simpl.
  - destruct (decide (k = k')); [|done]. by rewrite (left_id_L ∅ (∪)).
  - rewrite IH, dict_get_add. destruct (decide (k = k')); [|done]. set_solver.
Qed.

Lemma dict_get_missing (d : attr_dict) (k : str) :
  k ∉ d.*1 → dict_get d k = ∅.
Proof.
  induction d as [|[k0 v] d IH]; [done|]. simpl.
  intros [Hne Hk]%not_elem_of_cons. rewrite decide_False by done. by apply IH.
Qed.

Lemma dict_get_collect (methods : list node) (k : str) :
  dict_get (collect_attributes methods) k
  = ⋃ (Spec.method_attrs <$> filter (λ m, def_name m = k) methods).
Proof.
  unfold collect_attributes.
  induction methods as [|m methods IH] using rev_ind; [done|].
  rewrite foldl_snoc, collect_method_fold, dict_get_add_all, IH.
  rewrite filter_app, fmap_app, union_list_app_L.
  destruct (decide (def_name m = k)) as [Hk|Hk].
  - rewrite filter_cons_True by done. simpl. unfold Spec.method_attrs.
    set_solver.
  - rewrite filter_cons_False by done. simpl. set_solver.
Qed.

(** X5: the dictionary of attribute sets is keyed by method name: the entry
    of a name is the union of the attribute sets of all the methods of that
    name (methods that share a name are merged), a name is a key exactly when
    a method of that name accesses an attribute through [self], and no key
    occurs twice. *)
Theorem attribute_sets_by_method_name (methods : list node) (k : str) :
  dict_get (collect_attributes methods) k
  = ⋃ (Spec.method_attrs <$> filter (λ m, def_name m = k) methods)
  ∧ (k ∈ (collect_attributes methods).*1 ↔
       ∃ m, m ∈ methods ∧ def_name m = k ∧ Spec.method_attrs m ≠ ∅)
  ∧ NoDup (collect_attributes methods).*1.
Proof.
  destruct (collect_attributes_keys methods) as [Hnd Hin].
  split; [apply dict_get_collect|]. split; [|done]. split; [apply Hin|].
  intros (m & Hm & Hk & Hne).
  destruct (decide (k ∈ (collect_attributes methods).*1)) as [|Hnot]; [done|].
  apply dict_get_missing in Hnot. rewrite dict_get_collect in Hnot.
  exfalso. apply Hne. apply empty_union_list_L in Hnot.
  apply (proj1 (Forall_forall _ _) Hnot). apply list_elem_of_fmap.
  exists m. split; [done|]. by apply list_elem_of_filter.
Qed.

(** X6: the attribute set of a method holds exactly the names [a] for which
    an access [self.a] stands anywhere beneath the method node: in a nested
    function or class as well, read or written; an attribute of any other
    name than [self] does not count. *)
Theorem method_attributes_are_self_accesses (method : node) (a : str) :
  a ∈ dict_get (collect_method [] method) (def_name method)
  ↔ ∃ ctx ctx', descendant method (Attribute (Name (lit "self") ctx) a ctx').
Proof.
  rewrite collect_method_fold, dict_get_add_all, decide_True by done.
  simpl. rewrite (right_id_L ∅ (∪)), elem_of_list_to_set, list_elem_of_omap.
  split.
  - intros (n & Hn & Hself). apply walk_descendant in Hn.
    destruct n as [| | | |[| | | | |id ctx|] attr ctx'| |]; try discriminate.
    simpl in Hself. destruct (decide (id = lit "self")) as [->|]; [|done].
    injection Hself as ->. eauto.
  - intros (ctx & ctx' & Hd). eexists. split; [by apply walk_descendant|].
    reflexivity.
Qed.

(** ** Cohesion and coupling of a class *)

Lemma filter_length_split {A} (h : A → bool) (l : list A) :
  length (filter (λ x, h x = false) l) + length (filter (λ x, h x = true) l)
  = length l.
Proof.
  induction l as [|x l IH]; [done|]. destruct (h x) eqn:Hx.
  - rewrite filter_cons_False by (rewrite Hx; done).
    rewrite filter_cons_True by done. simpl. lia.
  - rewrite filter_cons_True by done.
    rewrite filter_cons_False by (rewrite Hx; done). simpl. lia.
Qed.

(** X7: the two pair loops visit the same pairs, the unordered pairs of the
    entries of the attribute dictionary: with [k] entries there are
    [k (k - 1) / 2] pairs, [k] is at most the number of methods, each pair
    counts as shared or as not shared, the shared ones are the connected
    ones, and so LCOM is [total - 2 * connected] floored at 0. *)
Theorem pair_loops_run_over_dictionary_entries (rel_file : str) (cls : node) :
  let attributes := collect_attributes (methods_of cls) in
  let '(no_shared, shared) := lcom_counts attributes in
  let '(connected, total) := tcc_counts attributes in
  shared = connected
  ∧ no_shared + shared = total
  ∧ total = length attributes * (length attributes - 1) / 2
  ∧ length attributes ≤ methods (class_entry rel_file cls)
  ∧ connected
    = length (filter (λ p, Spec.connected_pair p = true)
                (Spec.unordered_pairs attributes.*2))
  ∧ lcom (class_entry rel_file cls)
    = Z.max 0 (Z.of_nat total - 2 * Z.of_nat connected).
Proof.
  intros attributes.
  destruct (collect_attributes_keys (methods_of cls)) as [Hnd _].
  destruct (counts_over_dictionary attributes Hnd) as [Htcc _].
  pose proof (tcc_total_keys attributes) as Htotal.
  pose proof (filter_length_split (sharing attributes)
                (index_pairs (length attributes))) as Hsplit.
  pose proof (collect_attributes_length (methods_of cls)) as Hlen.
  assert (Hlcom : lcom (class_entry rel_file cls) = lcom_of attributes)
    by reflexivity.
  unfold lcom_of in Hlcom.
  rewrite lcom_counts_pairs in Hlcom |- *.
  rewrite tcc_counts_pairs in Htcc, Htotal |- *. cbv zeta in *.
  simpl in Htotal. injection Htcc as Hconn _.
  split_and!; [done|done|done|done|done|].
  rewrite Hlcom.
  destruct (Z.ltb_spec
              (Z.of_nat (length (filter (λ p, sharing attributes p = false)
                                   (index_pairs (length attributes))))
               - Z.of_nat (length (filter (λ p, sharing attributes p = true)
                                     (index_pairs (length attributes))))) 0);
    lia.
Qed.

(** X8: in every class record LCOM is not negative, TCC lies between 0 and
    1, and there are no more methods than body statements. *)
Theorem class_record_invariants (rel_file : str) (cls : node) :
  (0 ≤ lcom (class_entry rel_file cls))%Z
  ∧ (0 <= tcc (class_entry rel_file cls))%Q
  ∧ (tcc (class_entry rel_file cls) <= 1)%Q
  ∧ methods (class_entry rel_file cls) ≤ loc (class_entry rel_file cls).
Proof.
  destruct (cohesion_bounds rel_file cls) as (Hlcom & Htcc0 & Htcc1).
  split_and!; [done|done|done|]. simpl. apply length_filter.
Qed.

(** X10: what counts is the number of method names that access instance
    attributes, not the number of methods: a class in which all the methods
    that access an attribute bear one name has LCOM 0 and TCC 1.0, however
    many methods it has. *)
Theorem one_attribute_method_name_means_full_cohesion
    (rel_file : str) (cls : node) :
  (∀ m1 m2, m1 ∈ methods_of cls → m2 ∈ methods_of cls →
     Spec.method_attrs m1 ≠ ∅ → Spec.method_attrs m2 ≠ ∅ →
     def_name m1 = def_name m2) →
  lcom (class_entry rel_file cls) = 0%Z ∧ tcc (class_entry rel_file cls) = 1%Q.
Proof.
  intros Hone. simpl. apply few_keys.
  destruct (collect_attributes_keys (methods_of cls)) as [Hnd Hin].
  destruct ((collect_attributes (methods_of cls)).*1) as [|k1 [|k2 ks]] eqn:Hk;
    rewrite <- (length_fmap fst), Hk; [simpl; lia..|].
  exfalso.
  destruct (Hin k1) as (m1 & Hm1 & Hn1 & Ha1); [left|].
  destruct (Hin k2) as (m2 & Hm2 & Hn2 & Ha2); [right; left|].
  apply NoDup_cons in Hnd as [Hnot _]. apply Hnot.
  assert (k1 = k2) as -> by (rewrite <- Hn1, <- Hn2; by apply Hone). left.
Qed.

(** X11: where the methods of a class have distinct names and each of them
    accesses an instance attribute, the loops count the pairs of methods as
    the specification words it: every unordered pair of methods once, the
    disjoint and the connected ones, and LCOM and TCC follow. *)
Theorem cohesion_as_worded_without_silent_methods
    (rel_file : str) (cls : node) :
  NoDup (def_name <$> methods_of cls) →
  (∀ method, method ∈ methods_of cls → Spec.method_attrs method ≠ ∅) →
  let attributes := collect_attributes (methods_of cls) in
  tcc_counts attributes = (Spec.connected cls, Spec.total cls)
  ∧ lcom_counts attributes = (Spec.disjoint cls, Spec.connected cls)
  ∧ Spec.total cls
    = methods (class_entry rel_file cls)
      * (methods (class_entry rel_file cls) - 1) / 2
  ∧ lcom (class_entry rel_file cls) = Spec.lcom cls
  ∧ tcc (class_entry rel_file cls) = Spec.tcc cls.
Proof.
  intros Hnd Hall attributes.
  pose proof (collect_attributes_all _ Hnd Hall) as Hd. fold attributes in Hd.
  assert (Hk : NoDup attributes.*1).
  { rewrite Hd, <- list_fmap_compose. exact Hnd. }
  assert (H2 : attributes.*2 = Spec.method_attrs <$> methods_of cls).
  { rewrite Hd, <- list_fmap_compose. done. }
  destruct (counts_over_dictionary attributes Hk) as [Htcc Hlcom].
  rewrite H2 in Htcc, Hlcom.
  assert (Htotal : Spec.total cls = length (methods_of cls)
                                    * (length (methods_of cls) - 1) / 2).
  { pose proof (tcc_total_keys attributes) as Ht. rewrite Htcc in Ht.
    simpl in Ht. unfold Spec.total, Spec.method_pairs. rewrite Ht.
    by rewrite Hd, length_fmap. }
  split_and!; [done|done|done| |].
  - simpl. fold attributes. unfold lcom_of. rewrite Hlcom.
    unfold Spec.lcom, Spec.disjoint, Spec.connected, Spec.method_pairs.
    match goal with
    | |- context [Z.ltb ?a ?b] => destruct (Z.ltb_spec a b)
    end; lia.
  - simpl. fold attributes. unfold tcc_of. rewrite Htcc.
    unfold Spec.tcc, Spec.total, Spec.connected, Spec.method_pairs.
    by destruct (length (Spec.unordered_pairs _)).
Qed.

Lemma imported_fold (name : str) (l : list node) (s : gset str) (id : str) :
  id ∈ foldl (λ s subnode,
                match subnode with
                | Name id _ => if decide (id ≠ name) then {[id]} ∪ s else s
                | _ => s
                end) s l
  ↔ id ∈ s ∨ (id ≠ name ∧ ∃ ctx, Name id ctx ∈ l).
Proof.
  revert s. induction l as [|n l IH]; intros s.
  - simpl. split; [by left|]. intros [?|(_ & ctx & []%elem_of_nil)]. done.
  - simpl foldl. rewrite IH. split.
    + intros [Hs|(Hne & ctx & Hin)].
      * destruct n as [| | | | |id' ctx'|]; try by left.
        destruct (decide (id' ≠ name)); [|by left].
        apply elem_of_union in Hs as [->%elem_of_singleton|Hs]; [|by left].
        right. split; [done|]. exists ctx'. left.
      * right. split; [done|]. exists ctx. by right.
    + intros [Hs|(Hne & ctx & [<-|Hin]%elem_of_cons)].
      * left. destruct n as [| | | | |id' ctx'|]; try done.
        destruct (decide (id' ≠ name)); set_solver.
      * left. rewrite decide_True by done. set_solver.
      * right. eauto.
Qed.

(** X15: CBO is the number of distinct identifiers that a [Name] node
    anywhere beneath the class node bears (base classes and decorators, method
    bodies, names read or assigned), the own name of the class left out: the
    class never counts itself, and an identifier used many times counts
    once. *)
Theorem cbo_counts_distinct_names (rel_file : str) (cls : node) :
  cbo (class_entry rel_file cls) = size (imported_classes cls)
  ∧ (∀ id, id ∈ imported_classes cls ↔
       id ≠ def_name cls ∧ ∃ ctx, descendant cls (Name id ctx))
  ∧ def_name cls ∉ imported_classes cls.
Proof.
  assert (H : ∀ id, id ∈ imported_classes cls ↔
            id ≠ def_name cls ∧ ∃ ctx, descendant cls (Name id ctx)).
  { intros id. unfold imported_classes. rewrite imported_fold. split.
    - intros [[]%elem_of_empty|(Hne & ctx & Hin)].
      split; [done|]. exists ctx. by apply walk_descendant.
    - intros (Hne & ctx & Hd). right. split; [done|]. exists ctx.
      by apply walk_descendant. }
  split; [reflexivity|]. split; [exact H|]. intros [Hne _]%H. done.
Qed.

(** Witnesses at the example classes. *)

Lemma cohesion_few_methods_witness :
  methods (class_entry [] Example.bar_nested) ≤ 1
  ∧ lcom (class_entry [] Example.bar_nested) = 0%Z
  ∧ tcc (class_entry [] Example.bar_nested) = 1%Q.
Proof.
  split; [vm_compute; lia|].
  apply (cohesion_few_methods [] Example.bar_nested). vm_compute. lia.
Defined.

Lemma one_attribute_method_name_means_full_cohesion_witness :
  (∀ m1 m2, m1 ∈ methods_of Example.foo_one_silent →
     m2 ∈ methods_of Example.foo_one_silent →
     Spec.method_attrs m1 ≠ ∅ → Spec.method_attrs m2 ≠ ∅ →
     def_name m1 = def_name m2)
  ∧ lcom (class_entry [] Example.foo_one_silent) = 0%Z
  ∧ tcc (class_entry [] Example.foo_one_silent) = 1%Q.
Proof.
  assert (H : ∀ m1 m2, m1 ∈ methods_of Example.foo_one_silent →
            m2 ∈ methods_of Example.foo_one_silent →
            Spec.method_attrs m1 ≠ ∅ → Spec.method_attrs m2 ≠ ∅ →
            def_name m1 = def_name m2).
  { intros m1 m2 H1 H2 Ha1 Ha2.
    change (methods_of Example.foo_one_silent)
      with [Example.method "a" [Example.ret_stmt (Example.self_dot "x")];
            Example.method "b" [Example.ret_stmt Example.one]] in H1, H2.
    apply elem_of_cons in H1 as [-> | H1%list_elem_of_singleton];
      apply elem_of_cons in H2 as [-> | H2%list_elem_of_singleton];
      subst; try reflexivity; exfalso;
      (apply Ha1; vm_compute; reflexivity)
      || (apply Ha2; vm_compute; reflexivity). }
  split; [exact H|].
  exact (one_attribute_method_name_means_full_cohesion
           [] Example.foo_one_silent H).
Defined.

Lemma cohesion_as_worded_without_silent_methods_witness :
  NoDup (def_name <$> methods_of Example.foo_sharing)
  ∧ (∀ method, method ∈ methods_of Example.foo_sharing →
       Spec.method_attrs method ≠ ∅)
  ∧ (let attributes := collect_attributes (methods_of Example.foo_sharing) in
     tcc_counts attributes
     = (Spec.connected Example.foo_sharing, Spec.total Example.foo_sharing)
     ∧ lcom_counts attributes
       = (Spec.disjoint Example.foo_sharing, Spec.connected Example.foo_sharing)
     ∧ Spec.total Example.foo_sharing
       = methods (class_entry [] Example.foo_sharing)
         * (methods (class_entry [] Example.foo_sharing) - 1) / 2
     ∧ lcom (class_entry [] Example.foo_sharing) = Spec.lcom Example.foo_sharing
     ∧ tcc (class_entry [] Example.foo_sharing) = Spec.tcc Example.foo_sharing).
Proof.
  assert (Hnd : NoDup (def_name <$> methods_of Example.foo_sharing)).
  { change (NoDup [lit "a"; lit "b"]). apply NoDup_cons. split.
    - intros H%list_elem_of_singleton. discriminate H.
    - apply NoDup_singleton. }
  assert (Hall : ∀ method, method ∈ methods_of Example.foo_sharing →
                   Spec.method_attrs method ≠ ∅).
  { intros method Hm.
    change (methods_of Example.foo_sharing)
      with [Example.method "a" [Example.ret_stmt (Example.self_dot "x")];
            Example.method "b"
              [Example.ret_stmt
                 (Other [Example.self_dot "x"; Example.self_dot "y"])]] in Hm.
    apply elem_of_cons in Hm as [-> | ->%list_elem_of_singleton];
      intros He; vm_compute in He; discriminate He. }
  split; [exact Hnd|]. split; [exact Hall|].
  exact (cohesion_as_worded_without_silent_methods
           [] Example.foo_sharing Hnd Hall).
Defined.

Lemma silent_method_shrinks_total_witness :
  Example.method "b" [Example.ret_stmt Example.one]
    ∈ methods_of Example.foo_one_silent
  ∧ Spec.method_attrs (Example.method "b" [Example.ret_stmt Example.one]) = ∅
  ∧ 2 ≤ length (methods_of Example.foo_one_silent)
  ∧ (tcc_counts (collect_attributes (methods_of Example.foo_one_silent))).2
    < length (methods_of Example.foo_one_silent)
      * (length (methods_of Example.foo_one_silent) - 1) / 2.
Proof.
  assert (Hin : Example.method "b" [Example.ret_stmt Example.one]
                  ∈ methods_of Example.foo_one_silent) by (right; left).
  assert (He : Spec.method_attrs
                 (Example.method "b" [Example.ret_stmt Example.one]) = ∅)
    by (vm_compute; reflexivity).
  assert (Hn : 2 ≤ length (methods_of Example.foo_one_silent))
    by (simpl; lia).
  split; [exact Hin|]. split; [exact He|]. split; [exact Hn|].
  exact (silent_method_shrinks_total Example.foo_one_silent _ Hin He Hn).
Defined.

Lemma tcc_two_sharing_methods_witness :
  methods_of Example.foo_sharing
  = [Example.method "a" [Example.ret_stmt (Example.self_dot "x")];
     Example.method "b"
       [Example.ret_stmt (Other [Example.self_dot "x"; Example.self_dot "y"])]]
  ∧ Spec.method_attrs
      (Example.method "a" [Example.ret_stmt (Example.self_dot "x")])
    ∩ Spec.method_attrs
        (Example.method "b"
           [Example.ret_stmt
              (Other [Example.self_dot "x"; Example.self_dot "y"])]) ≠ ∅
  ∧ tcc (class_entry [] Example.foo_sharing) = 1%Q.
Proof.
  assert (Hshare :
    Spec.method_attrs
      (Example.method "a" [Example.ret_stmt (Example.self_dot "x")])
    ∩ Spec.method_attrs
        (Example.method "b"
           [Example.ret_stmt
              (Other [Example.self_dot "x"; Example.self_dot "y"])]) ≠ ∅).
  { intros He. vm_compute in He. discriminate He. }
  split; [reflexivity|]. split; [exact Hshare|].
  exact (tcc_two_sharing_methods [] Example.foo_sharing _ _ eq_refl Hshare).
Defined.

Lemma cohesion_two_disjoint_methods_witness :
  methods_of Example.foo_disjoint
  = [Example.method "a" [Example.ret_stmt (Example.self_dot "a")];
     Example.method "b" [Example.ret_stmt (Example.self_dot "b")]]
  ∧ def_name (Example.method "a" [Example.ret_stmt (Example.self_dot "a")])
    ≠ def_name (Example.method "b" [Example.ret_stmt (Example.self_dot "b")])
  ∧ Spec.method_attrs
      (Example.method "a" [Example.ret_stmt (Example.self_dot "a")]) ≠ ∅
  ∧ Spec.method_attrs
      (Example.method "b" [Example.ret_stmt (Example.self_dot "b")]) ≠ ∅
  ∧ Spec.method_attrs
      (Example.method "a" [Example.ret_stmt (Example.self_dot "a")])
    ∩ Spec.method_attrs
        (Example.method "b" [Example.ret_stmt (Example.self_dot "b")]) = ∅
  ∧ tcc (class_entry [] Example.foo_disjoint) = 0%Q
  ∧ lcom (class_entry [] Example.foo_disjoint) = 1%Z.
Proof.
  assert (Hne : def_name
                  (Example.method "a" [Example.ret_stmt (Example.self_dot "a")])
                ≠ def_name
                    (Example.method "b"
                       [Example.ret_stmt (Example.self_dot "b")]))
    by discriminate.
  assert (H1 : Spec.method_attrs
                 (Example.method "a" [Example.ret_stmt (Example.self_dot "a")])
               ≠ ∅)
    by (intros He; vm_compute in He; discriminate He).
  assert (H2 : Spec.method_attrs
                 (Example.method "b" [Example.ret_stmt (Example.self_dot "b")])
               ≠ ∅)
    by (intros He; vm_compute in He; discriminate He).
  assert (Hd : Spec.method_attrs
                 (Example.method "a" [Example.ret_stmt (Example.self_dot "a")])
               ∩ Spec.method_attrs
                   (Example.method "b"
                      [Example.ret_stmt (Example.self_dot "b")]) = ∅)
    by (vm_compute; reflexivity).
  split; [reflexivity|]. split; [exact Hne|]. split; [exact H1|].
  split; [exact H2|]. split; [exact Hd|].
  exact (cohesion_two_disjoint_methods [] Example.foo_disjoint _ _
           eq_refl Hne H1 H2 Hd).
Defined.

(** ** History of a class *)

Lemma split1_author (rest : str) :
  split1 (lit "Author:" ++ rest) 58%N = [lit "Author"; rest].
Proof. reflexivity. Qed.

Lemma author_line_is_no_delta (line : str) :
  startswith line (lit "Author:") = true →
  startswith line (lit "+") = false ∧ startswith line (lit "-") = false.
Proof. intros [rest ->]%startswith_spec. split; reflexivity. Qed.

Lemma scan_line_closed_form (line : str) (a d : nat) (au : gset str) :
  scan_line (a, d, au) line
  = mret
      (a + (if startswith line (lit "+") && negb (startswith line (lit "+++"))
            then 1 else 0),
       d + (if startswith line (lit "-") && negb (startswith line (lit "---"))
            then 1 else 0),
       (if startswith line (lit "Author:")
        then {[strip (drop 7 line)]} else ∅) ∪ au).
Proof.
  unfold scan_line. destruct (startswith line (lit "Author:")) eqn:Hauth.
  - destruct (author_line_is_no_delta line Hauth) as [-> ->].
    apply startswith_spec in Hauth as [rest ->].
    rewrite split1_author. simpl. rewrite !Nat.add_0_r. reflexivity.
  - rewrite (left_id_L ∅ (∪)).
    destruct (startswith line (lit "+") && negb (startswith line (lit "+++")))
      eqn:Hadd.
    + assert (Hminus : startswith line (lit "-") = false).
      { apply andb_true_iff in Hadd as [[rest ->]%startswith_spec _].
        reflexivity. }
      rewrite Hminus. simpl. rewrite Nat.add_0_r, Nat.add_1_r. reflexivity.
    + destruct (startswith line (lit "-")
                && negb (startswith line (lit "---")));
        rewrite ?Nat.add_0_r, ?Nat.add_1_r; reflexivity.
Qed.

Lemma scan_closed_form (lines : list str) (a d : nat) (au : gset str) :
  for_each lines scan_line (a, d, au)
  = mret
      (a + length (filter (λ line, startswith line (lit "+")
                                   && negb (startswith line (lit "+++")) = true)
                          lines),
       d + length (filter (λ line, startswith line (lit "-")
                                   && negb (startswith line (lit "---")) = true)
                          lines),
       list_to_set
         (omap (λ line, if startswith line (lit "Author:")
                        then Some (strip (drop 7 line)) else None) lines)
       ∪ au).
Proof.
  revert a d au. induction lines as [|line lines IH]; intros a d au.
  - simpl. rewrite !Nat.add_0_r, (left_id_L ∅ (∪)). reflexivity.
  - change (for_each (line :: lines) scan_line (a, d, au))
      with (scan_line (a, d, au) line ≫= for_each lines scan_line).
    rewrite scan_line_closed_form, bind_ret_l, IH.
    f_equal. f_equal; [f_equal|].
    + destruct (startswith line (lit "+")
                && negb (startswith line (lit "+++"))) eqn:H.
      * rewrite filter_cons_True by done. simpl. lia.
      * rewrite filter_cons_False by (rewrite H; done). lia.
    + destruct (startswith line (lit "-")
                && negb (startswith line (lit "---"))) eqn:H.
      * rewrite filter_cons_True by done. simpl. lia.
      * rewrite filter_cons_False by (rewrite H; done). lia.
    + simpl omap. destruct (startswith line (lit "Author:")); simpl; set_solver.
Qed.

Section History_facts.

Variable W : World.

(** X16: when [git] exits with status 0, the history miner returns a record
    and raises nothing (the subscript of line 149 is always in range).
    [changes] is the number of occurrences of the word [commit] in the
    output; [lines_added] is the number of output lines that start with [+]
    but not with [+++], [lines_deleted] the same with [-]; [authors] holds,
    for every line that starts with [Author:], the rest of that line without
    the white space around it. *)
Theorem history_of_a_tracked_class
    (file_path class_name repo_path stdout : str) :
  let args := git_log_args class_name (relpath W file_path repo_path) in
  let lines := splitlines stdout in
  let changes := count stdout (lit "commit") in
  let lines_added :=
    length (filter (λ line, startswith line (lit "+")
                            && negb (startswith line (lit "+++")) = true)
                   lines) in
  let lines_deleted :=
    length (filter (λ line, startswith line (lit "-")
                            && negb (startswith line (lit "---")) = true)
                   lines) in
  run_process W args (Some repo_path) = Exited 0 stdout →
  get_class_git_stats W file_path class_name repo_path
  = Run [Ev_run args (Some repo_path)]
        (Ok {| changes := changes;
               lines_added := lines_added;
               lines_deleted := lines_deleted;
               authors :=
                 list_to_set
                   (omap (λ line, if startswith line (lit "Author:")
                                  then Some (strip (drop 7 line)) else None)
                         lines);
               nlc := if 0 <? changes
                      then Float.round
                             (truediv (lines_added + lines_deleted) changes) 2
                      else 0%Q |}).
Proof.
  intros args lines changes lines_added lines_deleted Hrun.
  rewrite get_class_git_stats_unfold. fold args. cbv zeta. rewrite Hrun.
  unfold reduce_log. rewrite scan_closed_form, bind_ret_l. simpl.
  by rewrite (right_id_L ∅ (∪)).
Qed.

(** X17: an author identity never carries white space at its ends. *)
Theorem authors_are_stripped
    (file_path class_name repo_path : str) (st : git_stats) (author : str) :
  outcome (get_class_git_stats W file_path class_name repo_path) = Ok st →
  author ∈ authors st →
  (∀ c, head author = Some c → is_space c = false)
  ∧ (∀ c, last author = Some c → is_space c = false).
Proof.
  rewrite get_class_git_stats_unfold. cbv zeta.
  assert (Hzero : Ok no_history = Ok st → author ∈ authors st → False).
  { intros [= <-] Hin. simpl in Hin. set_solver. }
  destruct (run_process W _ _) as [[| |] stdout|e]; simpl;
    try (intros H1 H2; by destruct (Hzero H1 H2)).
  - unfold reduce_log. rewrite scan_closed_form, bind_ret_l. simpl.
    intros [= <-]. simpl. rewrite (right_id_L ∅ (∪)), elem_of_list_to_set.
    intros (line & Hline & Hauth)%list_elem_of_omap.
    destruct (startswith line (lit "Author:")); [|done].
    injection Hauth as <-. unfold strip.
    destruct (strip_by_spec is_space (drop 7 line))
      as (pre & post & _ & _ & _ & Hhead & Hlast). done.
  - destruct e; simpl; try discriminate.
    intros H1 H2. by destruct (Hzero H1 H2).
Qed.

(** X18: nothing but a non-zero exit status is recovered: any other failure
    to run [git] (the program is missing, the working directory does not
    exist, the output cannot be decoded) ends the history miner with that
    exception. *)
Theorem other_history_errors_propagate
    (file_path class_name repo_path : str) (e : exn) :
  let args := git_log_args class_name (relpath W file_path repo_path) in
  run_process W args (Some repo_path) = Not_run e →
  (∀ returncode, e ≠ CalledProcessError returncode) →
  get_class_git_stats W file_path class_name repo_path
  = Run [Ev_run args (Some repo_path)] (Raise e).
Proof.
  intros args Hrun He. rewrite get_class_git_stats_unfold. fold args.
  cbv zeta. rewrite Hrun. destruct e; try reflexivity. by destruct (He returncode).
Qed.

End History_facts.

Lemma history_of_a_tracked_class_witness :
  let W := Example.world in
  let args := git_log_args (lit "Foo")
                (relpath W (lit "repo/a.py") (lit "repo")) in
  let lines := splitlines Example.log_text in
  let changes := count Example.log_text (lit "commit") in
  let lines_added :=
    length (filter (λ line, startswith line (lit "+")
                            && negb (startswith line (lit "+++")) = true)
                   lines) in
  let lines_deleted :=
    length (filter (λ line, startswith line (lit "-")
                            && negb (startswith line (lit "---")) = true)
                   lines) in
  run_process W args (Some (lit "repo")) = Exited 0 Example.log_text
  ∧ get_class_git_stats W (lit "repo/a.py") (lit "Foo") (lit "repo")
    = Run [Ev_run args (Some (lit "repo"))]
        (Ok {| changes := changes;
               lines_added := lines_added;
               lines_deleted := lines_deleted;
               authors :=
                 list_to_set
                   (omap (λ line, if startswith line (lit "Author:")
                                  then Some (strip (drop 7 line)) else None)
                         lines);
               nlc := if 0 <? changes
                      then Float.round
                             (truediv (lines_added + lines_deleted) changes) 2
                      else 0%Q |}).
Proof.
  intros W args lines changes lines_added lines_deleted.
  split; [reflexivity|].
  apply (history_of_a_tracked_class Example.world
           (lit "repo/a.py") (lit "Foo") (lit "repo") Example.log_text).
  reflexivity.
Defined.

Lemma authors_are_stripped_witness :
  outcome (get_class_git_stats Example.world
             (lit "repo/a.py") (lit "Foo") (lit "repo")) = Ok Example.log_stats
  ∧ lit "Ann <ann@example.org>" ∈ authors Example.log_stats
  ∧ (∀ c, head (lit "Ann <ann@example.org>") = Some c → is_space c = false)
  ∧ (∀ c, last (lit "Ann <ann@example.org>") = Some c → is_space c = false).
Proof.
  assert (Hst : outcome (get_class_git_stats Example.world
                           (lit "repo/a.py") (lit "Foo") (lit "repo"))
                = Ok Example.log_stats) by (vm_compute; reflexivity).
  assert (Hin : lit "Ann <ann@example.org>" ∈ authors Example.log_stats)
    by (unfold Example.log_stats; cbn [authors];
        apply elem_of_singleton; reflexivity).
  split; [exact Hst|]. split; [exact Hin|].
  exact (authors_are_stripped Example.world _ _ _ _ _ Hst Hin).
Defined.

Lemma other_history_errors_propagate_witness :
  let W := Example.world_without_git in
  let args := git_log_args (lit "Foo")
                (relpath W (lit "repo/a.py") (lit "repo")) in
  run_process W args (Some (lit "repo")) = Not_run OSError
  ∧ (∀ returncode, OSError ≠ CalledProcessError returncode)
  ∧ get_class_git_stats W (lit "repo/a.py") (lit "Foo") (lit "repo")
    = Run [Ev_run args (Some (lit "repo"))] (Raise OSError).
Proof.
  intros W args. split; [reflexivity|]. split; [discriminate|].
  apply (other_history_errors_propagate Example.world_without_git
           (lit "repo/a.py") (lit "Foo") (lit "repo") OSError);
    [reflexivity|discriminate].
Defined.

Section Nonnegative.

Local Open Scope Q_scope.

Lemma binary64_nonneg (q : Q) : 0 <= q → 0 <= binary64 q.
Proof.
  intros H0. unfold binary64.
  assert (Hq := Qred_correct q). revert Hq.
  generalize (Qred q) as q'. intros q' Hq. rewrite <- Hq in H0. clear q Hq.
  destruct q' as [[|n|n] d]; simpl.
  - done.
  - rewrite Qred_correct. unfold binary64_abs.
    apply Qmult_le_0_compat; [|apply Qlt_le_weak, pow2_pos].
    rewrite <- (Zle_Qle 0). apply round_half_even_lower.
    apply Qle_shift_div_l; [apply pow2_pos|]. by rewrite Qmult_0_l.
  - exfalso. by apply H0.
Qed.

Lemma round_nonneg (x : float) (ndigits : nat) :
  0 <= x → 0 <= Float.round x ndigits.
Proof.
  intros H0. unfold Float.round.
  set (s := (10 ^ Z.of_nat ndigits)%Z).
  assert (Hs : (0 < s)%Z) by (apply Z.pow_pos_nonneg; lia).
  assert (Hs' : 0 < inject_Z s) by (rewrite <- (Zlt_Qlt 0); lia).
  apply binary64_nonneg. apply Qle_shift_div_l; [done|]. rewrite Qmult_0_l.
  rewrite <- (Zle_Qle 0). apply round_half_even_lower.
  apply Qmult_le_0_compat; [done|by apply Qlt_le_weak].
Qed.

Lemma truediv_nonneg (a b : nat) : (0 < b)%nat → 0 <= truediv a b.
Proof.
  intros Hb. unfold truediv. apply binary64_nonneg.
  apply Qle_shift_div_l; [rewrite <- (Zlt_Qlt 0); lia|].
  rewrite Qmult_0_l. rewrite <- (Zle_Qle 0). lia.
Qed.

(** X19: the NLC of a history record is never negative. *)
Theorem nlc_is_not_negative (W : World)
    (file_path class_name repo_path : str) (st : git_stats) :
  outcome (get_class_git_stats W file_path class_name repo_path) = Ok st →
  0 <= nlc st.
Proof.
  intros [Hpos Hzero]%miner_keeps_nlc_invariant.
  destruct (changes st) as [|n] eqn:Hch.
  - rewrite Hzero by done. discriminate.
  - rewrite Hpos by lia. apply round_nonneg, truediv_nonneg. lia.
Qed.

End Nonnegative.

Lemma nlc_is_not_negative_witness :
  outcome (get_class_git_stats Example.world
             (lit "repo/a.py") (lit "Foo") (lit "repo")) = Ok Example.log_stats
  ∧ (0 <= nlc Example.log_stats)%Q.
Proof.
  assert (Hst : outcome (get_class_git_stats Example.world
                           (lit "repo/a.py") (lit "Foo") (lit "repo"))
                = Ok Example.log_stats) by (vm_compute; reflexivity).
  split; [exact Hst|].
  exact (nlc_is_not_negative Example.world _ _ _ _ Hst).
Defined.

(** ** Name collisions in the dependency graph *)

Section Joiner_facts.

Variable W : World.

Lemma fan_table_last (G : DiGraph) (l1 l2 : list str) (n : str)
    (m : gmap str (gmap str nat)) :
  let step := λ (fan_data : gmap str (gmap str nat)) node,
    <[clean_name node :=
        <[lit "fan_out" := length (successors G node)]>
          {[lit "fan_in" := length (predecessors G node)]}]> fan_data in
  (∀ n', n' ∈ l2 → clean_name n' ≠ clean_name n) →
  foldl step m (l1 ++ n :: l2) !! clean_name n
  = Some (<[lit "fan_out" := length (successors G n)]>
            {[lit "fan_in" := length (predecessors G n)]}).
Proof.
  intros step Hl2. rewrite foldl_app. simpl foldl.
  destruct (fan_table_lookup G l2 (step (foldl step m l1) n) (clean_name n))
    as [[Heq _]|(n' & Hin & Hc & _)].
  - etransitivity; [exact Heq|]. unfold step at 1. apply lookup_insert_eq.
  - by destruct (Hl2 n' Hin).
Qed.

(** X20: graph nodes that share a bare name are not told apart: the entry of
    the name holds the counts of the last such node in the graph, and every
    class record of that name is joined with these counts, whichever file the
    class stands in. *)
Theorem last_node_of_a_bare_name_wins
    (dot_file : str) (G : DiGraph) (l1 l2 : list str) (n : str) :
  read_dot W dot_file = Ok G →
  nodes G = l1 ++ n :: l2 →
  (∀ n', n' ∈ l2 → clean_name n' ≠ clean_name n) →
  ∃ fan_data,
    outcome (compute_fan_in_out W dot_file) = Ok fan_data
    ∧ ∀ r : entry, class r.1 = clean_name n →
        row_fan_in (csv_row_of fan_data r) = length (predecessors G n)
        ∧ row_fan_out (csv_row_of fan_data r) = length (successors G n).
Proof.
  intros Hread Hnodes Hlast. unfold compute_fan_in_out. rewrite Hread.
  eexists. split; [reflexivity|]. intros r Hr. simpl. rewrite Hr, Hnodes.
  pose proof (fan_table_last G l1 l2 n ∅ Hlast) as Hlookup. cbv zeta in Hlookup.
  by apply fan_get_entry in Hlookup as [].
Qed.

End Joiner_facts.

Lemma last_node_of_a_bare_name_wins_witness :
  read_dot Example.world_collision (lit "classes_repo.dot")
  = Ok Example.graph_collision
  ∧ nodes Example.graph_collision = [lit "a.Foo"; lit "Bar"] ++ lit "b.Foo" :: []
  ∧ (∀ n', n' ∈ [] → clean_name n' ≠ clean_name (lit "b.Foo"))
  ∧ ∃ fan_data,
    outcome (compute_fan_in_out Example.world_collision (lit "classes_repo.dot"))
    = Ok fan_data
    ∧ ∀ r : entry, class r.1 = clean_name (lit "b.Foo") →
        row_fan_in (csv_row_of fan_data r)
        = length (predecessors Example.graph_collision (lit "b.Foo"))
        ∧ row_fan_out (csv_row_of fan_data r)
          = length (successors Example.graph_collision (lit "b.Foo")).
Proof.
  assert (Hl : ∀ n' : str, n' ∈ [] → clean_name n' ≠ clean_name (lit "b.Foo")).
  { intros n' Hn'. by apply elem_of_nil in Hn'. }
  split; [reflexivity|]. split; [reflexivity|]. split; [exact Hl|].
  exact (last_node_of_a_bare_name_wins Example.world_collision
           (lit "classes_repo.dot") Example.graph_collision
           [lit "a.Foo"; lit "Bar"] [] (lit "b.Foo") eq_refl eq_refl Hl).
Defined.

(** ** The course of a run *)

Section Run_facts.

Variable W : World.

Lemma trace_bind_Forall {A B} (P : event → Prop) (m : M A) (f : A → M B) :
  Forall P (trace m) → (∀ a, Forall P (trace (f a))) →
  Forall P (trace (m ≫= f)).
Proof.
  intros Hm Hf. rewrite bind_unfold. destruct (outcome m); simpl; [|done].
  apply Forall_app. split; [done|apply Hf].
Qed.

Lemma trace_for_each_Forall {A St} (P : event → Prop) (xs : list A)
    (body : St → A → M St) (s : St) :
  (∀ s x, Forall P (trace (body s x))) →
  Forall P (trace (for_each xs body s)).
Proof.
  intros Hbody. revert s. induction xs as [|x xs IH]; intros s; simpl.
  - constructor.
  - apply trace_bind_Forall; [apply Hbody|apply IH].
Qed.

(** Extraction does one read, a history query runs one process. *)
Lemma extract_class_metrics_trace (file_path repo_path : str) :
  trace (extract_class_metrics W file_path repo_path) = [Ev_read file_path].
Proof.
  unfold extract_class_metrics, lift, try_except. rewrite !bind_unfold. simpl.
  destruct (open_read W file_path) as [code|e]; simpl; [|done].
  destruct (ast_parse W code) as [tree|[]]; reflexivity.
Qed.

Lemma get_class_git_stats_trace (file_path class_name repo_path : str) :
  trace (get_class_git_stats W file_path class_name repo_path)
  = [Ev_run (git_log_args class_name (relpath W file_path repo_path))
       (Some repo_path)].
Proof.
  rewrite get_class_git_stats_unfold. cbv zeta.
  destruct (run_process W _ _) as [[| |] stdout|[]]; try reflexivity.
  destruct (reduce_log_returns stdout) as (st & -> & _). reflexivity.
Qed.

Lemma run_pyreverse_unfold (target_path project_name : str) :
  let args := [lit "pyreverse"; lit "-o"; lit "dot"; lit "-p";
               project_name; target_path] in
  run_pyreverse W target_path project_name
  = Run [Ev_print ([10; 9851; 65039]%N ++ lit " Running pyreverse on: "
                     ++ target_path);
         Ev_run args None]
        match run_process W args None with
        | Exited 0 _ => Ok ()
        | Exited returncode _ => Raise (CalledProcessError returncode)
        | Not_run e => Raise e
        end.
Proof.
  intros args. unfold run_pyreverse, subprocess_run_check. fold args.
  rewrite !bind_unfold. simpl.
  destruct (run_process W args None) as [[| |] ?|]; reflexivity.
Qed.

Lemma compute_fan_in_out_trace (dot_file : str) :
  trace (compute_fan_in_out W dot_file)
  = [Ev_print (lit "computing fan-in and fan-out using dot file: " ++ dot_file);
     Ev_read_dot dot_file].
Proof.
  unfold compute_fan_in_out, lift. rewrite !bind_unfold. simpl.
  destruct (read_dot W dot_file); reflexivity.
Qed.

Lemma for_each_emit {A} (g : A → event) (xs : list A) :
  for_each xs (λ _ x, emit (g x)) () = Run (g <$> xs) (Ok ()).
Proof.
  induction xs as [|x xs IH]; [done|].
  change (for_each (x :: xs) (λ _ x, emit (g x)) ())
    with (emit (g x) ≫= λ _, for_each xs (λ _ x, emit (g x)) ()).
  rewrite IH, bind_unfold. reflexivity.
Qed.

Lemma print_rows_run (fan_data : gmap str (gmap str nat)) (results : list entry) :
  for_each results
    (λ _ r,
       let fan_in := fan_get fan_data (class r.1) (lit "fan_in") in
       let fan_out := fan_get fan_data (class r.1) (lit "fan_out") in
       emit (Ev_print_row r fan_in fan_out))
    ()
  = Run ((λ r, Ev_print_row r (fan_get fan_data (class r.1) (lit "fan_in"))
                 (fan_get fan_data (class r.1) (lit "fan_out")))
           <$> results)
        (Ok ()).
Proof. apply for_each_emit. Qed.

(** The inner loop of lines 223-226 appends one entry per class, with the
    answer of the history miner. *)
Lemma class_loop_results (file_path repo_path : str)
    (classes : list class_metrics) (acc res : list entry) :
  outcome (for_each classes
             (λ results cls,
                stats ← get_class_git_stats W file_path (class cls) repo_path;
                mret (results ++ [(cls, stats)]))
             acc) = Ok res →
  ∃ new, res = acc ++ new ∧ new.*1 = classes
         ∧ Forall (λ r : entry,
                     outcome (get_class_git_stats W file_path (class r.1)
                                repo_path) = Ok r.2) new.
Proof.
  revert acc. induction classes as [|cls classes IH]; intros acc Hres.
  - simpl in Hres. injection Hres as <-. exists []. by rewrite app_nil_r.
  - simpl in Hres. apply bind_outcome_Ok in Hres as (acc' & Hstep & Hres).
    apply bind_outcome_Ok in Hstep as (stats & Hstats & Hstep).
    simpl in Hstep. injection Hstep as <-.
    apply IH in Hres as (new & -> & Hnew & Hall).
    exists ((cls, stats) :: new). rewrite <- app_assoc. split; [done|].
    split; [by rewrite fmap_cons, Hnew|]. by constructor.
Qed.

(** The loop of lines 221-226 turns the files, in order, into the entries of
    their classes: the group of a file holds its classes, in order, each with
    the history mined for it in that file. *)
Lemma file_loop_results (repo_path : str) (files : list str)
    (acc res : list entry) :
  outcome (for_each files
             (λ results file_path,
                classes ← extract_class_metrics W file_path repo_path;
                for_each classes
                  (λ results cls,
                     stats ← get_class_git_stats W file_path (class cls)
                               repo_path;
                     mret (results ++ [(cls, stats)]))
                  results)
             acc) = Ok res →
  ∃ groups : list (list entry),
    res = acc ++ concat groups
    ∧ Forall2 (λ file (group : list entry),
                 outcome (extract_class_metrics W file repo_path)
                 = Ok group.*1
                 ∧ Forall (λ r : entry,
                             outcome (get_class_git_stats W file (class r.1)
                                        repo_path) = Ok r.2) group)
              files groups.
Proof.
  revert acc. induction files as [|file files IH]; intros acc Hres.
  - simpl in Hres. injection Hres as <-. exists [].
    rewrite app_nil_r. by repeat split.
  - simpl in Hres. apply bind_outcome_Ok in Hres as (acc' & Hfile & Hres).
    apply bind_outcome_Ok in Hfile as (classes & Hclasses & Hloop).
    apply class_loop_results in Hloop as (new1 & -> & Hnew1 & Hall1).
    apply IH in Hres as (groups & -> & Hgroups).
    exists (new1 :: groups). rewrite <- app_assoc. split; [done|].
    constructor; [|done]. by rewrite Hnew1.
Qed.

Lemma file_loop_trace (repo_path : str) (files : list str) (acc : list entry) :
  Forall (λ ev, querying ev = true)
    (trace (for_each files
              (λ results file_path,
                 classes ← extract_class_metrics W file_path repo_path;
                 for_each classes
                   (λ results cls,
                      stats ← get_class_git_stats W file_path (class cls)
                                repo_path;
                      mret (results ++ [(cls, stats)]))
                   results)
              acc)).
Proof.
  apply trace_for_each_Forall. intros results file_path.
  apply trace_bind_Forall.
  - rewrite extract_class_metrics_trace. by repeat constructor.
  - intros classes. apply trace_for_each_Forall. intros results' cls.
    apply trace_bind_Forall.
    + rewrite get_class_git_stats_trace. by repeat constructor.
    + intros stats. constructor.
Qed.

End Run_facts.

(** ** The course of a run *)

Section Run_shape.

Variable W : World.

Lemma get_py_files_run (repo_path : str) :
  ∃ files, get_py_files W repo_path = Run [Ev_walk repo_path] (Ok files).
Proof.
  unfold get_py_files. rewrite bind_unfold. simpl. eauto.
Qed.

(** Lines 244 and 177-203: the end of [main], by the output name and the
    fate of [open]. *)
Lemma export_step (results : list entry) (fan_data : gmap str (gmap str nat))
    (OUTPUT_FILE : option str) :
  (output_file ← load_local (lit "OUTPUT_FILE") OUTPUT_FILE;
   export_to_csv W results fan_data (output_file ++ lit ".csv"))
  = match OUTPUT_FILE with
    | None => Run [] (Raise (UnboundLocalError (lit "OUTPUT_FILE")))
    | Some out =>
        match open_write W (out ++ lit ".csv") with
        | Ok _ =>
            Run [Ev_csv (out ++ lit ".csv") (csv_row_of fan_data <$> results);
                 Ev_print ([10; 128193]%N ++ lit " CSV export complete: "
                             ++ (out ++ lit ".csv"))]
                (Ok ())
        | Raise e => Run [] (Raise e)
        end
    end.
Proof.
  destruct OUTPUT_FILE as [out|]; [|reflexivity].
  change (load_local (lit "OUTPUT_FILE") (Some out)) with (mret out : M str).
  rewrite bind_ret_l. unfold export_to_csv, lift. rewrite !bind_unfold. simpl.
  destruct (open_write W (out ++ lit ".csv")) as [[]|e]; reflexivity.
Qed.

(** A file that cannot be opened ends extraction with the error of [open]. *)
Lemma extract_unreadable (file_path repo_path : str) (e : exn) :
  open_read W file_path = Raise e →
  outcome (extract_class_metrics W file_path repo_path) = Raise e.
Proof.
  intros Hopen. unfold extract_class_metrics, lift, try_except.
  rewrite !bind_unfold. simpl. rewrite Hopen. reflexivity.
Qed.

(** The loop of lines 221-226 stops at a file that cannot be opened, if not
    before. *)
Lemma file_loop_unreadable (repo_path : str) (files : list str)
    (acc : list entry) (file : str) (e : exn) :
  file ∈ files →
  open_read W file = Raise e →
  ∃ e', outcome (for_each files
                   (λ results file_path,
                      classes ← extract_class_metrics W file_path repo_path;
                      for_each classes
                        (λ results cls,
                           stats ← get_class_git_stats W file_path (class cls)
                                     repo_path;
                           mret (results ++ [(cls, stats)]))
                        results)
                   acc) = Raise e'.
Proof.
  intros Hin Hopen. revert acc.
  induction files as [|file' files IH]; intros acc; [by apply elem_of_nil in Hin|].
  cbn [for_each]. rewrite bind_unfold.
  match goal with |- context [outcome ?m] =>
    match m with _ ≫= _ => destruct (outcome m) as [acc'|e'] eqn:Hstep end end;
    [|simpl; eauto].
  cbn [outcome]. apply elem_of_cons in Hin as [-> | Hin]; [|by apply IH].
  apply bind_outcome_Ok in Hstep as (classes & Hclasses & _).
  rewrite (extract_unreadable _ _ _ Hopen) in Hclasses. discriminate.
Qed.

(** [main] after the arguments are read, as one trace: what each stage adds
    and where the run stops. *)
Lemma main_body_run (repo_path : str) (OUTPUT_FILE : option str) :
  let dot_file := lit "classes_" ++ replace_char repo_path 47%N 95%N
                    ++ lit ".dot" in
  let args := [lit "pyreverse"; lit "-o"; lit "dot"; lit "-p";
               repo_path; repo_path] in
  ∃ (files : list str) (loop : M (list entry)),
    get_py_files W repo_path = Run [Ev_walk repo_path] (Ok files)
    ∧ Forall (λ ev, querying ev = true) (trace loop)
    ∧ (∀ file e, file ∈ files → open_read W file = Raise e →
         ∃ e', outcome loop = Raise e')
    ∧ (∀ results, outcome loop = Ok results →
         ∃ groups : list (list entry),
           results = concat groups
           ∧ Forall2 (λ file (group : list entry),
                        outcome (extract_class_metrics W file repo_path)
                        = Ok group.*1
                        ∧ Forall (λ r : entry,
                                    outcome (get_class_git_stats W file
                                               (class r.1) repo_path)
                                    = Ok r.2) group)
                     files groups)
    ∧ main_body W repo_path OUTPUT_FILE
      = let tail :=
          match outcome loop with
          | Raise e => ([], Raise e)
          | Ok results =>
              let graph :=
                [Ev_print ([10; 9851; 65039]%N ++ lit " Running pyreverse on: "
                             ++ repo_path);
                 Ev_run args None] in
              match run_process W args None with
              | Exited 0 _ =>
                  let fan :=
                    [Ev_print (lit "computing fan-in and fan-out using dot file: "
                                 ++ dot_file);
                     Ev_read_dot dot_file] in
                  match outcome (compute_fan_in_out W dot_file) with
                  | Ok fan_data =>
                      let table :=
                        [Ev_print_header; Ev_print (replicate 150 45%N)]
                        ++ ((λ r, Ev_print_row r
                                    (fan_get fan_data (class r.1) (lit "fan_in"))
                                    (fan_get fan_data (class r.1) (lit "fan_out")))
                              <$> results) in
                      match OUTPUT_FILE with
                      | None =>
                          (graph ++ fan ++ table,
                           Raise (UnboundLocalError (lit "OUTPUT_FILE")))
                      | Some out =>
                          match open_write W (out ++ lit ".csv") with
                          | Ok _ =>
                              (graph ++ fan ++ table
                                 ++ [Ev_csv (out ++ lit ".csv")
                                       (csv_row_of fan_data <$> results);
                                     Ev_print ([10; 128193]%N
                                                 ++ lit " CSV export complete: "
                                                 ++ (out ++ lit ".csv"))],
                               Ok ())
                          | Raise e => (graph ++ fan ++ table, Raise e)
                          end
                      end
                  | Raise e => (graph ++ fan, Raise e)
                  end
              | Exited returncode _ =>
                  (graph, Raise (CalledProcessError returncode))
              | Not_run e => (graph, Raise e)
              end
          end in
        Run ([Ev_walk repo_path;
              Ev_print (lit "Computing the first set of class metrics...")]
               ++ trace loop ++ tail.1)
            tail.2.
Proof.
  intros dot_file args. destruct (get_py_files_run repo_path) as [files Hfiles].
  exists files. eexists. split; [exact Hfiles|].
  split; [apply (file_loop_trace W repo_path files [])|].
  split; [intros file e; apply file_loop_unreadable|].
  split.
  { intros results Hres.
    apply file_loop_results in Hres as (groups & -> & Hgroups). eauto. }
  unfold main_body. rewrite Hfiles.
  rewrite bind_unfold. cbn [outcome trace].
  rewrite bind_unfold. cbn [outcome trace emit].
  rewrite bind_unfold.
  match goal with |- context [outcome ?l] =>
    match l with for_each files _ [] => set (loop := l) end end.
  change (for_each files _ []) with loop. fold dot_file.
  change (@outcome _ loop) with (@outcome (list entry) loop).
  change (@trace _ loop) with (@trace (list entry) loop).
  clearbody loop.
  destruct (@outcome (list entry) loop) as [results|e];
    [|cbn [trace outcome fst snd app]; by rewrite app_nil_r].
  rewrite bind_unfold, run_pyreverse_unfold. fold args. cbn [outcome trace].
  destruct (run_process W args None) as [[| |] ?|]; try reflexivity.
  rewrite bind_unfold, compute_fan_in_out_trace.
  destruct (outcome (compute_fan_in_out W dot_file)) as [fan_data|e];
    [|reflexivity].
  rewrite bind_unfold. cbn [outcome trace emit].
  rewrite bind_unfold. cbn [outcome trace emit].
  rewrite bind_unfold, print_rows_run. cbn [outcome trace fst snd].
  rewrite export_step.
  destruct OUTPUT_FILE as [out|];
    [destruct (open_write W (out ++ lit ".csv")) as [[]|e]|];
    cbn [outcome trace fst snd]; rewrite ?app_nil_r; reflexivity.
Qed.

Lemma compute_fan_in_out_unreadable (dot_file : str) (e : exn) :
  read_dot W dot_file = Raise e →
  outcome (compute_fan_in_out W dot_file) = Raise e.
Proof.
  intros Hdot. unfold compute_fan_in_out, lift. rewrite !bind_unfold. simpl.
  rewrite Hdot. reflexivity.
Qed.

Lemma querying_is_not_reporting (l : list event) :
  Forall (λ ev, querying ev = true) l → Forall (λ ev, reporting ev = false) l.
Proof. intros Hq. eapply Forall_impl; [exact Hq|]. by intros []. Qed.

Lemma querying_writes_no_csv (l : list event) :
  Forall (λ ev, querying ev = true) l → Forall (λ ev, writes_csv ev = false) l.
Proof. intros Hq. eapply Forall_impl; [exact Hq|]. by intros []. Qed.

Lemma querying_reads_no_graph (l : list event) (dot_file : str) :
  Forall (λ ev, querying ev = true) l → Ev_read_dot dot_file ∉ l.
Proof.
  intros Hq Hin. by apply (proj1 (Forall_forall _ _) Hq) in Hin.
Qed.

Lemma querying_prints_no_header (l : list event) :
  Forall (λ ev, querying ev = true) l → Ev_print_header ∉ l.
Proof.
  intros Hq Hin. by apply (proj1 (Forall_forall _ _) Hq) in Hin.
Qed.

Lemma table_rows_write_no_csv (fan_data : gmap str (gmap str nat))
    (results : list entry) :
  Forall (λ ev, writes_csv ev = false)
    ((λ r, Ev_print_row r (fan_get fan_data (class r.1) (lit "fan_in"))
             (fan_get fan_data (class r.1) (lit "fan_out"))) <$> results).
Proof. apply Forall_fmap, Forall_true. by intros r. Qed.

(** X21: a run that completes does its steps in this order: the walk, the
    reads of the source files and the history queries, [pyreverse], the read
    of the graph file, the table and last the report file; the table and the
    report file list the same entries with the same fan-in and fan-out. *)
Theorem steps_of_a_complete_run (prog repo_path out : str) (rest : list str) :
  outcome (main W (prog :: repo_path :: out :: rest)) = Ok () →
  ∃ (queries : list event) (results : list entry)
    (fan_data : gmap str (gmap str nat)),
    trace (main W (prog :: repo_path :: out :: rest))
    = [Ev_walk repo_path;
       Ev_print (lit "Computing the first set of class metrics...")]
      ++ queries
      ++ [Ev_print ([10; 9851; 65039]%N ++ lit " Running pyreverse on: "
                      ++ repo_path);
          Ev_run [lit "pyreverse"; lit "-o"; lit "dot"; lit "-p";
                  repo_path; repo_path] None;
          Ev_print (lit "computing fan-in and fan-out using dot file: "
                      ++ (lit "classes_" ++ replace_char repo_path 47%N 95%N
                            ++ lit ".dot"));
          Ev_read_dot (lit "classes_" ++ replace_char repo_path 47%N 95%N
                         ++ lit ".dot");
          Ev_print_header;
          Ev_print (replicate 150 45%N)]
      ++ ((λ r, Ev_print_row r (row_fan_in (csv_row_of fan_data r))
                  (row_fan_out (csv_row_of fan_data r))) <$> results)
      ++ [Ev_csv (out ++ lit ".csv") (csv_row_of fan_data <$> results);
          Ev_print ([10; 128193]%N ++ lit " CSV export complete: "
                      ++ (out ++ lit ".csv"))]
    ∧ Forall (λ ev, querying ev = true) queries
    ∧ outcome (compute_fan_in_out W
                 (lit "classes_" ++ replace_char repo_path 47%N 95%N
                    ++ lit ".dot")) = Ok fan_data.
Proof.
  rewrite main_more_arguments.
  destruct (main_body_run repo_path (Some out))
    as (files & loop & _ & Hq & _ & _ & ->).
  cbv zeta. cbn [outcome trace]. intros Hok.
  destruct (outcome loop) as [results|]; [|discriminate].
  destruct (run_process W _ None) as [[| |] ?|]; try discriminate.
  destruct (outcome (compute_fan_in_out W _)) as [fan_data|]; [|discriminate].
  destruct (open_write W _) as [[]|]; [|discriminate].
  exists (trace loop), results, fan_data. cbn [fst snd].
  split; [|done]. reflexivity.
Qed.

(** X22: the report file has one row per class found, in the order of the
    files of [get_py_files] and, within a file, of [extract_class_metrics];
    the history fields of a row are the answer of [get_class_git_stats] for
    that class in that file and its fan values come from the table of
    [compute_fan_in_out]. *)
Theorem report_has_one_row_per_class
    (argv : list str) (output_file : str) (rows : list csv_row) :
  Ev_csv output_file rows ∈ trace (main W argv) →
  ∃ (repo_path : str) (files : list str) (groups : list (list entry))
    (fan_data : gmap str (gmap str nat)),
    argv !! 1 = Some repo_path
    ∧ outcome (get_py_files W repo_path) = Ok files
    ∧ Forall2 (λ file (group : list entry),
                 outcome (extract_class_metrics W file repo_path)
                 = Ok group.*1
                 ∧ Forall (λ r : entry,
                             outcome (get_class_git_stats W file (class r.1)
                                        repo_path) = Ok r.2) group)
              files groups
    ∧ outcome (compute_fan_in_out W
                 (lit "classes_" ++ replace_char repo_path 47%N 95%N
                    ++ lit ".dot")) = Ok fan_data
    ∧ rows = csv_row_of fan_data <$> concat groups.
Proof.
  rewrite main_unfold. destruct argv as [|prog [|repo_path rest]].
  1, 2: intros Hin; apply list_elem_of_singleton in Hin; discriminate.
  destruct (main_body_run repo_path (head rest))
    as (files & loop & Hfiles & Hq & _ & Hres & ->).
  cbv zeta. cbn [outcome trace]. intros Hin.
  assert (Hstart : Forall (λ ev, writes_csv ev = false)
                     ([Ev_walk repo_path;
                       Ev_print (lit "Computing the first set of class metrics...")]
                        ++ trace loop)).
  { apply Forall_app. split; [by repeat constructor|].
    by apply querying_writes_no_csv. }
  rewrite (app_assoc [Ev_walk repo_path; _]) in Hin.
  apply elem_of_app in Hin as [Hin|Hin];
    [by apply (proj1 (Forall_forall _ _) Hstart) in Hin|].
  destruct (outcome loop) as [results|]; [|by apply elem_of_nil in Hin].
  destruct (Hres results eq_refl) as (groups & -> & Hgroups).
  destruct (run_process W _ None) as [[| |] ?|].
  2-4: cbn [fst] in Hin;
       repeat (apply elem_of_cons in Hin as [Hin|Hin]; [discriminate|]);
       by apply elem_of_nil in Hin.
  destruct (outcome (compute_fan_in_out W _)) as [fan_data|] eqn:Hfan.
  2: { cbn [fst] in Hin;
       repeat (apply elem_of_cons in Hin as [Hin|Hin]; [discriminate|]);
       by apply elem_of_nil in Hin. }
  assert (Htable : ∀ tail,
            Ev_csv output_file rows
              ∈ [Ev_print ([10; 9851; 65039]%N ++ lit " Running pyreverse on: "
                             ++ repo_path);
                 Ev_run [lit "pyreverse"; lit "-o"; lit "dot"; lit "-p";
                         repo_path; repo_path] None]
                ++ [Ev_print (lit "computing fan-in and fan-out using dot file: "
                                ++ (lit "classes_"
                                      ++ replace_char repo_path 47%N 95%N
                                      ++ lit ".dot"));
                    Ev_read_dot (lit "classes_"
                                   ++ replace_char repo_path 47%N 95%N
                                   ++ lit ".dot")]
                ++ ([Ev_print_header; Ev_print (replicate 150 45%N)]
                      ++ ((λ r, Ev_print_row r
                                  (fan_get fan_data (class r.1) (lit "fan_in"))
                                  (fan_get fan_data (class r.1) (lit "fan_out")))
                            <$> concat groups))
                ++ tail →
            Ev_csv output_file rows ∈ tail).
  { intros tail Ht.
    repeat (apply elem_of_cons in Ht as [Ht|Ht]; [discriminate|]).
    apply elem_of_app in Ht as [Ht|Ht]; [|done].
    by apply (proj1 (Forall_forall _ _) (table_rows_write_no_csv _ _)) in Ht. }
  destruct (head rest) as [out|].
  2: { cbn [fst] in Hin. rewrite <- (app_nil_r (_ ++ _ ++ _)) in Hin.
       rewrite <- !app_assoc in Hin. apply Htable in Hin.
       by apply elem_of_nil in Hin. }
  destruct (open_write W _) as [[]|].
  2: { cbn [fst] in Hin. rewrite <- (app_nil_r (_ ++ _ ++ _)) in Hin.
       rewrite <- !app_assoc in Hin. apply Htable in Hin.
       by apply elem_of_nil in Hin. }
  cbn [fst] in Hin. apply Htable in Hin.
  apply elem_of_cons in Hin as [Hin|Hin].
  - injection Hin as -> ->. exists repo_path, files, groups, fan_data.
    rewrite Hfiles. done.
  - apply list_elem_of_singleton in Hin. discriminate.
Qed.


(** What [main] does before the table never reports. *)
Lemma start_reports_nothing (repo_path : str) (queries : list event) :
  Forall (λ ev, querying ev = true) queries →
  Forall (λ ev, reporting ev = false)
    ([Ev_walk repo_path;
      Ev_print (lit "Computing the first set of class metrics...")]
       ++ queries).
Proof.
  intros Hq. apply Forall_app. split; [by repeat constructor|].
  by apply querying_is_not_reporting.
Qed.

Lemma start_reads_no_graph (repo_path dot_file : str) (queries : list event) :
  Forall (λ ev, querying ev = true) queries →
  Ev_read_dot dot_file
    ∉ [Ev_walk repo_path;
       Ev_print (lit "Computing the first set of class metrics...")]
      ++ queries.
Proof.
  intros Hq Hin. apply elem_of_app in Hin as [Hin|Hin].
  - repeat (apply elem_of_cons in Hin as [Hin|Hin]; [discriminate|]).
    by apply elem_of_nil in Hin.
  - by apply (querying_reads_no_graph _ dot_file Hq).
Qed.

Lemma start_prints_no_header (repo_path : str) (queries : list event) :
  Forall (λ ev, querying ev = true) queries →
  Ev_print_header
    ∉ [Ev_walk repo_path;
       Ev_print (lit "Computing the first set of class metrics...")]
      ++ queries.
Proof.
  intros Hq Hin. apply elem_of_app in Hin as [Hin|Hin].
  - repeat (apply elem_of_cons in Hin as [Hin|Hin]; [discriminate|]).
    by apply elem_of_nil in Hin.
  - by apply (querying_prints_no_header _ Hq).
Qed.

(** X23: when [pyreverse] does not exit with status 0 (or cannot be started),
    the run ends with an exception: the graph file is not read, no table is
    printed and no report file is written. *)
Theorem failed_pyreverse_stops_the_run (prog repo_path : str) (rest : list str) :
  (∀ stdout,
     run_process W [lit "pyreverse"; lit "-o"; lit "dot"; lit "-p";
                    repo_path; repo_path] None ≠ Exited 0 stdout) →
  ∃ e, outcome (main W (prog :: repo_path :: rest)) = Raise e
       ∧ (∀ dot_file,
            Ev_read_dot dot_file ∉ trace (main W (prog :: repo_path :: rest)))
       ∧ Forall (λ ev, reporting ev = false)
           (trace (main W (prog :: repo_path :: rest))).
Proof.
  intros Hpy. rewrite main_unfold.
  destruct (main_body_run repo_path (head rest))
    as (files & loop & _ & Hq & _ & _ & ->).
  cbv zeta. cbn [outcome trace]. rewrite (app_assoc [Ev_walk repo_path; _]).
  pose proof (start_reports_nothing repo_path _ Hq) as Hrep.
  pose proof (λ dot_file, start_reads_no_graph repo_path dot_file _ Hq) as Hdot.
  destruct (outcome loop) as [results|e].
  2: { exists e. cbn [fst snd]. rewrite app_nil_r. done. }
  destruct (run_process W _ None) as [[|code|code] stdout|e];
    [by destruct (Hpy stdout)|..]; cbn [fst snd];
    (eexists; split; [reflexivity|]; split;
     [intros dot_file Hin; apply elem_of_app in Hin as [Hin|Hin];
      [by apply (Hdot dot_file)|];
      repeat (apply elem_of_cons in Hin as [Hin|Hin]; [discriminate|]);
      by apply elem_of_nil in Hin
     |apply Forall_app; split; [done|by repeat constructor]]).
Qed.

(** X24: when the graph file cannot be read, the run ends with an exception
    (that of [read_dot], unless it ended before the read) and neither prints
    the table nor writes the report file. *)
Theorem unreadable_graph_stops_the_run
    (prog repo_path : str) (rest : list str) (e : exn) :
  read_dot W (lit "classes_" ++ replace_char repo_path 47%N 95%N ++ lit ".dot")
    = Raise e →
  ∃ e', outcome (main W (prog :: repo_path :: rest)) = Raise e'
        ∧ (e' = e
           ∨ ∀ dot_file,
               Ev_read_dot dot_file
                 ∉ trace (main W (prog :: repo_path :: rest)))
        ∧ Forall (λ ev, reporting ev = false)
            (trace (main W (prog :: repo_path :: rest))).
Proof.
  intros Hgraph. rewrite main_unfold.
  destruct (main_body_run repo_path (head rest))
    as (files & loop & _ & Hq & _ & _ & ->).
  cbv zeta. cbn [outcome trace]. rewrite (app_assoc [Ev_walk repo_path; _]).
  rewrite (compute_fan_in_out_unreadable _ _ Hgraph).
  pose proof (start_reports_nothing repo_path _ Hq) as Hrep.
  pose proof (λ dot_file, start_reads_no_graph repo_path dot_file _ Hq) as Hdot.
  destruct (outcome loop) as [results|e'].
  2: { exists e'. cbn [fst snd]. rewrite app_nil_r. split; [done|].
       split; [by right|done]. }
  destruct (run_process W _ None) as [[|code|code] stdout|e']; cbn [fst snd].
  - exists e. split; [done|]. split; [by left|].
    apply Forall_app. split; [done|by repeat constructor].
  - eexists. split; [reflexivity|]. split.
    + right. intros dot_file Hin. apply elem_of_app in Hin as [Hin|Hin];
        [by apply (Hdot dot_file)|].
      repeat (apply elem_of_cons in Hin as [Hin|Hin]; [discriminate|]).
      by apply elem_of_nil in Hin.
    + apply Forall_app. split; [done|by repeat constructor].
  - eexists. split; [reflexivity|]. split.
    + right. intros dot_file Hin. apply elem_of_app in Hin as [Hin|Hin];
        [by apply (Hdot dot_file)|].
      repeat (apply elem_of_cons in Hin as [Hin|Hin]; [discriminate|]).
      by apply elem_of_nil in Hin.
    + apply Forall_app. split; [done|by repeat constructor].
  - eexists. split; [reflexivity|]. split.
    + right. intros dot_file Hin. apply elem_of_app in Hin as [Hin|Hin];
        [by apply (Hdot dot_file)|].
      repeat (apply elem_of_cons in Hin as [Hin|Hin]; [discriminate|]).
      by apply elem_of_nil in Hin.
    + apply Forall_app. split; [done|by repeat constructor].
Qed.

(** The trace of a run that gets as far as the table, without the export. *)
Lemma table_writes_no_csv (repo_path : str) (queries : list event)
    (args : list str) (text1 text2 dot_file : str)
    (fan_data : gmap str (gmap str nat)) (results : list entry) :
  Forall (λ ev, querying ev = true) queries →
  Forall (λ ev, writes_csv ev = false)
    (([Ev_walk repo_path;
       Ev_print (lit "Computing the first set of class metrics...")]
        ++ queries)
       ++ [Ev_print text1; Ev_run args None]
       ++ [Ev_print text2; Ev_read_dot dot_file]
       ++ [Ev_print_header; Ev_print (replicate 150 45%N)]
       ++ ((λ r, Ev_print_row r (fan_get fan_data (class r.1) (lit "fan_in"))
                   (fan_get fan_data (class r.1) (lit "fan_out")))
             <$> results)).
Proof.
  intros Hq. apply Forall_app. split.
  { apply Forall_app. split; [by repeat constructor|].
    by apply querying_writes_no_csv. }
  repeat (apply Forall_cons; split; [reflexivity|]).
  apply table_rows_write_no_csv.
Qed.

(** The run before the table, whatever stops it, writes no report. *)
Lemma early_stop_writes_no_csv (repo_path : str) (queries tail : list event) :
  Forall (λ ev, querying ev = true) queries →
  Forall (λ ev, writes_csv ev = false) tail →
  Forall (λ ev, writes_csv ev = false)
    (([Ev_walk repo_path;
       Ev_print (lit "Computing the first set of class metrics...")]
        ++ queries) ++ tail).
Proof.
  intros Hq Htail. apply Forall_app. split; [|done].
  apply Forall_app. split; [by repeat constructor|].
  by apply querying_writes_no_csv.
Qed.

Lemma early_stop_prints_no_header (repo_path : str) (queries tail : list event) :
  Forall (λ ev, querying ev = true) queries →
  Forall (λ ev, reporting ev = false) tail →
  Ev_print_header
    ∉ ([Ev_walk repo_path;
        Ev_print (lit "Computing the first set of class metrics...")]
         ++ queries) ++ tail.
Proof.
  intros Hq Htail Hin. apply elem_of_app in Hin as [Hin|Hin].
  - by apply (start_prints_no_header repo_path _ Hq).
  - by apply (proj1 (Forall_forall _ _) Htail) in Hin.
Qed.

(** X25: with the repository path as the only argument the run never
    completes and writes no report file, whatever the repository holds: it
    ends with [UnboundLocalError] for [OUTPUT_FILE] right after the last row
    of the table, unless it ended with another exception before the table. *)
Theorem one_argument_run_writes_no_report (prog repo_path : str) :
  ∃ e, outcome (main W [prog; repo_path]) = Raise e
       ∧ (e = UnboundLocalError (lit "OUTPUT_FILE")
          ∨ Ev_print_header ∉ trace (main W [prog; repo_path]))
       ∧ Forall (λ ev, writes_csv ev = false)
           (trace (main W [prog; repo_path]))
       ∧ (Ev_print_header ∈ trace (main W [prog; repo_path]) →
          e = UnboundLocalError (lit "OUTPUT_FILE")
          ∧ ∃ (before : list event) (results : list entry)
              (fan_data : gmap str (gmap str nat)),
              trace (main W [prog; repo_path])
              = before
                ++ [Ev_print_header; Ev_print (replicate 150 45%N)]
                ++ ((λ r, Ev_print_row r (row_fan_in (csv_row_of fan_data r))
                            (row_fan_out (csv_row_of fan_data r)))
                      <$> results)
              ∧ Forall (λ ev, reporting ev = false) before).
Proof.
  rewrite main_one_argument.
  destruct (main_body_run repo_path None)
    as (files & loop & _ & Hq & _ & _ & ->).
  cbv zeta. cbn [outcome trace]. rewrite (app_assoc [Ev_walk repo_path; _]).
  destruct (outcome loop) as [results|e]; cbn [fst snd].
  2: { exists e. split; [done|].
       assert (Hno : Ev_print_header
                       ∉ ([Ev_walk repo_path;
                           Ev_print (lit "Computing the first set of class metrics...")]
                            ++ trace loop) ++ [])
         by by apply early_stop_prints_no_header.
       split; [by right|]. split; [by apply early_stop_writes_no_csv|].
       intros Hin. by destruct Hno. }
  destruct (run_process W _ None) as [[|code|code] stdout|e]; cbn [fst snd].
  2-4: eexists; (split; [reflexivity|]);
       match goal with |- (_ ∨ Ev_print_header ∉ ?t) ∧ _ =>
         assert (Hno : Ev_print_header ∉ t)
           by (apply early_stop_prints_no_header; [done|by repeat constructor])
       end;
       (split; [by right|]);
       (split; [apply early_stop_writes_no_csv; [done|by repeat constructor]|]);
       intros Hin; by destruct Hno.
  destruct (outcome (compute_fan_in_out W _)) as [fan_data|e]; cbn [fst snd].
  2: { exists e. split; [done|].
       match goal with |- (_ ∨ Ev_print_header ∉ ?t) ∧ _ =>
         assert (Hno : Ev_print_header ∉ t)
           by (apply early_stop_prints_no_header; [done|by repeat constructor])
       end.
       split; [by right|].
       split; [apply early_stop_writes_no_csv; [done|by repeat constructor]|].
       intros Hin. by destruct Hno. }
  eexists. split; [reflexivity|]. split; [by left|].
  split; [by apply table_writes_no_csv|].
  intros _. split; [done|].
  eexists (([Ev_walk repo_path; _] ++ trace loop) ++ [_; _] ++ [_; _]),
    results, fan_data.
  split; [by rewrite <- !app_assoc|].
  apply Forall_app. split; [by apply start_reports_nothing|].
  by repeat constructor.
Qed.

(** X26: when the report file cannot be opened for writing, the run ends
    with an exception and writes nothing; the exception is that of [open],
    raised after the whole analysis, right after the last row of the table,
    unless the run ended before the table. *)
Theorem unwritable_report_fails_last
    (prog repo_path out : str) (rest : list str) (e : exn) :
  open_write W (out ++ lit ".csv") = Raise e →
  ∃ e', outcome (main W (prog :: repo_path :: out :: rest)) = Raise e'
        ∧ (e' = e
           ∨ Ev_print_header
               ∉ trace (main W (prog :: repo_path :: out :: rest)))
        ∧ Forall (λ ev, writes_csv ev = false)
            (trace (main W (prog :: repo_path :: out :: rest)))
        ∧ (Ev_print_header ∈ trace (main W (prog :: repo_path :: out :: rest)) →
           e' = e
           ∧ ∃ (before : list event) (results : list entry)
               (fan_data : gmap str (gmap str nat)),
               trace (main W (prog :: repo_path :: out :: rest))
               = before
                 ++ [Ev_print_header; Ev_print (replicate 150 45%N)]
                 ++ ((λ r, Ev_print_row r (row_fan_in (csv_row_of fan_data r))
                             (row_fan_out (csv_row_of fan_data r)))
                       <$> results)
               ∧ Forall (λ ev, reporting ev = false) before).
Proof.
  intros Hopen. rewrite main_more_arguments.
  destruct (main_body_run repo_path (Some out))
    as (files & loop & _ & Hq & _ & _ & ->).
  cbv zeta. cbn [outcome trace]. rewrite (app_assoc [Ev_walk repo_path; _]).
  rewrite Hopen.
  destruct (outcome loop) as [results|e']; cbn [fst snd].
  2: { exists e'. split; [done|].
       assert (Hno : Ev_print_header
                       ∉ ([Ev_walk repo_path;
                           Ev_print (lit "Computing the first set of class metrics...")]
                            ++ trace loop) ++ [])
         by by apply early_stop_prints_no_header.
       split; [by right|]. split; [by apply early_stop_writes_no_csv|].
       intros Hin. by destruct Hno. }
  destruct (run_process W _ None) as [[|code|code] stdout|e']; cbn [fst snd].
  2-4: eexists; (split; [reflexivity|]);
       match goal with |- (_ ∨ Ev_print_header ∉ ?t) ∧ _ =>
         assert (Hno : Ev_print_header ∉ t)
           by (apply early_stop_prints_no_header; [done|by repeat constructor])
       end;
       (split; [by right|]);
       (split; [apply early_stop_writes_no_csv; [done|by repeat constructor]|]);
       intros Hin; by destruct Hno.
  destruct (outcome (compute_fan_in_out W _)) as [fan_data|e']; cbn [fst snd].
  2: { exists e'. split; [done|].
       match goal with |- (_ ∨ Ev_print_header ∉ ?t) ∧ _ =>
         assert (Hno : Ev_print_header ∉ t)
           by (apply early_stop_prints_no_header; [done|by repeat constructor])
       end.
       split; [by right|].
       split; [apply early_stop_writes_no_csv; [done|by repeat constructor]|].
       intros Hin. by destruct Hno. }
  exists e. split; [done|]. split; [by left|].
  split; [by apply table_writes_no_csv|].
  intros _. split; [done|].
  eexists (([Ev_walk repo_path; _] ++ trace loop) ++ [_; _] ++ [_; _]),
    results, fan_data.
  split; [by rewrite <- !app_assoc|].
  apply Forall_app. split; [by apply start_reports_nothing|].
  by repeat constructor.
Qed.

Lemma replace_char_removes (s : str) (a b : N) :
  a ≠ b → a ∉ replace_char s a b.
Proof.
  intros Hab Hin. unfold replace_char in Hin.
  apply list_elem_of_fmap in Hin as (c & Hc & _).
  destruct (decide (c = a)); congruence.
Qed.

(** The steps from [pyreverse] on read one graph file. *)
Lemma graph_steps_read_one_file (args : list str) (text1 text2 dot_file d : str)
    (rest : list event) :
  Forall (λ ev, ∀ d', ev ≠ Ev_read_dot d') rest →
  Ev_read_dot d
    ∈ [Ev_print text1; Ev_run args None]
      ++ [Ev_print text2; Ev_read_dot dot_file] ++ rest →
  d = dot_file.
Proof.
  intros Hrest Hin.
  do 3 (apply elem_of_cons in Hin as [Hin|Hin]; [discriminate|]).
  apply elem_of_cons in Hin as [Hin|Hin]; [by injection Hin|].
  by destruct (proj1 (Forall_forall _ _) Hrest _ Hin d).
Qed.

Lemma table_reads_no_graph (fan_data : gmap str (gmap str nat))
    (results : list entry) (tail : list event) :
  Forall (λ ev, ∀ d', ev ≠ Ev_read_dot d') tail →
  Forall (λ ev, ∀ d', ev ≠ Ev_read_dot d')
    (([Ev_print_header; Ev_print (replicate 150 45%N)]
        ++ ((λ r, Ev_print_row r (fan_get fan_data (class r.1) (lit "fan_in"))
                    (fan_get fan_data (class r.1) (lit "fan_out")))
              <$> results))
       ++ tail).
Proof.
  intros Htail. apply Forall_app. split; [|done].
  do 2 (apply Forall_cons; split; [done|]).
  apply Forall_fmap, Forall_true. by intros r.
Qed.

(** X27: the graph is read from one file, [classes_<path>.dot] with every
    [/] of the repository path replaced by [_], so a file of the working
    directory; [pyreverse] ran before the read, with the unchanged path as
    project name. *)
Theorem graph_file_is_in_the_working_directory
    (argv : list str) (dot_file : str) :
  Ev_read_dot dot_file ∈ trace (main W argv) →
  ∃ repo_path,
    argv !! 1 = Some repo_path
    ∧ dot_file = lit "classes_" ++ replace_char repo_path 47%N 95%N
                   ++ lit ".dot"
    ∧ (47%N ∉ dot_file)
    ∧ Ev_run [lit "pyreverse"; lit "-o"; lit "dot"; lit "-p";
              repo_path; repo_path] None ∈ trace (main W argv)
    ∧ ∃ l1 l2 l3,
        trace (main W argv)
        = l1 ++ Ev_run [lit "pyreverse"; lit "-o"; lit "dot"; lit "-p";
                        repo_path; repo_path] None
             :: l2 ++ Ev_read_dot dot_file :: l3
        ∧ (∀ d, Ev_read_dot d ∉ l1 ++ l2 ++ l3).
Proof.
  rewrite main_unfold. destruct argv as [|prog [|repo_path rest]].
  1, 2: intros Hin; apply list_elem_of_singleton in Hin; discriminate.
  destruct (main_body_run repo_path (head rest))
    as (files & loop & _ & Hq & _ & _ & ->).
  cbv zeta. cbn [outcome trace]. intros Hin.
  exists repo_path. split; [done|].
  assert (Hname : 47%N ∉ lit "classes_" ++ replace_char repo_path 47%N 95%N
                           ++ lit ".dot").
  { intros Hc. apply elem_of_app in Hc as [Hc|Hc];
      [|apply elem_of_app in Hc as [Hc|Hc]].
    - revert Hc. by apply (bool_decide_unpack _).
    - by apply replace_char_removes in Hc.
    - revert Hc. by apply (bool_decide_unpack _). }
  rewrite (app_assoc [Ev_walk repo_path; _]) in Hin |- *.
  apply elem_of_app in Hin as [Hin|Hin];
    [by apply (start_reads_no_graph repo_path dot_file _ Hq) in Hin|].
  destruct (outcome loop) as [results|]; [|by apply elem_of_nil in Hin].
  destruct (run_process W _ None) as [[| |] ?|].
  2-4: cbn [fst] in Hin;
       repeat (apply elem_of_cons in Hin as [Hin|Hin]; [discriminate|]);
       by apply elem_of_nil in Hin.
  assert (Hrun : ∀ tail,
            Forall (λ ev, ∀ d', ev ≠ Ev_read_dot d') tail →
            let t :=
              ([Ev_walk repo_path;
                Ev_print (lit "Computing the first set of class metrics...")]
                 ++ trace loop)
              ++ [Ev_print ([10; 9851; 65039]%N
                              ++ lit " Running pyreverse on: " ++ repo_path);
                  Ev_run [lit "pyreverse"; lit "-o"; lit "dot"; lit "-p";
                          repo_path; repo_path] None]
              ++ [Ev_print (lit "computing fan-in and fan-out using dot file: "
                              ++ (lit "classes_"
                                    ++ replace_char repo_path 47%N 95%N
                                    ++ lit ".dot"));
                  Ev_read_dot (lit "classes_"
                                 ++ replace_char repo_path 47%N 95%N
                                 ++ lit ".dot")]
              ++ tail in
            Ev_run [lit "pyreverse"; lit "-o"; lit "dot"; lit "-p";
                    repo_path; repo_path] None ∈ t
            ∧ ∃ l1 l2 l3,
                t = l1 ++ Ev_run [lit "pyreverse"; lit "-o"; lit "dot";
                                  lit "-p"; repo_path; repo_path] None
                       :: l2 ++ Ev_read_dot
                                  (lit "classes_"
                                     ++ replace_char repo_path 47%N 95%N
                                     ++ lit ".dot") :: l3
                ∧ (∀ d, Ev_read_dot d ∉ l1 ++ l2 ++ l3)).
  { intros tail Htail t. split; [apply elem_of_app; right; right; left|].
    eexists (([Ev_walk repo_path; _] ++ trace loop) ++ [_]), [_], tail.
    split; [subst t; by rewrite <- !app_assoc|].
    intros d Hd. rewrite <- app_assoc in Hd.
    apply elem_of_app in Hd as [Hd|Hd];
      [by apply (start_reads_no_graph repo_path d _ Hq) in Hd|].
    do 2 (apply elem_of_cons in Hd as [Hd|Hd]; [discriminate|]).
    by destruct (proj1 (Forall_forall _ _) Htail _ Hd d). }
  destruct (outcome (compute_fan_in_out W _)) as [fan_data|].
  2: { cbn [fst] in Hin |- *.
       rewrite <- (app_nil_r [_; Ev_read_dot _]) in Hin |- *.
       apply graph_steps_read_one_file in Hin as ->; [|constructor].
       split; [done|]. split; [done|]. apply Hrun. constructor. }
  destruct (head rest) as [out|]; [destruct (open_write W _) as [[]|]|];
    cbn [fst] in Hin |- *.
  - apply graph_steps_read_one_file in Hin as ->.
    + split; [done|]. split; [done|]. apply Hrun.
      apply table_reads_no_graph. by repeat constructor.
    + apply table_reads_no_graph. by repeat constructor.
  - rewrite <- (app_nil_r ([Ev_print_header; _] ++ _)) in Hin |- *.
    apply graph_steps_read_one_file in Hin as ->.
    + split; [done|]. split; [done|]. apply Hrun.
      apply table_reads_no_graph. constructor.
    + apply table_reads_no_graph. constructor.
  - rewrite <- (app_nil_r ([Ev_print_header; _] ++ _)) in Hin |- *.
    apply graph_steps_read_one_file in Hin as ->.
    + split; [done|]. split; [done|]. apply Hrun.
      apply table_reads_no_graph. constructor.
    + apply table_reads_no_graph. constructor.
Qed.

(** X28: a source file that cannot be opened ends the whole run with an
    exception: the graph file is not read, no table is printed and no report
    file is written. *)
Theorem unreadable_source_stops_the_run
    (prog repo_path : str) (rest files : list str) (file : str) (e : exn) :
  outcome (get_py_files W repo_path) = Ok files →
  file ∈ files →
  open_read W file = Raise e →
  ∃ e', outcome (main W (prog :: repo_path :: rest)) = Raise e'
        ∧ (∀ dot_file,
             Ev_read_dot dot_file ∉ trace (main W (prog :: repo_path :: rest)))
        ∧ Forall (λ ev, reporting ev = false)
            (trace (main W (prog :: repo_path :: rest))).
Proof.
  intros Hfiles Hin Hopen. rewrite main_unfold.
  destruct (main_body_run repo_path (head rest))
    as (files' & loop & Hfiles' & Hq & Hstop & _ & ->).
  rewrite Hfiles' in Hfiles. injection Hfiles as <-.
  destruct (Hstop file e Hin Hopen) as [e' He'].
  cbv zeta. cbn [outcome trace]. rewrite He'. cbn [fst snd].
  rewrite app_nil_r. exists e'. split; [done|]. split.
  - intros dot_file. by apply start_reads_no_graph.
  - by apply start_reports_nothing.
Qed.


End Run_shape.

Lemma steps_of_a_complete_run_witness :
  let W := Example.world in
  let argv := [lit "class_metrics_v6.py"; lit "repo"; lit "out"] in
  outcome (main W argv) = Ok ()
  ∧ ∃ (queries : list event) (results : list entry)
      (fan_data : gmap str (gmap str nat)),
      trace (main W argv)
      = [Ev_walk (lit "repo");
         Ev_print (lit "Computing the first set of class metrics...")]
        ++ queries
        ++ [Ev_print ([10; 9851; 65039]%N ++ lit " Running pyreverse on: "
                        ++ lit "repo");
            Ev_run [lit "pyreverse"; lit "-o"; lit "dot"; lit "-p";
                    lit "repo"; lit "repo"] None;
            Ev_print (lit "computing fan-in and fan-out using dot file: "
                        ++ (lit "classes_" ++ replace_char (lit "repo") 47%N 95%N
                              ++ lit ".dot"));
            Ev_read_dot (lit "classes_" ++ replace_char (lit "repo") 47%N 95%N
                           ++ lit ".dot");
            Ev_print_header;
            Ev_print (replicate 150 45%N)]
        ++ ((λ r, Ev_print_row r (row_fan_in (csv_row_of fan_data r))
                    (row_fan_out (csv_row_of fan_data r))) <$> results)
        ++ [Ev_csv (lit "out" ++ lit ".csv") (csv_row_of fan_data <$> results);
            Ev_print ([10; 128193]%N ++ lit " CSV export complete: "
                        ++ (lit "out" ++ lit ".csv"))]
      ∧ Forall (λ ev, querying ev = true) queries
      ∧ outcome (compute_fan_in_out W
                   (lit "classes_" ++ replace_char (lit "repo") 47%N 95%N
                      ++ lit ".dot")) = Ok fan_data.
Proof.
  intros W argv. split; [vm_compute; reflexivity|].
  apply (steps_of_a_complete_run Example.world
           (lit "class_metrics_v6.py") (lit "repo") (lit "out") []).
  vm_compute; reflexivity.
Defined.

Lemma report_has_one_row_per_class_witness :
  let W := Example.world in
  let argv := [lit "class_metrics_v6.py"; lit "repo"; lit "out"] in
  Ev_csv (lit "out.csv") [Example.report_row] ∈ trace (main W argv)
  ∧ ∃ (repo_path : str) (files : list str) (groups : list (list entry))
      (fan_data : gmap str (gmap str nat)),
      argv !! 1 = Some repo_path
      ∧ outcome (get_py_files W repo_path) = Ok files
      ∧ Forall2 (λ file (group : list entry),
                   outcome (extract_class_metrics W file repo_path)
                   = Ok group.*1
                   ∧ Forall (λ r : entry,
                               outcome (get_class_git_stats W file (class r.1)
                                          repo_path) = Ok r.2) group)
                files groups
      ∧ outcome (compute_fan_in_out W
                   (lit "classes_" ++ replace_char repo_path 47%N 95%N
                      ++ lit ".dot")) = Ok fan_data
      ∧ [Example.report_row] = csv_row_of fan_data <$> concat groups.
Proof.
  intros W argv.
  assert (Hcsv : Ev_csv (lit "out.csv") [Example.report_row]
                   ∈ trace (main W argv)).
  { apply (list_elem_of_lookup_2 _ 12). vm_compute. reflexivity. }
  split; [exact Hcsv|].
  exact (report_has_one_row_per_class Example.world _ _ _ Hcsv).
Defined.

Lemma failed_pyreverse_stops_the_run_witness :
  let W := Example.world_pyreverse_fails in
  let argv := [lit "class_metrics_v6.py"; lit "repo"; lit "out"] in
  (∀ stdout,
     run_process W [lit "pyreverse"; lit "-o"; lit "dot"; lit "-p";
                    lit "repo"; lit "repo"] None ≠ Exited 0 stdout)
  ∧ ∃ e, outcome (main W argv) = Raise e
         ∧ (∀ dot_file, Ev_read_dot dot_file ∉ trace (main W argv))
         ∧ Forall (λ ev, reporting ev = false) (trace (main W argv)).
Proof.
  intros W argv. split; [intros stdout; discriminate|].
  apply (failed_pyreverse_stops_the_run Example.world_pyreverse_fails
           (lit "class_metrics_v6.py") (lit "repo") [lit "out"]).
  intros stdout; discriminate.
Defined.

Lemma unreadable_graph_stops_the_run_witness :
  let W := Example.world_no_graph in
  let argv := [lit "class_metrics_v6.py"; lit "repo"; lit "out"] in
  read_dot W (lit "classes_" ++ replace_char (lit "repo") 47%N 95%N
                ++ lit ".dot") = Raise OSError
  ∧ ∃ e', outcome (main W argv) = Raise e'
          ∧ (e' = OSError
             ∨ ∀ dot_file, Ev_read_dot dot_file ∉ trace (main W argv))
          ∧ Forall (λ ev, reporting ev = false) (trace (main W argv)).
Proof.
  intros W argv. split; [reflexivity|].
  apply (unreadable_graph_stops_the_run Example.world_no_graph
           (lit "class_metrics_v6.py") (lit "repo") [lit "out"] OSError).
  reflexivity.
Defined.

Lemma unwritable_report_fails_last_witness :
  let W := Example.world_read_only in
  let argv := [lit "class_metrics_v6.py"; lit "repo"; lit "out"] in
  open_write W (lit "out" ++ lit ".csv") = Raise OSError
  ∧ ∃ e', outcome (main W argv) = Raise e'
          ∧ (e' = OSError ∨ Ev_print_header ∉ trace (main W argv))
          ∧ Forall (λ ev, writes_csv ev = false) (trace (main W argv))
          ∧ (Ev_print_header ∈ trace (main W argv) →
             e' = OSError
             ∧ ∃ (before : list event) (results : list entry)
                 (fan_data : gmap str (gmap str nat)),
                 trace (main W argv)
                 = before
                   ++ [Ev_print_header; Ev_print (replicate 150 45%N)]
                   ++ ((λ r, Ev_print_row r
                               (row_fan_in (csv_row_of fan_data r))
                               (row_fan_out (csv_row_of fan_data r)))
                         <$> results)
                 ∧ Forall (λ ev, reporting ev = false) before).
Proof.
  intros W argv. split; [reflexivity|].
  apply (unwritable_report_fails_last Example.world_read_only
           (lit "class_metrics_v6.py") (lit "repo") (lit "out") [] OSError).
  reflexivity.
Defined.

Lemma graph_file_is_in_the_working_directory_witness :
  let W := Example.world_nested in
  let argv := [lit "class_metrics_v6.py"; lit "src/pkg"; lit "out"] in
  Ev_read_dot (lit "classes_src_pkg.dot") ∈ trace (main W argv)
  ∧ ∃ repo_path,
      argv !! 1 = Some repo_path
      ∧ lit "classes_src_pkg.dot"
        = lit "classes_" ++ replace_char repo_path 47%N 95%N ++ lit ".dot"
      ∧ (47%N ∉ lit "classes_src_pkg.dot")
      ∧ Ev_run [lit "pyreverse"; lit "-o"; lit "dot"; lit "-p";
                repo_path; repo_path] None ∈ trace (main W argv)
      ∧ ∃ l1 l2 l3,
          trace (main W argv)
          = l1 ++ Ev_run [lit "pyreverse"; lit "-o"; lit "dot"; lit "-p";
                          repo_path; repo_path] None
               :: l2 ++ Ev_read_dot (lit "classes_src_pkg.dot") :: l3
          ∧ (∀ d, Ev_read_dot d ∉ l1 ++ l2 ++ l3).
Proof.
  intros W argv.
  assert (Hdot : Ev_read_dot (lit "classes_src_pkg.dot") ∈ trace (main W argv)).
  { apply (list_elem_of_lookup_2 _ 9). vm_compute. reflexivity. }
  split; [exact Hdot|].
  exact (graph_file_is_in_the_working_directory Example.world_nested _ _ Hdot).
Defined.

Lemma unreadable_source_stops_the_run_witness :
  let W := Example.world_unreadable in
  let argv := [lit "class_metrics_v6.py"; lit "repo"; lit "out"] in
  outcome (get_py_files W (lit "repo")) = Ok [lit "repo/a.py"; lit "repo/bad.py"]
  ∧ lit "repo/bad.py" ∈ [lit "repo/a.py"; lit "repo/bad.py"]
  ∧ open_read W (lit "repo/bad.py") = Raise OSError
  ∧ ∃ e', outcome (main W argv) = Raise e'
          ∧ (∀ dot_file, Ev_read_dot dot_file ∉ trace (main W argv))
          ∧ Forall (λ ev, reporting ev = false) (trace (main W argv)).
Proof.
  intros W argv.
  assert (Hfiles : outcome (get_py_files W (lit "repo"))
                   = Ok [lit "repo/a.py"; lit "repo/bad.py"])
    by (vm_compute; reflexivity).
  assert (Hin : lit "repo/bad.py" ∈ [lit "repo/a.py"; lit "repo/bad.py"])
    by (right; left).
  split; [exact Hfiles|]. split; [exact Hin|]. split; [reflexivity|].
  exact (unreadable_source_stops_the_run Example.world_unreadable
           (lit "class_metrics_v6.py") (lit "repo") [lit "out"] _
           (lit "repo/bad.py") OSError Hfiles Hin eq_refl).
Defined.
